(** * pqueue: a persistent queue backed by the local filesystem

    A shallow embedding of [pqueue.go].  The queue is a directory with the
    subdirectories [tmp], [new], [cur], [done] and [failed]; a job is a
    directory, a property of a job is a file inside it, and every state
    transition is one atomic [rename].

    The operating system is the substrate the package calls into.  It is
    modelled here as a directory tree together with the things the package
    cannot control: the outcome of [kill(pid, 0)], the random numbers of
    [math/rand], the random numbers in the names that [ioutil.TempDir] and
    [ioutil.TempFile] try, and a schedule of events, one per system call, through which a call can
    fail with an arbitrary errno or be preceded by the action of another
    process. *)

From Stdlib Require Import List String Ascii ZArith Lia Bool Arith.
Import ListNotations.

Local Open Scope string_scope.
Local Open Scope list_scope.

(** ** Errors *)

(** The errno values a system call of the package can return, and
    [ErrPattern], the error of [ioutil.TempDir] and [ioutil.TempFile] for a
    pattern that contains a path separator. *)
Inductive errno : Type :=
| ENOENT | EEXIST | ENOTDIR | EISDIR | ENOTEMPTY | EINVAL | EBUSY
| ESRCH | EPERM | EACCES | EIO | ENOSPC | ErrPattern.

(** A Go [error] coming from the [os] or [syscall] package; [None] is [nil]. *)
Definition error : Type := option errno.

Definition errno_eqb (a b : errno) : bool :=
  match a, b with
  | ENOENT, ENOENT | EEXIST, EEXIST | ENOTDIR, ENOTDIR | EISDIR, EISDIR
  | ENOTEMPTY, ENOTEMPTY | EINVAL, EINVAL | EBUSY, EBUSY | ESRCH, ESRCH
  | EPERM, EPERM | EACCES, EACCES | EIO, EIO | ENOSPC, ENOSPC
  | ErrPattern, ErrPattern => true
  | _, _ => false
  end.

(** [os.IsNotExist]: true of [ENOENT] only. *)
Definition os_IsNotExist (e : errno) : bool := errno_eqb e ENOENT.

(** [os.IsExist]: true of [EEXIST] and [ENOTEMPTY]; false of [nil]. *)
Definition os_IsExist (err : error) : bool :=
  match err with
  | Some e => errno_eqb e EEXIST || errno_eqb e ENOTEMPTY
  | None => false
  end.

(** ** Paths: package [path] *)

Module Path.

(** A cleaned absolute path, as the list of its components from the root. *)
Definition path : Type := list string.

Definition slash : ascii := "/"%char.

(** The components of [s] between slashes (empty components included). *)
Fixpoint split_slash (s : string) : list string :=
  match s with
  | EmptyString => [ EmptyString ]
  | String c s' =>
      if Ascii.eqb c slash then EmptyString :: split_slash s'
      else match split_slash s' with
           | [] => [ String c EmptyString ]
           | h :: t => String c h :: t
           end
  end.

(** One component of [path.Clean]: empty components and [.] are dropped,
    [..] removes the last component (and is dropped at the root). *)
Definition step (p : path) (c : string) : path :=
  if String.eqb c "" then p
  else if String.eqb c "." then p
  else if String.eqb c ".." then removelast p
  else p ++ [c].

(** [path.Join(base, elems...)], for a [base] that is already resolved. *)
Definition Join (base : path) (elems : list string) : path :=
  fold_left step (List.concat (map split_slash elems)) base.

(** [path.Base] of a resolved path: its last component. *)
Definition Base (p : path) : string := last p "/".

Fixpoint no_slash (s : string) : bool :=
  match s with
  | EmptyString => true
  | String c s' => negb (Ascii.eqb c slash) && no_slash s'
  end.

(** The names a directory entry can have. *)
Definition plain (s : string) : bool :=
  no_slash s && negb (String.eqb s "") && negb (String.eqb s ".")
  && negb (String.eqb s "..").

(** [q] is [p] or lies below [p]. *)
Fixpoint prefix (p q : path) : bool :=
  match p, q with
  | [], _ => true
  | a :: p', b :: q' => String.eqb a b && prefix p' q'
  | _ :: _, [] => false
  end.

Fixpoint path_eqb (p q : path) : bool :=
  match p, q with
  | [], [] => true
  | a :: p', b :: q' => String.eqb a b && path_eqb p' q'
  | _, _ => false
  end.

End Path.
Export Path.

(** ** Package [strconv] *)

Module Strconv.

Inductive NumError : Type := ErrSyntax | ErrRange.

Definition is_digit (c : ascii) : bool :=
  let n := nat_of_ascii c in (48 <=? n)%nat && (n <=? 57)%nat.

Definition digit_val (c : ascii) : Z := Z.of_nat (nat_of_ascii c) - 48.

Definition digit_char (d : Z) : ascii := ascii_of_nat (48 + Z.to_nat d).

Fixpoint parse_digits (s : string) (acc : Z) : option Z :=
  match s with
  | EmptyString => Some acc
  | String c s' =>
      if is_digit c then parse_digits s' (10 * acc + digit_val c) else None
  end.

Definition min_int : Z := - 2 ^ 63.
Definition max_int : Z := 2 ^ 63 - 1.

Definition in_range (n : Z) : bool := (min_int <=? n)%Z && (n <=? max_int)%Z.

(** A string of decimal digits only. *)
Fixpoint all_digits (s : string) : bool :=
  match s with
  | EmptyString => true
  | String c s' => is_digit c && all_digits s'
  end.

(** [strconv.Atoi]: an optional sign, then one or more decimal digits; the
    value must fit a 64-bit [int]. *)
Definition Atoi (s : string) : Z * option NumError :=
  let '(neg, body) :=
    match s with
    | String c r =>
        if Ascii.eqb c "-"%char then (true, r)
        else if Ascii.eqb c "+"%char then (false, r)
        else (false, s)
    | EmptyString => (false, s)
    end in
  match body with
  | EmptyString => (0%Z, Some ErrSyntax)
  | _ =>
      match parse_digits body 0 with
      | None => (0%Z, Some ErrSyntax)
      | Some n =>
          let v := if neg then (- n)%Z else n in
          if in_range v then (v, None)
          else ((if neg then min_int else max_int), Some ErrRange)
      end
  end.

(** The decimal digits of [n >= 0], most significant first, in front of
    [acc]. *)
Fixpoint digits (fuel : nat) (n : Z) (acc : string) : string :=
  match fuel with
  | O => acc
  | S f =>
      let acc' := String (digit_char (n mod 10)) acc in
      if (n <? 10)%Z then acc' else digits f (n / 10) acc'
  end.

(** [strconv.Itoa] on a 64-bit [int] (at most 19 digits). *)
Definition Itoa (n : Z) : string :=
  if (n <? 0)%Z then String "-"%char (digits 20 (- n) "") else digits 20 n "".

End Strconv.
Export Strconv.

(** ** The directory tree *)

Module Fs.

Definition bytes : Type := list Byte.byte.

(** A file with its contents, or a directory with its entries in the
    order in which a listing returns them. *)
#[warnings="-register-all"] Inductive node : Type :=
| File (data : bytes)
| Dir (entries : list (string * node)).

Definition is_dir (n : node) : bool :=
  match n with Dir _ => true | File _ => false end.

Fixpoint assoc (c : string) (es : list (string * node)) : option node :=
  match es with
  | [] => None
  | (c', n) :: r => if String.eqb c' c then Some n else assoc c r
  end.

Definition names (es : list (string * node)) : list string := map fst es.

(** The entries [es] with [c] bound to [x]: in place when [c] is there, at
    the end when it is new. *)
Fixpoint set_entry (c : string) (x : node) (es : list (string * node))
  : list (string * node) :=
  match es with
  | [] => [(c, x)]
  | (c', n) :: r =>
      if String.eqb c' c then (c, x) :: r else (c', n) :: set_entry c x r
  end.

Definition del_entry (c : string) (es : list (string * node))
  : list (string * node) :=
  filter (fun e => negb (String.eqb (fst e) c)) es.

(** Path resolution from the root [t]. *)
Fixpoint walk (p : path) (t : node) : errno + node :=
  match p with
  | [] => inr t
  | c :: p' =>
      match t with
      | File _ => inl ENOTDIR
      | Dir es =>
          match assoc c es with
          | None => inl ENOENT
          | Some t' => walk p' t'
          end
      end
  end.

(** [put p x t]: the tree [t] with [x] at [p]; [t] itself when the parent
    of [p] is not a directory of [t]. *)
Fixpoint put (p : path) (x : node) (t : node) : node :=
  match p with
  | [] => x
  | c :: p' =>
      match t with
      | File _ => t
      | Dir es =>
          match p' with
          | [] => Dir (set_entry c x es)
          | _ :: _ =>
              match assoc c es with
              | Some t' => Dir (set_entry c (put p' x t') es)
              | None => t
              end
          end
      end
  end.

(** [del p t]: the tree [t] without the entry at [p]. *)
Fixpoint del (p : path) (t : node) : node :=
  match p with
  | [] => t
  | c :: p' =>
      match t with
      | File _ => t
      | Dir es =>
          match p' with
          | [] => Dir (del_entry c es)
          | _ :: _ =>
              match assoc c es with
              | Some t' => Dir (set_entry c (del p' t') es)
              | None => t
              end
          end
      end
  end.

(** [upd d f t]: the tree [t] with [f] applied to the entries of the
    directory [d]; [put] and [del] are [upd] at the parent of their path. *)
Fixpoint upd (d : path) (f : list (string * node) -> list (string * node))
         (t : node) {struct d} : node :=
  match t with
  | File _ => t
  | Dir es =>
      match d with
      | [] => Dir (f es)
      | c :: d' =>
          match assoc c es with
          | Some t' => Dir (set_entry c (upd d' f t') es)
          | None => t
          end
      end
  end.

(** The directory in which the last component of [p] is looked up. *)
Definition parent_dir (p : path) (t : node) : errno + list (string * node) :=
  match walk (removelast p) t with
  | inl e => inl e
  | inr (File _) => inl ENOTDIR
  | inr (Dir es) => inr es
  end.

(** mkdir(2). *)
Definition mkdir (p : path) (t : node) : errno + node :=
  match walk p t with
  | inr _ => inl EEXIST
  | inl _ =>
      match parent_dir p t with
      | inl e => inl e
      | inr _ => inr (put p (Dir []) t)
      end
  end.

(** open(2) with [O_RDWR|O_CREATE|O_EXCL]: a new, empty file. *)
Definition create_excl (p : path) (t : node) : errno + node :=
  match walk p t with
  | inr _ => inl EEXIST
  | inl _ =>
      match parent_dir p t with
      | inl e => inl e
      | inr _ => inr (put p (File []) t)
      end
  end.

(** rename(2): the source must exist, the parent of the destination must be
    a directory, a directory does not move below itself, and an existing
    destination is replaced only by a node of its own kind, a directory
    only when it is empty. *)
Definition rename (src dst : path) (t : node) : errno + node :=
  match walk src t with
  | inl e => inl e
  | inr x =>
      match src, dst with
      | [], _ | _, [] => inl EBUSY
      | _ :: _, _ :: _ =>
          match parent_dir dst t with
          | inl e => inl e
          | inr _ =>
              if path_eqb src dst then inr t
              else if is_dir x && prefix src dst then inl EINVAL
              else
                match walk dst t, x with
                | inl _, _ => inr (put dst x (del src t))
                | inr (File _), File _ => inr (put dst x (del src t))
                | inr (Dir _), File _ => inl EISDIR
                | inr (File _), Dir _ => inl ENOTDIR
                | inr (Dir []), Dir _ => inr (put dst x (del src t))
                | inr (Dir (_ :: _)), Dir _ => inl ENOTEMPTY
                end
          end
      end
  end.

(** [os.Remove]: unlink(2) of a file, rmdir(2) of an empty directory. *)
Definition remove (p : path) (t : node) : errno + node :=
  match p with
  | [] => inl EBUSY
  | _ :: _ =>
      match walk p t with
      | inl e => inl e
      | inr (File _) => inr (del p t)
      | inr (Dir []) => inr (del p t)
      | inr (Dir (_ :: _)) => inl ENOTEMPTY
      end
  end.

(** The names in the directory [p]. *)
Definition readdir (p : path) (t : node) : errno + list string :=
  match walk p t with
  | inl e => inl e
  | inr (File _) => inl ENOTDIR
  | inr (Dir es) => inr (names es)
  end.

(** The contents of the file [p]. *)
Definition readfile (p : path) (t : node) : errno + bytes :=
  match walk p t with
  | inl e => inl e
  | inr (Dir _) => inl EISDIR
  | inr (File d) => inr d
  end.

(** write(2) at the end of the file [p]. *)
Definition append (p : path) (data : bytes) (t : node) : node :=
  match walk p t with
  | inr (File d) => put p (File (d ++ data)) t
  | _ => t
  end.

(** Two results of [walk] of the same kind: the same error, the same file,
    or two directories. *)
Definition same_kind (a b : errno + node) : Prop :=
  match a, b with
  | inl e, inl e' => e = e'
  | inr (File x), inr (File y) => x = y
  | inr (Dir _), inr (Dir _) => True
  | _, _ => False
  end.

(** [t'] is [t] with new directories at some of [ps]: what resolved in [t]
    resolves in [t'] to a node of the same kind, and what resolves in [t']
    resolved in [t] or is a directory at one of [ps]. *)
Definition grown (ps : list path) (t t' : node) : Prop :=
  (forall q x, walk q t = inr x -> same_kind (walk q t) (walk q t')) /\
  (forall q x, walk q t' = inr x ->
     (exists y, walk q t = inr y) \/ (In q ps /\ is_dir x = true)).

(** Every entry has a name a directory can hold, no directory holds a name
    twice. *)
#[warnings="-register-all"] Inductive wf : node -> Prop :=
| wf_File : forall d, wf (File d)
| wf_Dir : forall es,
    NoDup (names es) ->
    Forall (fun e => plain (fst e) = true /\ wf (snd e)) es ->
    wf (Dir es).

End Fs.
Export Fs.

(** ** The substrate: the world a process of the package runs in *)

Module Os.

(** What another process does to the tree between two system calls of
    this one. *)
Inductive action : Type :=
| ARename (src dst : path)
| ARemove (p : path)
| AMkdir (p : path)
| AWriteFile (p : path) (data : bytes).

(** What happens at a system call: it runs normally, it fails with an
    errno and no effect, a write fails after [n] bytes, or another process
    acts first. *)
Inductive event : Type :=
| Quiet
| Fault (e : errno)
| ShortWrite (n : nat) (e : errno)
| Interfere (a : action).

(** The lines the package writes with [log.Println] and [log.Printf]. *)
Inductive logmsg : Type :=
| LogReadCurFailed (curdir : path)
| LogNotPID (s : string) (err : NumError)
| LogKillFailed (pid : Z) (err : errno)
| LogGoneAway (pid : Z)
| LogRmdirFailed (dir : path) (err : errno)
| LogReadSlotFailed (pid : Z) (dir : path)
| LogRescheduleFailed (s : string) (pid : Z) (err : errno)
| LogRescheduled (s : string) (pid : Z)
| LogSetRenameFailed (fn newfn : path).

Record World : Type := mkWorld {
  fs : node;                 (* the directory tree *)
  sched : list event;        (* one event per system call; then [Quiet] *)
  suffixes : list nat;       (* the numbers [nextRandom] will print *)
  rand : list nat;           (* the numbers [math/rand] will return *)
  kill0 : Z -> error;        (* the result of [kill(pid, 0)] *)
  pid : Z;                   (* [os.Getpid()] *)
  log : list logmsg          (* the log, oldest line first *)
}.

Definition set_fs (t : node) (w : World) : World :=
  mkWorld t (sched w) (suffixes w) (rand w) (kill0 w) (pid w) (log w).

(** [os.Rename], taken as one step: [Lstat] of the destination first; when
    that is a directory the call ends there, with the error of [Lstat] of
    the source if it has one and with [EEXIST] otherwise; rename(2) runs in
    every other case. *)
Definition os_rename (src dst : path) (t : node) : errno + node :=
  match walk dst t with
  | inr (Dir _) =>
      match walk src t with
      | inl e => inl e
      | inr _ => inl EEXIST
      end
  | _ => rename src dst t
  end.

(** The state monad of the process. *)
Definition M (A : Type) : Type := World -> A * World.

Definition ret {A} (a : A) : M A := fun w => (a, w).

Definition bind {A B} (m : M A) (k : A -> M B) : M B :=
  fun w => let (a, w') := m w in k a w'.

Definition interfere (a : action) (t : node) : node :=
  match a with
  | ARename src dst =>
      match rename src dst t with inr t' => t' | inl _ => t end
  | ARemove p => match remove p t with inr t' => t' | inl _ => t end
  | AMkdir p => match mkdir p t with inr t' => t' | inl _ => t end
  | AWriteFile p data =>
      match walk p t with
      | inr (Dir _) => t
      | _ => match parent_dir p t with
             | inr _ => put p (File data) t
             | inl _ => t
             end
      end
  end.

Definition next_event : M event := fun w =>
  match sched w with
  | [] => (Quiet, w)
  | ev :: r =>
      (ev, mkWorld (fs w) r (suffixes w) (rand w) (kill0 w) (pid w) (log w))
  end.

(** The tree the next system call of [w] finds. *)
Definition seen (w : World) : node :=
  match sched w with
  | Interfere act :: _ => interfere act (fs w)
  | _ => fs w
  end.

(** No other process acts during the events [evs]. *)
Definition calm (evs : list event) : bool :=
  forallb (fun ev => match ev with Interfere _ => false | _ => true end) evs.

(** Every system call during [evs] runs normally. *)
Definition quiet (evs : list event) : bool :=
  forallb (fun ev => match ev with Quiet => true | _ => false end) evs.

(** [w'] is a later state of the process of [w]: the same process among the
    same processes, and still undisturbed if [w] was. *)
Definition later (w w' : World) : Prop :=
  kill0 w' = kill0 w /\ pid w' = pid w /\
  (calm (sched w) = true -> calm (sched w') = true).

(** The event makes the system call fail whatever the tree holds. *)
Definition faulty (ev : event) : bool :=
  match ev with
  | Fault _ | ShortWrite _ _ => true
  | Quiet | Interfere _ => false
  end.

(** A system call: [run] on the tree, unless the event makes it [fail]. *)
Definition syscall {A} (fail : errno -> A) (run : node -> A * node) : M A :=
  fun w =>
    let (ev, w1) := next_event w in
    match ev with
    | Quiet => let (a, t) := run (fs w1) in (a, set_fs t w1)
    | Fault e | ShortWrite _ e => (fail e, w1)
    | Interfere act =>
        let (a, t) := run (interfere act (fs w1)) in (a, set_fs t w1)
    end.

Definition update (op : node -> errno + node) : M error :=
  syscall (fun e => Some e)
          (fun t => match op t with
                    | inl e => (Some e, t)
                    | inr t' => (None, t')
                    end).

Definition os_Mkdir (p : path) : M error := update (mkdir p).
Definition os_Rename (src dst : path) : M error := update (os_rename src dst).
Definition os_Remove (p : path) : M error := update (remove p).

(** [os.Open(dir)] followed by [Readdirnames(-1)]; a failed listing
    returns no names. *)
Definition os_Readdirnames (p : path) : M (list string * error) :=
  syscall (fun e => ([], Some e))
          (fun t => match readdir p t with
                    | inl e => (([], Some e), t)
                    | inr l => ((l, None), t)
                    end).

Definition ioutil_ReadFile (p : path) : M (bytes * error) :=
  syscall (fun e => ([], Some e))
          (fun t => match readfile p t with
                    | inl e => (([], Some e), t)
                    | inr d => ((d, None), t)
                    end).

Definition syscall_Kill0 (n : Z) : M error := fun w => (kill0 w n, w).

Definition os_Getpid : M Z := fun w => (pid w, w).

Definition log_Println (m : logmsg) : M unit := fun w =>
  (tt, mkWorld (fs w) (sched w) (suffixes w) (rand w) (kill0 w) (pid w)
               (log w ++ [m])).

(** [rand.Intn(n)] for [n > 0]. *)
Definition rand_Intn (n : nat) : M nat := fun w =>
  match rand w with
  | [] => (0%nat, w)
  | r :: rs =>
      ((r mod n)%nat,
       mkWorld (fs w) (sched w) (suffixes w) rs (kill0 w) (pid w) (log w))
  end.

(** [os.Stat]. *)
Definition os_Stat (p : path) : M error :=
  syscall (fun e => Some e)
          (fun t => (match walk p t with inl e => Some e | inr _ => None end, t)).

(** [nextRandom]: a number in decimal digits. *)
Definition nextRandom : M string := fun w =>
  match suffixes w with
  | [] => ("0", w)
  | n :: r =>
      (Itoa (Z.of_nat n),
       mkWorld (fs w) (sched w) r (rand w) (kill0 w) (pid w) (log w))
  end.

(** [s] around its last [*], if it has one. *)
Fixpoint cut_last_star (s : string) : option (string * string) :=
  match s with
  | EmptyString => None
  | String c s' =>
      match cut_last_star s' with
      | Some (a, b) => Some (String c a, b)
      | None => if Ascii.eqb c "*"%char then Some (EmptyString, s') else None
      end
  end.

(** [prefixAndSuffix]: a pattern with a path separator is refused; the
    random string takes the place of the last [*] of the pattern, and comes
    at its end when it has none. *)
Definition prefixAndSuffix (pattern : string) : option (string * string) :=
  if no_slash pattern then
    match cut_last_star pattern with
    | Some ps => Some ps
    | None => Some (pattern, EmptyString)
    end
  else None.

(** The loop of [ioutil.TempDir] and [ioutil.TempFile]: a fresh name in
    [dir] is tried for as long as the name exists, at most [tries] times. *)
Fixpoint temp_loop (tries : nat) (create : path -> M error)
         (dir : path) (prefix suffix : string) : M (path * error) :=
  match tries with
  | O => ret ([], Some EEXIST)
  | S n =>
      bind nextRandom (fun r =>
      let name := dir ++ [(prefix ++ r ++ suffix)%string] in
      bind (create name) (fun err =>
      if os_IsExist err then temp_loop n create dir prefix suffix
      else match err with
           | None => ret (name, None)
           | Some _ => ret ([], err)
           end))
  end.

Definition max_tries : nat := 100 * 100.

(** [name] is a name that [temp_loop] can try in [dir] for [pattern]: the
    pattern with a random number in the place of its last [*], or at its
    end. *)
Definition temp_name (dir : path) (pattern : string) (name : path) : Prop :=
  exists prefix suffix r,
    prefixAndSuffix pattern = Some (prefix, suffix) /\
    all_digits r = true /\ r <> EmptyString /\
    name = dir ++ [(prefix ++ r ++ suffix)%string].

(** One attempt of [ioutil.TempDir]: mkdir(2), and [os.Stat] of [dir] when
    that fails with an error that [os.IsNotExist]. *)
Definition TempDir_try (dir : path) (name : path) : M error :=
  bind (os_Mkdir name) (fun err =>
  match err with
  | Some e =>
      if os_IsNotExist e then
        bind (os_Stat dir) (fun serr =>
        match serr with
        | Some se => if os_IsNotExist se then ret (Some se) else ret (Some e)
        | None => ret (Some e)
        end)
      else ret (Some e)
  | None => ret None
  end).

Definition ioutil_TempDir (dir : path) (pattern : string) : M (path * error) :=
  match prefixAndSuffix pattern with
  | None => ret ([], Some ErrPattern)
  | Some (prefix, suffix) =>
      temp_loop max_tries (TempDir_try dir) dir prefix suffix
  end.

(** An open file, known by the name it was opened with. *)
Record file : Type := mkFile { file_Name : path }.

Definition ioutil_TempFile (dir : path) (pattern : string) : M (file * error) :=
  match prefixAndSuffix pattern with
  | None => ret (mkFile [], Some ErrPattern)
  | Some (prefix, suffix) =>
      bind (temp_loop max_tries (fun p => update (create_excl p))
                      dir prefix suffix)
           (fun r => ret (mkFile (fst r), snd r))
  end.

(** [f.Write(data)]: all of [data], or a prefix of it and an error. *)
Definition file_Write (f : file) (data : bytes) : M error := fun w =>
  let (ev, w1) := next_event w in
  match ev with
  | Quiet => (None, set_fs (append (file_Name f) data (fs w1)) w1)
  | Fault e => (Some e, w1)
  | ShortWrite n e =>
      (Some e, set_fs (append (file_Name f) (firstn n data) (fs w1)) w1)
  | Interfere act =>
      (None, set_fs (append (file_Name f) data (interfere act (fs w1))) w1)
  end.

Definition file_Close (f : file) : M error :=
  syscall (fun e => Some e) (fun t => (None, t)).

End Os.
Export Os.

Declare Scope monad_scope.
Delimit Scope monad_scope with monad.
Notation "x <- c ;; k" := (bind c (fun x => k))
  (at level 61, c at next level, right associativity) : monad_scope.
Notation "' pat <- c ;; k" := (bind c (fun x => match x with pat => k end))
  (at level 61, pat pattern, c at next level, right associativity) : monad_scope.
Notation "c ;;; k" := (bind c (fun _ => k))
  (at level 61, right associativity) : monad_scope.
Local Open Scope monad_scope.

(** ** Package [pqueue] *)

Module Pqueue.

Record Queue : Type := mkQueue {
  basedir : path;
  mycurdir : string
}.

Record Job : Type := mkJob {
  Basename : string;
  dir : path;
  q : Queue
}.

(** [var mycur = path.Join("cur", strconv.Itoa(os.Getpid()))] *)
Definition mycur (mypid : Z) : string := "cur/" ++ Itoa mypid.

Definition ensuredir (base : path) (parts : list string) : M error :=
  err <- os_Mkdir (Join base parts) ;;
  if os_IsExist err then ret None else ret err.

(** The [for ... range] loop of [OpenQueue]. *)
Fixpoint OpenQueue_range (qu : Queue) (ds : list string) : M error :=
  match ds with
  | [] => ret None
  | d :: ds' =>
      err <- ensuredir (basedir qu) [d] ;;
      match err with
      | Some e => ret (Some e)
      | None => OpenQueue_range qu ds'
      end
  end.

Definition OpenQueue (d : path) : M (option Queue * error) :=
  mypid <- os_Getpid ;;
  let qu := mkQueue d "" in
  err <- OpenQueue_range qu ["tmp"; "new"; "cur"; "done"; "failed"; mycur mypid] ;;
  match err with
  | Some e => ret (None, Some e)
  | None => ret (Some qu, None)
  end.

Definition Queue_CreateJob (qu : Queue) (prefix : string)
  : M (option Job * error) :=
  '(tmp, err) <- ioutil_TempDir (Join (basedir qu) ["tmp"]) prefix ;;
  match err with
  | Some e => ret (None, Some e)
  | None => ret (Some (mkJob (Base tmp) tmp qu), None)
  end.

(** A method with a pointer receiver returns the receiver as the call
    leaves it. *)
Definition Job_Submit (job : Job) : M (Job * error) :=
  let d := Join (basedir (q job)) ["new"; Basename job] in
  err <- os_Rename (dir job) d ;;
  match err with
  | Some e => ret (job, Some e)
  | None => ret (mkJob (Basename job) d (q job), None)
  end.

(** One turn of the [for] loop of [Take]: [None] is [continue], [Some r] is
    [return r]. *)
Definition Queue_Take_iter (qu : Queue) : M (option (option Job * error)) :=
  '(names, err) <- os_Readdirnames (Join (basedir qu) ["new"]) ;;
  match err with
  | Some e => ret (Some (None, Some e))
  | None =>
      if (List.length names =? 0)%nat then ret (Some (None, None))
      else
        i <- rand_Intn (List.length names) ;;
        let basename := nth i names "" in
        mypid <- os_Getpid ;;
        let d := Join (basedir qu) [mycur mypid; basename] in
        err <- os_Rename (Join (basedir qu) ["new"; basename]) d ;;
        match err with
        | Some e =>
            if os_IsNotExist e then ret None
            else ret (Some (None, Some e))
        | None => ret (Some (Some (mkJob basename d qu), None))
        end
  end.

(** [Take], cut off after [fuel] turns of its loop: [None] when the loop has
    not returned by then. *)
Fixpoint Queue_Take (fuel : nat) (qu : Queue) : M (option (option Job * error)) :=
  match fuel with
  | O => ret None
  | S fuel' =>
      r <- Queue_Take_iter qu ;;
      match r with
      | Some res => ret (Some res)
      | None => Queue_Take fuel' qu
      end
  end.

Definition Job_Finish (job : Job) : M (Job * error) :=
  let d := Join (basedir (q job)) ["done"; Basename job] in
  err <- os_Rename (dir job) d ;;
  match err with
  | Some e => ret (job, Some e)
  | None => ret (mkJob (Basename job) d (q job), None)
  end.

Definition Job_Fail (job : Job) : M (Job * error) :=
  let d := Join (basedir (q job)) ["failed"; Basename job] in
  err <- os_Rename (dir job) d ;;
  match err with
  | Some e => ret (job, Some e)
  | None => ret (mkJob (Basename job) d (q job), None)
  end.

Definition Queue_getNewDir (qu : Queue) : path := Join (basedir qu) ["new"].

Definition Queue_getCurDir (qu : Queue) : path := Join (basedir qu) ["cur"].

Definition Queue_getWorkerDir (qu : Queue) (p : Z) : path :=
  Join (basedir qu) ["cur"; Itoa p].

Definition readdirnames (d : path) : M (list string * error) :=
  os_Readdirnames d.

Definition processExists (p : Z) : M (bool * error) :=
  err <- syscall_Kill0 p ;;
  match err with
  | Some e =>
      if errno_eqb e ESRCH then ret (false, None)
      else log_Println (LogKillFailed p e) ;;; ret (false, Some e)
  | None => ret (true, None)
  end.

(** The [for ... range names] loop of [rescueDeadJobsFrom]. *)
Fixpoint rescueDeadJobsFrom_range (qu : Queue) (p : Z) (d : path)
         (names : list string) : M unit :=
  match names with
  | [] => ret tt
  | s :: names' =>
      err <- os_Rename (Join d [s]) (Join (Queue_getNewDir qu) [s]) ;;
      match err with
      | Some e => log_Println (LogRescheduleFailed s p e)
      | None => log_Println (LogRescheduled s p)
      end ;;;
      rescueDeadJobsFrom_range qu p d names'
  end.

Definition Queue_rescueDeadJobsFrom (qu : Queue) (p : Z) : M unit :=
  let d := Queue_getWorkerDir qu p in
  '(names, err) <- readdirnames d ;;
  match err with
  | Some _ => log_Println (LogReadSlotFailed p d)
  | None => ret tt
  end ;;;
  rescueDeadJobsFrom_range qu p d names.

(** The body of the [for ... range names] loop of [RescueDeadJobs]. *)
Definition RescueDeadJobs_body (qu : Queue) (s : string) : M unit :=
  let '(p, err) := Atoi s in
  match err with
  | Some e => log_Println (LogNotPID s e)
  | None =>
      '(exists_, err) <- processExists p ;;
      match err with
      | Some e => log_Println (LogKillFailed p e)
      | None =>
          if negb exists_ then
            log_Println (LogGoneAway p) ;;;
            Queue_rescueDeadJobsFrom qu p ;;;
            err <- os_Remove (Queue_getWorkerDir qu p) ;;
            match err with
            | Some e => log_Println (LogRmdirFailed (Queue_getWorkerDir qu p) e)
            | None => ret tt
            end
          else ret tt
      end
  end.

Fixpoint RescueDeadJobs_range (qu : Queue) (names : list string) : M unit :=
  match names with
  | [] => ret tt
  | s :: names' =>
      RescueDeadJobs_body qu s ;;; RescueDeadJobs_range qu names'
  end.

Definition Queue_RescueDeadJobs (qu : Queue) : M error :=
  let curdir := Queue_getCurDir qu in
  '(names, err) <- readdirnames curdir ;;
  match err with
  | Some e => log_Println (LogReadCurFailed curdir) ;;; ret (Some e)
  | None => RescueDeadJobs_range qu names ;;; ret None
  end.

Definition Job_Get (j : Job) (name : string) : M (bytes * error) :=
  ioutil_ReadFile (Join (dir j) [name]).

Definition Job_Set (j : Job) (name : string) (data : bytes) : M error :=
  let qu := q j in
  '(f, err) <- ioutil_TempFile (Join (basedir qu) ["tmp"]) name ;;
  match err with
  | Some e => ret (Some e)
  | None =>
      err <- file_Write f data ;;
      match err with
      | Some e => ret (Some e)
      | None =>
          let fn := file_Name f in
          err <- file_Close f ;;
          match err with
          | Some e => ret (Some e)
          | None =>
              let newfn := Join (dir j) [name] in
              err <- os_Rename fn newfn ;;
              match err with
              | Some e => log_Println (LogSetRenameFailed fn newfn) ;;; ret (Some e)
              | None => ret None
              end
          end
      end
  end.

End Pqueue.
Export Pqueue.

(** ** The three transitions of a job *)

(** [Submit], [Finish] and [Fail] differ in the subdirectory they move the
    job to. *)
Inductive transition : Type := TSubmit | TFinish | TFail.

Definition transition_dir (tr : transition) : string :=
  match tr with
  | TSubmit => "new"
  | TFinish => "done"
  | TFail => "failed"
  end.

Definition transition_run (tr : transition) : Job -> M (Job * error) :=
  match tr with
  | TSubmit => Job_Submit
  | TFinish => Job_Finish
  | TFail => Job_Fail
  end.

(** ** The directories of a queue *)

(** The five fixed subdirectories of the queue at [d] and the owner slot of
    the process [p]. *)
Definition queue_dirs (d : path) (p : Z) : list path :=
  map (fun n => d ++ [n]) ["tmp"; "new"; "cur"; "done"; "failed"]
  ++ [(d ++ ["cur"]) ++ [Itoa p]].

(** ** The state of a slot during a sweep *)

Section Slot.

(** The outcome of [kill(pid, 0)], the queue at [b], the slot [s] in its
    [cur], and the jobs [jobs] the slot holds when the sweep starts. *)
Variables (k : Z -> error) (b : path) (s : string)
          (jobs : list (string * node)).

(** No slot of another dead process holds a job under a name of [jobs]. *)
Definition others_disjoint (t : node) : Prop :=
  forall p' js x,
    in_range p' = true -> k p' = Some ESRCH -> Itoa p' <> s ->
    walk (b ++ ["cur"; Itoa p']) t = inr (Dir js) ->
    In x (names js) -> ~ In x (names jobs).

(** The slot holds [jobs], and [new] is a directory that holds none of
    their names. *)
Definition slot_intact (t : node) : Prop :=
  wf t /\ others_disjoint t /\
  walk (b ++ ["cur"; s]) t = inr (Dir jobs) /\
  exists nes, walk (b ++ ["new"]) t = inr (Dir nes) /\
              forall x, In x (names jobs) -> ~ In x (names nes).

(** The slot is gone and every job of [jobs] is in [new] under its name. *)
Definition slot_rescued (t : node) : Prop :=
  wf t /\ others_disjoint t /\
  walk (b ++ ["cur"; s]) t = inl ENOENT /\
  forall x n, assoc x jobs = Some n -> walk (b ++ ["new"; x]) t = inr n.

(** What a step of the sweep on another slot does to [t]: the other slots
    lose entries at most, the slot [s] and the jobs of [jobs] in [new] stay,
    and [new] gains no name of [jobs]. *)
Definition other_step (t t' : node) : Prop :=
  wf t' /\
  (forall s' js', s' <> s -> walk (b ++ ["cur"; s']) t' = inr (Dir js') ->
     exists js, walk (b ++ ["cur"; s']) t = inr (Dir js) /\
                incl (names js') (names js)) /\
  walk (b ++ ["cur"; s]) t' = walk (b ++ ["cur"; s]) t /\
  (forall x, In x (names jobs) ->
             walk (b ++ ["new"; x]) t' = walk (b ++ ["new"; x]) t) /\
  (forall nes, walk (b ++ ["new"]) t = inr (Dir nes) ->
     exists nes', walk (b ++ ["new"]) t' = inr (Dir nes') /\
                  forall x, In x (names jobs) -> In x (names nes') ->
                            In x (names nes)).

End Slot.

(** ** The name [Take] draws *)

(** [names[rand.Intn(len(names))]] in the world [w]. *)
Definition Take_choice (names : list string) (w : World) : string :=
  nth (fst (rand_Intn (List.length names) w)) names "".

(** ** Example queues *)

Module Examples.

(** The process 42 alone is alive. *)
Definition only_42 : Z -> error :=
  fun n => if Z.eqb n 42 then None else Some ESRCH.

(** The queue [/q] with the given contents of [new] and [cur]. *)
Definition queue_tree (new cur : list (string * node)) : node :=
  Dir [("q", Dir [("tmp", Dir []); ("new", Dir new); ("cur", Dir cur);
                  ("done", Dir []); ("failed", Dir [])])].

(** Process 42 on the tree [t], with the events [evs] ahead. *)
Definition world (t : node) (evs : list event) : World :=
  mkWorld t evs [1; 2; 3]%nat [] only_42 42 [].

Definition qx : Queue := mkQueue ["q"] "".

(** A freshly opened queue. *)
Definition fresh : node := queue_tree [] [("42", Dir [])].

(** One job in [new], and no owner slot for process 42. *)
Definition no_slot : node := queue_tree [("a", Dir [])] [].

(** One job in [new], which another worker takes just before the rename. *)
Definition raced : World :=
  world (queue_tree [("a", Dir [])] [("42", Dir []); ("7", Dir [])])
        [Quiet; Interfere (ARename ["q"; "new"; "a"] ["q"; "cur"; "7"; "a"])].

(** A job of process 42 whose directory is gone. *)
Definition lost_job : Job := mkJob "a" ["q"; "cur"; "42"; "a"] qx.

(** [raced] after the listing of [new], and after the rename that lost. *)
Definition raced_listed : World := snd (os_Readdirnames ["q"; "new"] raced).

Definition raced_lost : World :=
  snd (os_Rename ["q"; "new"; "a"] ["q"; "cur"; "42"; "a"] raced_listed).

(** Process 42 on a queue that lost its owner slot, nothing else going on. *)
Definition stuck : World := world no_slot [].

(** A job with one property. *)
Definition build1 : node := Dir [("input", File [Byte.x41; Byte.x42])].

(** The job [build1] in [tmp], as [CreateJob] and [Set] leave it. *)
Definition staged : node :=
  Dir [("q", Dir [("tmp", Dir [("build1", build1)]); ("new", Dir []);
                  ("cur", Dir [("42", Dir [])]); ("done", Dir []);
                  ("failed", Dir [])])].

Definition staged_job : Job := mkJob "build1" ["q"; "tmp"; "build1"] qx.

(** The job [build1] in the owner slot of process 42. *)
Definition held : node := queue_tree [] [("42", Dir [("build1", build1)])].

Definition held_job : Job := mkJob "build1" ["q"; "cur"; "42"; "build1"] qx.

(** The job [build1] in the owner slot of process 42, and another job of
    that name in [new], submitted while the first was held. *)
Definition doubled : node :=
  queue_tree [("build1", Dir [])] [("42", Dir [("build1", build1)])].

(** [Set] of the property [input] of the staged job, run to its end, and
    run with a write that fails after one byte. *)
Definition after_set : World :=
  snd (Job_Set staged_job "input" [Byte.x43] (world staged [])).

Definition short_write : World := world staged [Quiet; ShortWrite 1 EIO].

Definition after_short_write : World :=
  snd (Job_Set staged_job "input" [Byte.x43; Byte.x44] short_write).

(** A root directory in which a regular file has the name [new]. *)
Definition squatted : node := Dir [("q", Dir [("new", File [])])].

Definition opened_squatted : World := snd (OpenQueue ["q"] (world squatted [])).

(** A root directory that holds nothing yet. *)
Definition bare : node := Dir [("q", Dir [])].

(** Process 42 is alive, process 9 is dead, and [kill(7, 0)] is refused. *)
Definition guarded : Z -> error :=
  fun n => if Z.eqb n 42 then None
           else if Z.eqb n 7 then Some EPERM else Some ESRCH.

(** A queue with a job in each of the slots of the processes 7 and 9. *)
Definition two_slots : node :=
  queue_tree [] [("7", Dir [("j1", build1)]); ("9", Dir [("j2", Dir [])])].

Definition sweeping : World :=
  mkWorld two_slots [] [1; 2; 3]%nat [] guarded 42 [].

Definition swept : World := snd (Queue_RescueDeadJobs qx sweeping).

(** Process 42, alive, holds a job [j2]; so does process 9, dead; process 7,
    of which [kill] says nothing, holds [j1]. *)
Definition three_slots : node :=
  queue_tree [] [("42", Dir [("j2", build1)]); ("7", Dir [("j1", build1)]);
                 ("9", Dir [("j2", Dir [])])].

Definition sweeping_three : World :=
  mkWorld three_slots [] [1; 2; 3]%nat [] guarded 42 [].

Definition swept_three : World := snd (Queue_RescueDeadJobs qx sweeping_three).

(** The processes 8 and 9 are dead, and each holds a job [j]. *)
Definition namesakes : World :=
  world (queue_tree [] [("8", Dir [("j", build1)]); ("9", Dir [("j", Dir [])])])
        [].

(** [sweeping] with a rename that fails: the events are those of the
    listing of [cur], of the listing of the slot of process 9, and of the
    rename of its job. *)
Definition sweeping_fault : World :=
  mkWorld two_slots [Quiet; Quiet; Fault EIO] [1; 2; 3]%nat [] guarded 42 [].

(** The slot [007]: its name parses as 7, a dead process, and is not what
    [strconv.Itoa] prints for 7. *)
Definition padded : World :=
  world (queue_tree [] [("007", Dir [("j1", build1)])]) [].

Definition padded_swept : World := snd (Queue_RescueDeadJobs qx padded).

(** [CreateJob] with the prefix [foo] on a freshly opened queue. *)
Definition created : World := snd (Queue_CreateJob qx "foo" (world fresh [])).

(** Process 42 and a queue with two submitted jobs. *)
Definition submitted : World :=
  mkWorld (queue_tree [("a", Dir []); ("build1", build1)] [("42", Dir [])])
          [] [1%nat] [3%nat] only_42 42 [].

Definition taken : World := snd (Queue_Take 1 qx submitted).

(** [submitted] without the owner slot of process 42. *)
Definition orphaned : World :=
  mkWorld (queue_tree [("a", Dir []); ("build1", build1)] [])
          [] [1%nat] [3%nat] only_42 42 [].

(** A root directory without [new]. *)
Definition unopened : World := world bare [].

(** The staged job [build1], and a job of the same name already in [new],
    with something in it. *)
Definition clash : node :=
  Dir [("q", Dir [("tmp", Dir [("build1", build1)]);
                  ("new", Dir [("build1", Dir [("old", File [])])]);
                  ("cur", Dir [("42", Dir [])]); ("done", Dir []);
                  ("failed", Dir [])])].

(** The staged job [build1], and an empty directory of the same name in
    [new]. *)
Definition hollow : node :=
  Dir [("q", Dir [("tmp", Dir [("build1", build1)]);
                  ("new", Dir [("build1", Dir [])]);
                  ("cur", Dir [("42", Dir [])]); ("done", Dir []);
                  ("failed", Dir [])])].

(** Process 9 is dead and holds [build1]; a job [build1] that is not empty
    is in [new] already, another is in [done], and [cur] has a stray entry
    [lock]. *)
Definition crowded : World :=
  mkWorld
    (Dir [("q", Dir [("tmp", Dir []);
                     ("new", Dir [("build1", Dir [("old", File [])])]);
                     ("cur", Dir [("9", Dir [("build1", build1)]);
                                  ("lock", Dir [("j3", Dir [])])]);
                     ("done", Dir [("j0", build1)]);
                     ("failed", Dir [])])])
    [] [1%nat] [] guarded 42 [].

Definition crowded_swept : World := snd (Queue_RescueDeadJobs qx crowded).

Definition finished : World :=
  snd (Job_Finish (mkJob "build1" ["q"; "cur"; "42"; "build1"] qx) taken).

(** A queue whose [cur] is a regular file. *)
Definition broken : World :=
  world (Dir [("q", Dir [("new", Dir []); ("cur", File [])])]) [].

(** A root directory in which [cur] is a regular file, and a job is
    finished already. *)
Definition blocked : World :=
  world (Dir [("q", Dir [("cur", File []); ("done", Dir [("j0", build1)])])]) [].

End Examples.

(** * Properties of the substrate *)

(** ** Names and paths *)

Lemma errno_eqb_eq (a b : errno) : errno_eqb a b = true <-> a = b.
Proof. destruct a, b; simpl; split; intro H; try reflexivity; discriminate. Qed.

Lemma path_eqb_eq (p r : path) : path_eqb p r = true <-> p = r.
Proof.
  revert r; induction p as [|a p IH]; intros [|b r]; simpl; split; intro H;
    try reflexivity; try discriminate.
  - apply andb_true_iff in H as [Hab Hpr].
    apply String.eqb_eq in Hab. apply IH in Hpr. now subst.
  - injection H as -> ->. rewrite String.eqb_refl. simpl. now apply IH.
Qed.

Lemma prefix_app (p r : path) : prefix p (p ++ r) = true.
Proof. induction p as [|a p IH]; simpl; [reflexivity|]. now rewrite String.eqb_refl. Qed.

Lemma prefix_inv (p r : path) : prefix p r = true -> exists s, r = p ++ s.
Proof.
  revert r; induction p as [|a p IH]; intros r H; simpl in *.
  - now exists r.
  - destruct r as [|b r]; [discriminate|].
    apply andb_true_iff in H as [Hab Hpr]. apply String.eqb_eq in Hab. subst b.
    destruct (IH _ Hpr) as [s ->]. now exists s.
Qed.

Lemma split_slash_no_slash (s : string) :
  no_slash s = true -> split_slash s = [s].
Proof.
  induction s as [|c s IH]; simpl; intro H; [reflexivity|].
  apply andb_true_iff in H as [Hc Hs].
  apply negb_true_iff in Hc. rewrite Hc, (IH Hs). reflexivity.
Qed.

Lemma plain_no_slash (s : string) : plain s = true -> no_slash s = true.
Proof.
  unfold plain. intro H.
  repeat (apply andb_true_iff in H as [H _]). exact H.
Qed.

Lemma step_plain (p : path) (c : string) : plain c = true -> step p c = p ++ [c].
Proof.
  unfold plain, step. intro H.
  apply andb_true_iff in H as [H H3]. apply andb_true_iff in H as [H H2].
  apply andb_true_iff in H as [_ H1].
  apply negb_true_iff in H1, H2, H3. now rewrite H1, H2, H3.
Qed.

Lemma Join_app (b : path) (l1 l2 : list string) :
  Join b (l1 ++ l2) = Join (Join b l1) l2.
Proof. unfold Join. now rewrite map_app, concat_app, fold_left_app. Qed.

Lemma Join_nil (b : path) : Join b [] = b.
Proof. reflexivity. Qed.

Lemma Join_plain (b : path) (s : string) : plain s = true -> Join b [s] = b ++ [s].
Proof.
  intro H. unfold Join. simpl.
  rewrite (split_slash_no_slash _ (plain_no_slash _ H)). simpl.
  now apply step_plain.
Qed.

Lemma Join_cons_plain (b : path) (s : string) (l : list string) :
  plain s = true -> Join b (s :: l) = Join (b ++ [s]) l.
Proof.
  intro H. change (s :: l) with ([s] ++ l). now rewrite Join_app, Join_plain.
Qed.

(** ** Decimal numerals *)

Lemma digit_char_is_digit (d : Z) : (0 <= d < 10)%Z -> is_digit (digit_char d) = true.
Proof.
  intro H. unfold digit_char.
  assert (Hn : (Z.to_nat d < 10)%nat) by lia.
  remember (Z.to_nat d) as k eqn:Hk. clear Hk H.
  do 10 (destruct k as [|k]; [reflexivity|]). lia.
Qed.

Lemma digit_val_char (d : Z) : (0 <= d < 10)%Z -> digit_val (digit_char d) = d.
Proof.
  intro H. unfold digit_val, digit_char.
  rewrite nat_ascii_embedding by lia. lia.
Qed.

Lemma digits_all (fuel : nat) : forall n acc,
  (0 <= n)%Z -> all_digits acc = true -> all_digits (digits fuel n acc) = true.
Proof.
  induction fuel as [|f IH]; intros n acc Hn Hacc; cbn [digits]; [exact Hacc|].
  assert (Hd : is_digit (digit_char (n mod 10)) = true)
    by (apply digit_char_is_digit, Z.mod_pos_bound; lia).
  destruct (n <? 10)%Z.
  - cbn [all_digits]. now rewrite Hd.
  - apply IH; [apply Z.div_pos; lia|]. cbn [all_digits]. now rewrite Hd.
Qed.

Lemma digits_nonempty (fuel : nat) : forall n acc,
  digits (S fuel) n acc <> "".
Proof.
  induction fuel as [|f IH]; intros n acc.
  - cbn [digits]. destruct (n <? 10)%Z; discriminate.
  - change (digits (S (S f)) n acc)
      with (let acc' := String (digit_char (n mod 10)) acc in
            if (n <? 10)%Z then acc' else digits (S f) (n / 10) acc').
    cbv zeta. destruct (n <? 10)%Z; [discriminate|]. apply IH.
Qed.

Lemma is_digit_not_special (c : ascii) :
  is_digit c = true ->
  Ascii.eqb c slash = false /\ Ascii.eqb c "."%char = false.
Proof.
  intro H. split; apply Ascii.eqb_neq; intros ->; discriminate.
Qed.

Lemma all_digits_no_slash (s : string) : all_digits s = true -> no_slash s = true.
Proof.
  induction s as [|c s IH]; simpl; intro H; [reflexivity|].
  apply andb_true_iff in H as [Hc Hs].
  destruct (is_digit_not_special _ Hc) as [-> _]. simpl. now apply IH.
Qed.

Lemma all_digits_plain (s : string) : all_digits s = true -> s <> "" -> plain s = true.
Proof.
  intros H Hne. unfold plain. rewrite (all_digits_no_slash _ H). simpl.
  destruct s as [|c s]; [congruence|]. simpl in H.
  apply andb_true_iff in H as [Hc _].
  destruct (is_digit_not_special _ Hc) as [_ Hdot].
  simpl. rewrite Hdot. reflexivity.
Qed.

Lemma minus_digits_plain (s : string) :
  all_digits s = true -> s <> "" -> plain (String "-"%char s) = true.
Proof.
  intros H Hne. unfold plain. simpl. rewrite (all_digits_no_slash _ H). reflexivity.
Qed.

Lemma Itoa_plain (n : Z) : plain (Itoa n) = true.
Proof.
  unfold Itoa. destruct (n <? 0)%Z eqn:Hn.
  - apply minus_digits_plain; [apply digits_all; [lia|reflexivity]|apply digits_nonempty].
  - apply all_digits_plain; [apply digits_all; [lia|reflexivity]|apply digits_nonempty].
Qed.

Lemma parse_digits_digits (fuel : nat) : forall n acc,
  (0 <= n < 10 ^ Z.of_nat fuel)%Z ->
  parse_digits (digits fuel n acc) 0 = parse_digits acc n.
Proof.
  induction fuel as [|f IH]; intros n acc Hn.
  - simpl in *. assert (n = 0%Z) by lia. now subst.
  - cbn [digits].
    assert (Hm : (0 <= n mod 10 < 10)%Z) by (apply Z.mod_pos_bound; lia).
    assert (Hstep : parse_digits (String (digit_char (n mod 10)) acc) (n / 10)
                    = parse_digits acc n).
    { cbn [parse_digits]. rewrite digit_char_is_digit, digit_val_char by exact Hm.
      f_equal. pose proof (Z.div_mod n 10 ltac:(lia)). lia. }
    destruct (n <? 10)%Z eqn:Hlt.
    + apply Z.ltb_lt in Hlt. rewrite <- Hstep.
      rewrite (Z.div_small n 10) by lia. reflexivity.
    + apply Z.ltb_ge in Hlt. rewrite IH; [exact Hstep|].
      split; [apply Z.div_pos; lia|].
      apply Z.div_lt_upper_bound; [lia|].
      rewrite Nat2Z.inj_succ, Z.pow_succ_r in Hn by lia. lia.
Qed.

Lemma digits_head_digit (fuel : nat) : forall n acc,
  (0 <= n)%Z -> exists c s, digits (S fuel) n acc = String c s /\ is_digit c = true.
Proof.
  induction fuel as [|f IH]; intros n acc Hn.
  - cbn [digits]. exists (digit_char (n mod 10)), acc.
    split; [now destruct (n <? 10)%Z|].
    apply digit_char_is_digit, Z.mod_pos_bound; lia.
  - change (digits (S (S f)) n acc)
      with (let acc' := String (digit_char (n mod 10)) acc in
            if (n <? 10)%Z then acc' else digits (S f) (n / 10) acc').
    cbv zeta. destruct (n <? 10)%Z.
    + exists (digit_char (n mod 10)), acc. split; [reflexivity|].
      apply digit_char_is_digit, Z.mod_pos_bound; lia.
    + apply (IH (n / 10)%Z). apply Z.div_pos; lia.
Qed.

(** [Atoi] reads back what [Itoa] writes. *)
Lemma Atoi_Itoa (n : Z) : in_range n = true -> Atoi (Itoa n) = (n, None).
Proof.
  intro Hr. assert (Hr' := Hr). unfold in_range, min_int, max_int in Hr'.
  apply andb_true_iff in Hr' as [Hlo Hhi].
  apply Z.leb_le in Hlo, Hhi.
  unfold Itoa. destruct (n <? 0)%Z eqn:Hn.
  - apply Z.ltb_lt in Hn. unfold Atoi. simpl Ascii.eqb. cbv iota beta.
    destruct (digits_head_digit 19 (- n) "" ltac:(lia)) as (c & s & Hd & Hc).
    pose proof (parse_digits_digits 20 (- n) "" ltac:(lia)) as Hp.
    rewrite Hd in *. rewrite Hp. simpl parse_digits. cbv iota beta.
    rewrite Z.opp_involutive, Hr. reflexivity.
  - apply Z.ltb_ge in Hn. unfold Atoi.
    destruct (digits_head_digit 19 n "" Hn) as (c & s & Hd & Hc).
    pose proof (parse_digits_digits 20 n "" ltac:(lia)) as Hp.
    rewrite Hd in *.
    assert (Hminus : Ascii.eqb c "-"%char = false)
      by (apply Ascii.eqb_neq; intros ->; discriminate).
    assert (Hplus : Ascii.eqb c "+"%char = false)
      by (apply Ascii.eqb_neq; intros ->; discriminate).
    rewrite Hminus, Hplus. cbv iota beta. rewrite Hp. simpl parse_digits.
    cbv iota beta. rewrite Hr. reflexivity.
Qed.

Lemma Atoi_in_range (s : string) (n : Z) : Atoi s = (n, None) -> in_range n = true.
Proof.
  unfold Atoi.
  destruct (match s with
            | String c r => if Ascii.eqb c "-"%char then (true, r)
                            else if Ascii.eqb c "+"%char then (false, r) else (false, s)
            | EmptyString => (false, s)
            end) as [neg body].
  destruct body as [|c body]; [discriminate|].
  destruct (parse_digits (String c body) 0) as [v|]; [|discriminate].
  destruct (in_range (if neg then (- v)%Z else v)) eqn:Hr; [|discriminate].
  intro H. injection H as <-. exact Hr.
Qed.

(** A name that parses to [n] and is not [Itoa n] is not what [Itoa] writes
    for any number. *)
Lemma Itoa_Atoi_canonical (s : string) (n m : Z) :
  Atoi s = (n, None) -> in_range m = true -> Itoa m = s -> m = n.
Proof.
  intros Hs Hm <-. rewrite (Atoi_Itoa _ Hm) in Hs. now injection Hs.
Qed.

(** ** Directory entries *)

Lemma assoc_In (c : string) (es : list (string * node)) (x : node) :
  assoc c es = Some x -> In c (names es).
Proof.
  induction es as [|[c' n] r IH]; simpl; [discriminate|].
  destruct (String.eqb_spec c' c) as [->|Hne]; [now left|].
  intro H. right. now apply IH.
Qed.

Lemma assoc_None (c : string) (es : list (string * node)) :
  assoc c es = None <-> ~ In c (names es).
Proof.
  induction es as [|[c' n] r IH]; simpl.
  - split; [intros _ []|reflexivity].
  - destruct (String.eqb_spec c' c) as [->|Hne].
    + split; [discriminate|]. intro H. exfalso. apply H. now left.
    + rewrite IH. split; [intros H [H'|H']; [congruence|now apply H]|].
      intros H H'. apply H. now right.
Qed.

Lemma In_assoc (c : string) (es : list (string * node)) :
  In c (names es) -> exists x, assoc c es = Some x.
Proof.
  intro H. destruct (assoc c es) as [x|] eqn:E; [now exists x|].
  apply assoc_None in E. contradiction.
Qed.

Lemma assoc_app (c : string) (es fs : list (string * node)) :
  assoc c (es ++ fs) =
  match assoc c es with Some x => Some x | None => assoc c fs end.
Proof.
  induction es as [|[c' n] r IH]; simpl; [reflexivity|].
  now destruct (String.eqb c' c).
Qed.

Lemma assoc_set_entry_same (c : string) (x : node) (es : list (string * node)) :
  assoc c (set_entry c x es) = Some x.
Proof.
  induction es as [|[a n] r IH]; simpl.
  - now rewrite String.eqb_refl.
  - destruct (String.eqb a c) eqn:E; simpl.
    + now rewrite String.eqb_refl.
    + now rewrite E.
Qed.

Lemma assoc_set_entry_other (c c' : string) (x : node) (es : list (string * node)) :
  c' <> c -> assoc c' (set_entry c x es) = assoc c' es.
Proof.
  intro Hne.
  assert (H : String.eqb c c' = false) by (apply String.eqb_neq; congruence).
  induction es as [|[a n] r IH]; simpl.
  - now rewrite H.
  - destruct (String.eqb_spec a c) as [->|Hac]; simpl.
    + now rewrite H.
    + now rewrite IH.
Qed.

Lemma set_entry_same (c : string) (x : node) (es : list (string * node)) :
  assoc c es = Some x -> set_entry c x es = es.
Proof.
  induction es as [|[a n] r IH]; simpl; [discriminate|].
  destruct (String.eqb_spec a c) as [->|Hac].
  - now intros [= ->].
  - intro H. now rewrite IH.
Qed.

Lemma names_set_entry (c : string) (x : node) (es : list (string * node)) :
  names (set_entry c x es) =
  match assoc c es with Some _ => names es | None => names es ++ [c] end.
Proof.
  induction es as [|[a n] r IH]; simpl; [reflexivity|].
  destruct (String.eqb_spec a c) as [->|Hac]; simpl; [reflexivity|].
  rewrite IH. now destruct (assoc c r).
Qed.

Lemma In_names_set_entry (c n : string) (x : node) (es : list (string * node)) :
  In n (names (set_entry c x es)) <-> n = c \/ In n (names es).
Proof.
  rewrite names_set_entry. destruct (assoc c es) eqn:E.
  - split; [now right|]. intros [->|H]; [now apply assoc_In in E|exact H].
  - rewrite in_app_iff. simpl. split.
    + intros [H|[H|[]]]; [now right|now left].
    + intros [->|H]; [right; now left|now left].
Qed.

Lemma assoc_del_entry_same (c : string) (es : list (string * node)) :
  assoc c (del_entry c es) = None.
Proof.
  induction es as [|[a n] r IH]; simpl; [reflexivity|].
  destruct (String.eqb_spec a c) as [->|Hne]; simpl; [exact IH|].
  apply String.eqb_neq in Hne. now rewrite Hne.
Qed.

Lemma assoc_del_entry_other (c c' : string) (es : list (string * node)) :
  c' <> c -> assoc c' (del_entry c es) = assoc c' es.
Proof.
  intro Hne. induction es as [|[a n] r IH]; simpl; [reflexivity|].
  destruct (String.eqb_spec a c) as [->|Hac]; simpl.
  - assert (H : String.eqb c c' = false) by (apply String.eqb_neq; congruence).
    now rewrite H.
  - now rewrite IH.
Qed.

Lemma In_names_del_entry (c n : string) (es : list (string * node)) :
  In n (names (del_entry c es)) <-> n <> c /\ In n (names es).
Proof.
  induction es as [|[a x] r IH]; simpl; [tauto|].
  destruct (String.eqb_spec a c) as [->|Hac]; simpl; rewrite IH.
  - split; [tauto|]. intros [Hn [H|H]]; [congruence|tauto].
  - split; [|tauto]. intros [->|H]; tauto.
Qed.

Lemma del_entry_absent (c : string) (es : list (string * node)) :
  ~ In c (names es) -> del_entry c es = es.
Proof.
  induction es as [|[a x] r IH]; simpl; intro H; [reflexivity|].
  destruct (String.eqb_spec a c) as [->|Hac]; simpl; [tauto|].
  f_equal. apply IH. tauto.
Qed.

(** ** Paths in the tree *)

Lemma walk_app (p r : path) (t : node) :
  walk (p ++ r) t =
  match walk p t with inr t' => walk r t' | inl e => inl e end.
Proof.
  revert t; induction p as [|c p IH]; intro t; simpl; [reflexivity|].
  destruct t as [d|es]; [reflexivity|].
  destruct (assoc c es); [apply IH|reflexivity].
Qed.

Lemma put_cons (a : string) (p : path) (x t : node) :
  p <> [] ->
  put (a :: p) x t =
  match t with
  | File _ => t
  | Dir es =>
      match assoc a es with
      | Some t' => Dir (set_entry a (put p x t') es)
      | None => t
      end
  end.
Proof. intro H. destruct p; [congruence|reflexivity]. Qed.

Lemma put_snoc (d : path) (c : string) (x t : node) :
  put (d ++ [c]) x t = upd d (set_entry c x) t.
Proof.
  revert t; induction d as [|a d IH]; intro t.
  - simpl. now destruct t.
  - change ((a :: d) ++ [c]) with (a :: (d ++ [c])).
    rewrite put_cons by (intro H; now apply app_eq_nil in H as [_ H]).
    simpl. destruct t as [b|es]; [reflexivity|].
    destruct (assoc a es) as [t'|]; [now rewrite IH|reflexivity].
Qed.

Lemma del_cons (a : string) (p : path) (t : node) :
  p <> [] ->
  del (a :: p) t =
  match t with
  | File _ => t
  | Dir es =>
      match assoc a es with
      | Some t' => Dir (set_entry a (del p t') es)
      | None => t
      end
  end.
Proof. intro H. destruct p; [congruence|reflexivity]. Qed.

Lemma del_snoc (d : path) (c : string) (t : node) :
  del (d ++ [c]) t = upd d (del_entry c) t.
Proof.
  revert t; induction d as [|a d IH]; intro t.
  - simpl. now destruct t.
  - change ((a :: d) ++ [c]) with (a :: (d ++ [c])).
    rewrite del_cons by (intro H; now apply app_eq_nil in H as [_ H]).
    simpl. destruct t as [b|es]; [reflexivity|].
    destruct (assoc a es) as [t'|]; [now rewrite IH|reflexivity].
Qed.

Lemma walk_upd_at (d : path) f (t : node) (es : list (string * node)) :
  walk d t = inr (Dir es) -> walk d (upd d f t) = inr (Dir (f es)).
Proof.
  revert t; induction d as [|c d IH]; intros t H; simpl in *.
  - injection H as ->. reflexivity.
  - destruct t as [b|es0]; [discriminate|].
    destruct (assoc c es0) as [t'|] eqn:E; [|discriminate].
    simpl. rewrite assoc_set_entry_same. now apply IH.
Qed.

Lemma upd_not_dir (d : path) f (t : node) :
  (forall es, walk d t <> inr (Dir es)) -> upd d f t = t.
Proof.
  revert t; induction d as [|c d IH]; intros t H; simpl in *.
  - destruct t as [b|es]; [reflexivity|]. now destruct (H es).
  - destruct t as [b|es]; [reflexivity|].
    destruct (assoc c es) as [t'|] eqn:E; [|reflexivity].
    rewrite (IH t' H). now rewrite set_entry_same.
Qed.

Lemma walk_upd_diverge (d q : path) f (t : node) :
  prefix d q = false -> prefix q d = false ->
  walk q (upd d f t) = walk q t.
Proof.
  revert q t; induction d as [|c d IH]; intros q t Hdq Hqd; [discriminate|].
  destruct q as [|b q]; [discriminate|].
  simpl in *. destruct t as [x|es]; [reflexivity|].
  destruct (assoc c es) as [t'|] eqn:E; [|reflexivity].
  simpl. destruct (String.eqb_spec c b) as [->|Hne].
  - rewrite assoc_set_entry_same, E. rewrite String.eqb_refl in Hqd.
    now apply IH.
  - now rewrite assoc_set_entry_other by congruence.
Qed.

Lemma walk_upd_above (q : path) (c : string) (r : path) f (t : node) :
  walk q (upd (q ++ c :: r) f t) =
  match walk q t with
  | inr (Dir es) =>
      match assoc c es with
      | Some t' => inr (Dir (set_entry c (upd r f t') es))
      | None => inr (Dir es)
      end
  | other => other
  end.
Proof.
  revert t; induction q as [|a q IH]; intro t; simpl.
  - destruct t as [x|es]; [reflexivity|]. now destruct (assoc c es).
  - destruct t as [x|es]; [reflexivity|].
    destruct (assoc a es) as [t'|] eqn:E; simpl; [|now rewrite E].
    rewrite assoc_set_entry_same. apply IH.
Qed.

Lemma walk_upd_below (d r : path) f (t : node) (es : list (string * node)) :
  walk d t = inr (Dir es) ->
  walk (d ++ r) (upd d f t) = walk r (Dir (f es)).
Proof. intro H. now rewrite walk_app, (walk_upd_at _ _ _ _ H). Qed.

Lemma prefix_split (p q : path) :
  prefix p q = false -> prefix q p = true -> exists c r, p = q ++ c :: r.
Proof.
  intros Hpq Hqp. destruct (prefix_inv _ _ Hqp) as [s ->].
  destruct s as [|c r]; [|now exists c, r].
  rewrite app_nil_r in Hpq. pose proof (prefix_app q []) as H.
  rewrite app_nil_r in H. congruence.
Qed.

Lemma prefix_snoc_false (d q : path) (c : string) :
  prefix (d ++ [c]) q = false -> prefix d q = true ->
  q = d \/ exists c' r, q = d ++ c' :: r /\ c' <> c.
Proof.
  intros Hf Hd. destruct (prefix_inv _ _ Hd) as [s ->].
  destruct s as [|c' r]; [left; apply app_nil_r|]. right. exists c', r.
  split; [reflexivity|]. intros ->.
  change (c :: r) with ([c] ++ r) in Hf. rewrite app_assoc, prefix_app in Hf.
  discriminate.
Qed.

Lemma same_kind_refl (a : errno + node) : same_kind a a.
Proof. destruct a as [e|[x|es]]; simpl; auto. Qed.

Lemma same_kind_trans (a b c : errno + node) :
  same_kind a b -> same_kind b c -> same_kind a c.
Proof.
  destruct a as [e|[x|es]], b as [e'|[x'|es']], c as [e''|[x''|es'']];
    simpl; intros; try tauto; congruence.
Qed.

(** An update of the one name [c] in the directory [d] leaves every path
    that is not [d/c] or below it of the kind it had. *)
Lemma walk_upd_kind (d : path) (c : string) f (q : path) (t : node) :
  (forall c' es, c' <> c -> assoc c' (f es) = assoc c' es) ->
  prefix (d ++ [c]) q = false ->
  same_kind (walk q t) (walk q (upd d f t)).
Proof.
  intros Hf Hq. destruct (prefix d q) eqn:Hdq.
  - destruct (walk d t) as [e|[x|es]] eqn:Hd.
    + rewrite upd_not_dir by (intros es; congruence). apply same_kind_refl.
    + rewrite upd_not_dir by (intros es; congruence). apply same_kind_refl.
    + destruct (prefix_snoc_false _ _ _ Hq Hdq) as [->|(c' & r & -> & Hne)].
      * rewrite Hd, (walk_upd_at _ _ _ _ Hd). exact I.
      * rewrite (walk_upd_below _ _ _ _ _ Hd), walk_app, Hd. simpl.
        rewrite (Hf _ _ Hne). apply same_kind_refl.
  - destruct (prefix q d) eqn:Hqd.
    + destruct (prefix_split _ _ Hdq Hqd) as (a & r & ->).
      rewrite walk_upd_above. destruct (walk q t) as [e|[x|es]]; simpl; auto.
      now destruct (assoc a es).
    + rewrite walk_upd_diverge by assumption. apply same_kind_refl.
Qed.

(** It leaves every path that is neither above nor below [d/c] as it was. *)
Lemma walk_upd_frame (d : path) (c : string) f (q : path) (t : node) :
  (forall c' es, c' <> c -> assoc c' (f es) = assoc c' es) ->
  prefix (d ++ [c]) q = false -> prefix q (d ++ [c]) = false ->
  walk q (upd d f t) = walk q t.
Proof.
  intros Hf Hq Hq'. destruct (prefix d q) eqn:Hdq.
  - destruct (walk d t) as [e|[x|es]] eqn:Hd;
      try (rewrite upd_not_dir by (intros es'; congruence); reflexivity).
    destruct (prefix_snoc_false _ _ _ Hq Hdq) as [->|(c' & r & -> & Hne)].
    + rewrite prefix_app in Hq'. discriminate.
    + rewrite (walk_upd_below _ _ _ _ _ Hd), walk_app, Hd. simpl.
      now rewrite (Hf _ _ Hne).
  - destruct (prefix q d) eqn:Hqd.
    + destruct (prefix_inv _ _ Hqd) as [s ->].
      rewrite <- app_assoc, prefix_app in Hq'. discriminate.
    + now apply walk_upd_diverge.
Qed.

Lemma walk_put_kind (d : path) (c : string) (x : node) (q : path) (t : node) :
  prefix (d ++ [c]) q = false ->
  same_kind (walk q t) (walk q (put (d ++ [c]) x t)).
Proof.
  intro H. rewrite put_snoc. apply (walk_upd_kind d c); [|exact H].
  intros. now apply assoc_set_entry_other.
Qed.

Lemma walk_del_kind (d : path) (c : string) (q : path) (t : node) :
  prefix (d ++ [c]) q = false ->
  same_kind (walk q t) (walk q (del (d ++ [c]) t)).
Proof.
  intro H. rewrite del_snoc. apply (walk_upd_kind d c); [|exact H].
  intros. now apply assoc_del_entry_other.
Qed.

Lemma walk_put_frame (d : path) (c : string) (x : node) (q : path) (t : node) :
  prefix (d ++ [c]) q = false -> prefix q (d ++ [c]) = false ->
  walk q (put (d ++ [c]) x t) = walk q t.
Proof.
  intros H H'. rewrite put_snoc. apply (walk_upd_frame d c); auto.
  intros. now apply assoc_set_entry_other.
Qed.

Lemma walk_del_frame (d : path) (c : string) (q : path) (t : node) :
  prefix (d ++ [c]) q = false -> prefix q (d ++ [c]) = false ->
  walk q (del (d ++ [c]) t) = walk q t.
Proof.
  intros H H'. rewrite del_snoc. apply (walk_upd_frame d c); auto.
  intros. now apply assoc_del_entry_other.
Qed.

Lemma walk_put_at (d : path) (c : string) (x : node) (r : path) (t : node)
      (es : list (string * node)) :
  walk d t = inr (Dir es) ->
  walk ((d ++ [c]) ++ r) (put (d ++ [c]) x t) = walk r x.
Proof.
  intro H. rewrite put_snoc, <- app_assoc, (walk_upd_below _ _ _ _ _ H).
  simpl. now rewrite assoc_set_entry_same.
Qed.

Lemma walk_put_parent (d : path) (c : string) (x : node) (t : node)
      (es : list (string * node)) :
  walk d t = inr (Dir es) ->
  walk d (put (d ++ [c]) x t) = inr (Dir (set_entry c x es)).
Proof. intro H. rewrite put_snoc. now apply walk_upd_at. Qed.

Lemma walk_del_at (d : path) (c : string) (r : path) (t : node)
      (es : list (string * node)) :
  walk d t = inr (Dir es) ->
  walk ((d ++ [c]) ++ r) (del (d ++ [c]) t) = inl ENOENT.
Proof.
  intro H. rewrite del_snoc, <- app_assoc, (walk_upd_below _ _ _ _ _ H).
  simpl. now rewrite assoc_del_entry_same.
Qed.

Lemma walk_del_parent (d : path) (c : string) (t : node)
      (es : list (string * node)) :
  walk d t = inr (Dir es) ->
  walk d (del (d ++ [c]) t) = inr (Dir (del_entry c es)).
Proof. intro H. rewrite del_snoc. now apply walk_upd_at. Qed.

(** A non-empty path is its parent and its last component. *)
Lemma path_snoc (p : path) : p <> [] -> exists d c, p = d ++ [c].
Proof.
  intro H. exists (removelast p), (last p ""). now apply app_removelast_last.
Qed.

Lemma removelast_snoc (d : path) (c : string) : removelast (d ++ [c]) = d.
Proof. apply removelast_last. Qed.

Lemma parent_dir_snoc (d : path) (c : string) (t : node) :
  parent_dir (d ++ [c]) t =
  match walk d t with
  | inl e => inl e
  | inr (File _) => inl ENOTDIR
  | inr (Dir es) => inr es
  end.
Proof. unfold parent_dir. now rewrite removelast_snoc. Qed.

(** Nothing lies below a file, nor below a missing entry. *)
Lemma walk_below_file (p r : path) (t : node) (b : bytes) :
  walk p t = inr (File b) -> r <> [] -> walk (p ++ r) t = inl ENOTDIR.
Proof.
  intros H Hr. rewrite walk_app, H. destruct r; [congruence|reflexivity].
Qed.

Lemma walk_below_error (p r : path) (t : node) (e : errno) :
  walk p t = inl e -> walk (p ++ r) t = inl e.
Proof. intro H. now rewrite walk_app, H. Qed.

(** ** System calls on the tree *)

Lemma rename_inv (src dst : path) (t t' : node) :
  rename src dst t = inr t' ->
  exists x es,
    walk src t = inr x /\ src <> [] /\ dst <> [] /\
    parent_dir dst t = inr es /\
    (src = dst /\ t' = t \/
     src <> dst /\ (is_dir x && prefix src dst = false) /\
     t' = put dst x (del src t) /\
     ((exists e, walk dst t = inl e) \/
      (exists b b', walk dst t = inr (File b) /\ x = File b') \/
      (walk dst t = inr (Dir []) /\ is_dir x = true))).
Proof.
  unfold rename. destruct (walk src t) as [e|x] eqn:Hs; [discriminate|].
  destruct src as [|a src]; [discriminate|].
  destruct dst as [|b dst]; [discriminate|].
  destruct (parent_dir (b :: dst) t) as [e|es] eqn:Hp; [discriminate|].
  destruct (path_eqb (a :: src) (b :: dst)) eqn:Heq.
  - intros [= <-]. apply path_eqb_eq in Heq. exists x, es.
    split; [reflexivity|]. split; [discriminate|]. split; [discriminate|].
    split; [reflexivity|]. left. now split.
  - assert (Hne : a :: src <> b :: dst).
    { intro H. apply path_eqb_eq in H. congruence. }
    destruct (is_dir x && prefix (a :: src) (b :: dst)) eqn:Hd; [discriminate|].
    intro H. exists x, es.
    split; [reflexivity|]. split; [discriminate|]. split; [discriminate|].
    split; [reflexivity|].
    right. split; [exact Hne|]. split; [exact Hd|].
    destruct (walk (b :: dst) t) as [e|[bd|[|en r]]] eqn:Hw;
      destruct x as [bx|ex]; try discriminate;
      injection H as <-; (split; [reflexivity|]); eauto 6.
Qed.

Lemma rename_src_missing (src dst : path) (t : node) (e : errno) :
  walk src t = inl e -> rename src dst t = inl e.
Proof. intro H. unfold rename. now rewrite H. Qed.

(** After a rename the destination holds what the source held. *)
Lemma rename_walk_dst (src dst r : path) (t t' x : node) :
  rename src dst t = inr t' -> walk src t = inr x ->
  walk (dst ++ r) t' = walk r x.
Proof.
  intros H Hx. destruct (rename_inv _ _ _ _ H)
    as (x' & es & Hx' & Hs & Hd & Hp & [[-> ->]|(Hne & Hcond & -> & _)]).
  - now rewrite walk_app, Hx.
  - rewrite Hx in Hx'. injection Hx' as <-.
    destruct (path_snoc _ Hd) as (dd & cd & ->).
    destruct (path_snoc _ Hs) as (ds & cs & ->).
    rewrite parent_dir_snoc in Hp.
    destruct (walk dd t) as [e|[b|es0]] eqn:Hdd; try discriminate.
    assert (Hnb : prefix (ds ++ [cs]) dd = false).
    { destruct (prefix (ds ++ [cs]) dd) eqn:Hpre; [|reflexivity].
      destruct (prefix_inv _ _ Hpre) as [s ->].
      rewrite <- app_assoc, prefix_app, andb_true_r in Hcond.
      destruct x as [b|ex]; [|discriminate].
      rewrite walk_app, Hx in Hdd. destruct s; discriminate. }
    pose proof (walk_del_kind ds cs dd t Hnb) as Hk. rewrite Hdd in Hk.
    destruct (walk dd (del (ds ++ [cs]) t)) as [e|[b|es1]] eqn:Hdd';
      try contradiction.
    apply (walk_put_at _ _ _ _ _ _ Hdd').
Qed.

(** ... and the source is gone, unless it is the destination. *)
Lemma rename_walk_src (src dst : path) (t t' : node) :
  rename src dst t = inr t' -> src <> dst -> walk src t' = inl ENOENT.
Proof.
  intros H Hne. destruct (rename_inv _ _ _ _ H)
    as (x & es & Hx & Hs & Hd & Hp & [[-> ->]|(_ & Hcond & -> & Hdst)]);
    [congruence|].
  destruct (path_snoc _ Hd) as (dd & cd & ->).
  destruct (path_snoc _ Hs) as (ds & cs & ->).
  assert (Hds : exists es_s, walk ds t = inr (Dir es_s)).
  { rewrite walk_app in Hx. destruct (walk ds t) as [e|[b|es_s]];
      try discriminate. now exists es_s. }
  destruct Hds as [es_s Hds].
  assert (Hgone : walk (ds ++ [cs]) (del (ds ++ [cs]) t) = inl ENOENT).
  { pose proof (walk_del_at ds cs [] t es_s Hds) as Hg.
    now rewrite app_nil_r in Hg. }
  assert (Hnb : prefix (dd ++ [cd]) (ds ++ [cs]) = false).
  { destruct (prefix (dd ++ [cd]) (ds ++ [cs])) eqn:Hpre; [|reflexivity].
    destruct (prefix_inv _ _ Hpre) as [s Hs'].
    destruct s as [|c s]; [rewrite app_nil_r in Hs'; congruence|].
    rewrite Hs', walk_app in Hx.
    destruct Hdst as [[e He]|[(b & b' & Hb & _)|[Hb _]]]; rewrite ?He, ?Hb in Hx;
      discriminate. }
  pose proof (walk_put_kind dd cd x (ds ++ [cs]) (del (ds ++ [cs]) t) Hnb) as Hk.
  rewrite Hgone in Hk.
  destruct (walk (ds ++ [cs]) (put (dd ++ [cd]) x (del (ds ++ [cs]) t)))
    as [e|[b|es1]]; simpl in Hk; try contradiction. now subst.
Qed.

(** A rename leaves every path that is not at or below its source or its
    destination of the kind it had, and as it was when it is not above them
    either. *)
Lemma rename_kind (src dst q : path) (t t' : node) :
  rename src dst t = inr t' ->
  prefix src q = false -> prefix dst q = false ->
  same_kind (walk q t) (walk q t').
Proof.
  intros H Hs Hd. destruct (rename_inv _ _ _ _ H)
    as (x & es & Hx & Hsn & Hdn & Hp & [[-> ->]|(_ & _ & -> & _)]).
  - apply same_kind_refl.
  - destruct (path_snoc _ Hdn) as (dd & cd & ->).
    destruct (path_snoc _ Hsn) as (ds & cs & ->).
    eapply same_kind_trans; [apply (walk_del_kind ds cs q t Hs)|].
    now apply walk_put_kind.
Qed.

Lemma rename_frame (src dst q : path) (t t' : node) :
  rename src dst t = inr t' ->
  prefix src q = false -> prefix dst q = false ->
  prefix q src = false -> prefix q dst = false ->
  walk q t' = walk q t.
Proof.
  intros H Hs Hd Hs' Hd'. destruct (rename_inv _ _ _ _ H)
    as (x & es & Hx & Hsn & Hdn & Hp & [[-> ->]|(_ & _ & -> & _)]);
    [reflexivity|].
  destruct (path_snoc _ Hdn) as (dd & cd & ->).
  destruct (path_snoc _ Hsn) as (ds & cs & ->).
  rewrite walk_put_frame by assumption. now apply walk_del_frame.
Qed.

(** After a rename the directory of the destination lists its name. *)
Lemma rename_lists_dst (src dd : path) (cd : string) (t t' : node) :
  rename src (dd ++ [cd]) t = inr t' ->
  exists es, walk dd t' = inr (Dir es) /\ In cd (names es).
Proof.
  intro H. destruct (rename_inv _ _ _ _ H) as (x & es & Hx & _ & _ & Hp & _).
  pose proof (rename_walk_dst _ _ [] _ _ _ H Hx) as Hw.
  rewrite app_nil_r, walk_app in Hw. simpl in Hw.
  destruct (walk dd t') as [e|[b|es']]; try discriminate.
  exists es'. split; [reflexivity|].
  destruct (assoc cd es') eqn:E; [now apply assoc_In in E|discriminate].
Qed.

Lemma mkdir_inv (p : path) (t t' : node) :
  mkdir p t = inr t' ->
  exists d c es e,
    p = d ++ [c] /\ walk d t = inr (Dir es) /\ walk p t = inl e /\
    t' = put p (Dir []) t.
Proof.
  unfold mkdir. destruct (walk p t) as [e|n] eqn:Hw; [|discriminate].
  destruct (parent_dir p t) as [e'|es] eqn:Hp; [discriminate|].
  intros [= <-]. destruct p as [|a p]; [discriminate|].
  destruct (path_snoc (a :: p) ltac:(discriminate)) as (d & c & Hdc).
  rewrite Hdc in *. rewrite parent_dir_snoc in Hp.
  destruct (walk d t) as [e'|[b|es']] eqn:Hd; try discriminate.
  injection Hp as ->. now exists d, c, es, e.
Qed.

Lemma mkdir_exists (p : path) (t n : node) :
  walk p t = inr n -> mkdir p t = inl EEXIST.
Proof. intro H. unfold mkdir. now rewrite H. Qed.

Lemma mkdir_new (d : path) (c : string) (t : node) (es : list (string * node))
      (e : errno) :
  walk d t = inr (Dir es) -> walk (d ++ [c]) t = inl e ->
  mkdir (d ++ [c]) t = inr (put (d ++ [c]) (Dir []) t).
Proof.
  intros Hd Hc. unfold mkdir. now rewrite Hc, parent_dir_snoc, Hd.
Qed.

Lemma create_excl_inv (p : path) (t t' : node) :
  create_excl p t = inr t' ->
  exists d c es e,
    p = d ++ [c] /\ walk d t = inr (Dir es) /\ walk p t = inl e /\
    t' = put p (File []) t.
Proof.
  unfold create_excl. destruct (walk p t) as [e|n] eqn:Hw; [|discriminate].
  destruct (parent_dir p t) as [e'|es] eqn:Hp; [discriminate|].
  intros [= <-]. destruct p as [|a p]; [discriminate|].
  destruct (path_snoc (a :: p) ltac:(discriminate)) as (d & c & Hdc).
  rewrite Hdc in *. rewrite parent_dir_snoc in Hp.
  destruct (walk d t) as [e'|[b|es']] eqn:Hd; try discriminate.
  injection Hp as ->. now exists d, c, es, e.
Qed.

(** A new entry leaves every file where it is. *)
Lemma put_fresh_file (d : path) (c : string) (x : node) (q : path) (t : node)
      (es : list (string * node)) (b : bytes) :
  walk d t = inr (Dir es) -> walk q t = inr (File b) -> q <> d ++ [c] ->
  (forall r, q = (d ++ [c]) ++ r -> False) ->
  walk q (put (d ++ [c]) x t) = inr (File b).
Proof.
  intros Hd Hq Hne Hbelow. rewrite <- Hq. apply walk_put_frame.
  - destruct (prefix (d ++ [c]) q) eqn:Hp; [|reflexivity].
    destruct (prefix_inv _ _ Hp) as [r Hr]. now destruct (Hbelow r).
  - destruct (prefix q (d ++ [c])) eqn:Hp; [|reflexivity].
    destruct (prefix_inv _ _ Hp) as [r Hr].
    destruct r as [|a r]; [rewrite app_nil_r in Hr; congruence|].
    destruct (path_snoc (a :: r) ltac:(discriminate)) as (r' & c' & Hr').
    rewrite Hr', app_assoc in Hr. apply app_inj_tail in Hr as [-> _].
    rewrite walk_app, Hq in Hd. destruct r'; discriminate.
Qed.

(** ** System calls of the process *)

Lemma calm_tl (evs : list event) : calm evs = true -> calm (tl evs) = true.
Proof.
  destruct evs as [|ev r]; [auto|]. simpl. intro H.
  now apply andb_true_iff in H as [_ H].
Qed.

Lemma calm_hd (evs : list event) (act : action) :
  calm evs = true -> hd Quiet evs <> Interfere act.
Proof.
  destruct evs as [|ev r]; simpl; [discriminate|]. intros H ->. discriminate.
Qed.

Lemma seen_calm (w : World) : calm (sched w) = true -> seen w = fs w.
Proof.
  unfold seen. destruct (sched w) as [|[| | |act] r]; try reflexivity.
  discriminate.
Qed.

Lemma seen_not_interfered (w : World) :
  (forall act, hd Quiet (sched w) <> Interfere act) -> seen w = fs w.
Proof.
  unfold seen. destruct (sched w) as [|[| | |act] r]; try reflexivity.
  intro H. now destruct (H act).
Qed.

(** What a system call leaves of the world, and what it returns. *)
Lemma syscall_inv {A} (fail : errno -> A) (run : node -> A * node)
      (w w' : World) (a : A) :
  syscall fail run w = (a, w') ->
  sched w' = tl (sched w) /\ suffixes w' = suffixes w /\ rand w' = rand w /\
  kill0 w' = kill0 w /\ pid w' = pid w /\ log w' = log w /\
  match hd Quiet (sched w) with
  | Fault e | ShortWrite _ e => a = fail e /\ fs w' = fs w
  | Quiet | Interfere _ => run (seen w) = (a, fs w')
  end.
Proof.
  unfold syscall, next_event, seen.
  destruct (sched w) as [|[|e|n e|act] r] eqn:Hs; cbn [hd tl fs];
    try (destruct (run (fs w)) as [a0 t0] eqn:E);
    try (destruct (run (interfere act (fs w))) as [a1 t1] eqn:E1);
    intro H; injection H as <- <-; cbn; rewrite ?Hs; repeat split; reflexivity.
Qed.

Lemma later_refl (w : World) : later w w.
Proof. unfold later. auto. Qed.

Lemma later_trans (w1 w2 w3 : World) : later w1 w2 -> later w2 w3 -> later w1 w3.
Proof.
  unfold later. intros (K1 & P1 & C1) (K2 & P2 & C2).
  repeat split; [congruence|congruence|auto].
Qed.

Lemma syscall_later {A} (fail : errno -> A) (run : node -> A * node)
      (w w' : World) (a : A) :
  syscall fail run w = (a, w') -> later w w'.
Proof.
  intro H. destruct (syscall_inv _ _ _ _ _ H) as (Hs & _ & _ & Hk & Hp & _).
  repeat split; auto. rewrite Hs. apply calm_tl.
Qed.

(** A call that changes the tree: it fails and leaves the tree it found, or
    succeeds and leaves the new one. *)
Lemma update_inv (op : node -> errno + node) (w w' : World) (r : error) :
  update op w = (r, w') ->
  later w w' /\ log w' = log w /\ suffixes w' = suffixes w /\ rand w' = rand w /\
  match r with
  | Some e =>
      fs w' = seen w /\
      (faulty (hd Quiet (sched w)) = false -> op (seen w) = inl e)
  | None => op (seen w) = inr (fs w')
  end.
Proof.
  intro H. pose proof (syscall_later _ _ _ _ _ H) as Hl.
  destruct (syscall_inv _ _ _ _ _ H) as (_ & Hsf & Hr & _ & _ & Hlog & Hev).
  split; [exact Hl|]. split; [exact Hlog|]. split; [exact Hsf|]. split; [exact Hr|].
  destruct (hd Quiet (sched w)) as [|e|n e|act] eqn:Hhd.
  - destruct (op (seen w)) as [e|t'] eqn:Hop; injection Hev as <- <-; auto.
  - destruct Hev as [-> Hfs]. split; [|discriminate].
    rewrite Hfs. symmetry. apply seen_not_interfered. intro. rewrite Hhd. discriminate.
  - destruct Hev as [-> Hfs]. split; [|discriminate].
    rewrite Hfs. symmetry. apply seen_not_interfered. intro. rewrite Hhd. discriminate.
  - destruct (op (seen w)) as [e|t'] eqn:Hop; injection Hev as <- <-; auto.
Qed.

(** A call that only reads the tree leaves the tree it found. *)
Lemma syscall_read_inv {A} (fail : errno -> A) (g : node -> A)
      (w w' : World) (a : A) :
  syscall fail (fun t => (g t, t)) w = (a, w') ->
  later w w' /\ log w' = log w /\ suffixes w' = suffixes w /\ rand w' = rand w /\
  fs w' = seen w /\
  (faulty (hd Quiet (sched w)) = false -> a = g (seen w)) /\
  (forall e, hd Quiet (sched w) = Fault e -> a = fail e) /\
  (forall n e, hd Quiet (sched w) = ShortWrite n e -> a = fail e).
Proof.
  intro H. pose proof (syscall_later _ _ _ _ _ H) as Hl.
  destruct (syscall_inv _ _ _ _ _ H) as (_ & Hsf & Hr & _ & _ & Hlog & Hev).
  split; [exact Hl|]. split; [exact Hlog|]. split; [exact Hsf|]. split; [exact Hr|].
  destruct (hd Quiet (sched w)) as [|e|n e|act] eqn:Hhd.
  - injection Hev as <- <-. repeat split; intros; discriminate.
  - destruct Hev as [-> Hfs]. rewrite Hfs. repeat split; try discriminate.
    + symmetry. apply seen_not_interfered. intro. rewrite Hhd. discriminate.
    + now intros e0 [= ->].
  - destruct Hev as [-> Hfs]. rewrite Hfs. repeat split; try discriminate.
    + symmetry. apply seen_not_interfered. intro. rewrite Hhd. discriminate.
    + now intros n0 e0 [= _ ->].
  - injection Hev as <- <-. repeat split; intros; discriminate.
Qed.

Lemma os_Readdirnames_inv (p : path) (w w' : World) (l : list string) (r : error) :
  os_Readdirnames p w = ((l, r), w') ->
  later w w' /\ log w' = log w /\ suffixes w' = suffixes w /\ rand w' = rand w /\
  fs w' = seen w /\
  match r with
  | Some e =>
      l = [] /\ (faulty (hd Quiet (sched w)) = false -> readdir p (seen w) = inl e)
  | None => readdir p (seen w) = inr l
  end.
Proof.
  unfold os_Readdirnames. intro H.
  destruct (syscall_inv _ _ _ _ _ H) as (_ & _ & _ & _ & _ & _ & Hev).
  assert (H' : syscall (fun e => ([], Some e))
            (fun t => (match readdir p t with
                       | inl e => ([], Some e) | inr l0 => (l0, None) end, t)) w
          = ((l, r), w')).
  { rewrite <- H. unfold syscall. destruct (next_event w) as [[| | |act] w1]; auto.
    - destruct (readdir p (fs w1)); reflexivity.
    - destruct (readdir p (interfere act (fs w1))); reflexivity. }
  destruct (syscall_read_inv _ _ _ _ _ H') as (Hl & Hlog & Hsf & Hr & Hfs & Hq & Hf & Hsw).
  split; [exact Hl|]. split; [exact Hlog|]. split; [exact Hsf|]. split; [exact Hr|].
  split; [exact Hfs|].
  destruct (hd Quiet (sched w)) as [|e|n e|act] eqn:Hhd.
  - specialize (Hq eq_refl). destruct (readdir p (seen w)); injection Hq as -> ->; auto.
  - specialize (Hf e eq_refl). injection Hf as -> ->. split; [reflexivity|discriminate].
  - specialize (Hsw n e eq_refl). injection Hsw as -> ->. split; [reflexivity|discriminate].
  - specialize (Hq eq_refl). destruct (readdir p (seen w)); injection Hq as -> ->; auto.
Qed.

Lemma ioutil_ReadFile_inv (p : path) (w w' : World) (d : bytes) (r : error) :
  ioutil_ReadFile p w = ((d, r), w') ->
  later w w' /\ log w' = log w /\ suffixes w' = suffixes w /\ rand w' = rand w /\
  fs w' = seen w /\
  match r with
  | Some e =>
      d = [] /\ (faulty (hd Quiet (sched w)) = false -> readfile p (seen w) = inl e)
  | None => readfile p (seen w) = inr d
  end.
Proof.
  unfold ioutil_ReadFile. intro H.
  assert (H' : syscall (fun e => ([], Some e))
            (fun t => (match readfile p t with
                       | inl e => ([], Some e) | inr l0 => (l0, None) end, t)) w
          = ((d, r), w')).
  { rewrite <- H. unfold syscall. destruct (next_event w) as [[| | |act] w1]; auto.
    - destruct (readfile p (fs w1)); reflexivity.
    - destruct (readfile p (interfere act (fs w1))); reflexivity. }
  destruct (syscall_read_inv _ _ _ _ _ H') as (Hl & Hlog & Hsf & Hr & Hfs & Hq & Hf & Hsw).
  split; [exact Hl|]. split; [exact Hlog|]. split; [exact Hsf|]. split; [exact Hr|].
  split; [exact Hfs|].
  destruct (hd Quiet (sched w)) as [|e|n e|act] eqn:Hhd.
  - specialize (Hq eq_refl). destruct (readfile p (seen w)); injection Hq as -> ->; auto.
  - specialize (Hf e eq_refl). injection Hf as -> ->. split; [reflexivity|discriminate].
  - specialize (Hsw n e eq_refl). injection Hsw as -> ->. split; [reflexivity|discriminate].
  - specialize (Hq eq_refl). destruct (readfile p (seen w)); injection Hq as -> ->; auto.
Qed.

(** ** More on paths *)

Lemma prefix_app_both (b x y : path) : prefix (b ++ x) (b ++ y) = prefix x y.
Proof. induction b as [|a b IH]; simpl; [reflexivity|]. now rewrite String.eqb_refl. Qed.

Lemma prefix_refl (p : path) : prefix p p = true.
Proof. rewrite <- (app_nil_r p) at 2. apply prefix_app. Qed.

Lemma Join_plain_list (b : path) (l : list string) :
  Forall (fun s => plain s = true) l -> Join b l = b ++ l.
Proof.
  intro H. revert b. induction H as [|s l Hs _ IH]; intro b.
  - now rewrite Join_nil, app_nil_r.
  - rewrite (Join_cons_plain _ _ _ Hs), IH, <- app_assoc. reflexivity.
Qed.

Lemma Join_two (b : path) (s1 s2 : string) :
  plain s1 = true -> plain s2 = true -> Join b [s1; s2] = b ++ [s1; s2].
Proof. intros H1 H2. apply Join_plain_list. repeat constructor; assumption. Qed.

Lemma split_slash_cur (s : string) :
  no_slash s = true -> split_slash ("cur/" ++ s) = ["cur"; s].
Proof. intro H. cbn. now rewrite (split_slash_no_slash _ H). Qed.

(** The owner slot of [Take] and [OpenQueue] is the worker directory of
    [RescueDeadJobs]. *)
Lemma Join_mycur (b : path) (p : Z) (l : list string) :
  Join b (mycur p :: l) = Join (b ++ ["cur"; Itoa p]) l.
Proof.
  unfold Join, mycur. cbn [map List.concat].
  rewrite (split_slash_cur _ (plain_no_slash _ (Itoa_plain p))).
  rewrite fold_left_app. f_equal. cbn [fold_left].
  change (step b "cur") with (b ++ ["cur"]).
  rewrite (step_plain _ _ (Itoa_plain p)), <- app_assoc. reflexivity.
Qed.

Lemma Join_mycur_plain (b : path) (p : Z) (x : string) :
  plain x = true -> Join b [mycur p; x] = b ++ ["cur"; Itoa p; x].
Proof.
  intro H. rewrite Join_mycur, (Join_plain _ _ H), <- app_assoc. reflexivity.
Qed.

Lemma getWorkerDir_eq (qu : Queue) (p : Z) :
  Queue_getWorkerDir qu p = basedir qu ++ ["cur"; Itoa p].
Proof.
  unfold Queue_getWorkerDir. apply Join_two; [reflexivity|apply Itoa_plain].
Qed.

Lemma getNewDir_eq (qu : Queue) : Queue_getNewDir qu = basedir qu ++ ["new"].
Proof. unfold Queue_getNewDir. now apply Join_plain. Qed.

Lemma getCurDir_eq (qu : Queue) : Queue_getCurDir qu = basedir qu ++ ["cur"].
Proof. unfold Queue_getCurDir. now apply Join_plain. Qed.

Lemma Itoa_inj (n m : Z) :
  in_range n = true -> in_range m = true -> Itoa n = Itoa m -> n = m.
Proof.
  intros Hn Hm H. pose proof (Atoi_Itoa n Hn) as E. rewrite H, (Atoi_Itoa m Hm) in E.
  congruence.
Qed.

Lemma walk_snoc_inv (d : path) (c : string) (t x : node) :
  walk (d ++ [c]) t = inr x ->
  exists es, walk d t = inr (Dir es) /\ assoc c es = Some x.
Proof.
  rewrite walk_app. destruct (walk d t) as [e|[b|es]]; try discriminate.
  cbn. destruct (assoc c es) as [t'|] eqn:E; [|discriminate].
  intros [= <-]. now exists es.
Qed.

Lemma walk_snoc (d : path) (c : string) (t : node) (es : list (string * node)) :
  walk d t = inr (Dir es) ->
  walk (d ++ [c]) t =
  match assoc c es with Some x => inr x | None => inl ENOENT end.
Proof. intro H. rewrite walk_app, H. cbn. now destruct (assoc c es). Qed.

Lemma readdir_dir (p : path) (t : node) (es : list (string * node)) :
  walk p t = inr (Dir es) -> readdir p t = inr (names es).
Proof. intro H. unfold readdir. now rewrite H. Qed.

(** What a successful rename leaves in the directory it took the node from. *)
Lemma rename_lists_src (sd : path) (sc : string) (dst : path) (t t' : node) :
  rename (sd ++ [sc]) dst t = inr t' ->
  prefix dst sd = false -> prefix sd dst = false ->
  exists es, walk sd t = inr (Dir es) /\
             walk sd t' = inr (Dir (del_entry sc es)).
Proof.
  intros H Hp1 Hp2.
  destruct (rename_inv _ _ _ _ H) as (x & es' & Hx & _ & Hd & _ & Hcase).
  destruct (walk_snoc_inv _ _ _ _ Hx) as (es & Hsd & Hsc). exists es.
  split; [exact Hsd|].
  destruct Hcase as [[E _]|(_ & _ & -> & _)].
  - subst dst. rewrite prefix_app in Hp2. discriminate.
  - destruct (path_snoc _ Hd) as (dd & cd & ->).
    rewrite walk_put_frame.
    + now apply walk_del_parent.
    + exact Hp1.
    + destruct (prefix sd (dd ++ [cd])) eqn:E; [|reflexivity]. discriminate.
Qed.

(** ** Temporary names, writes *)

Lemma nextRandom_inv (w w' : World) (s : string) :
  nextRandom w = (s, w') ->
  fs w' = fs w /\ sched w' = sched w /\ rand w' = rand w /\
  kill0 w' = kill0 w /\ pid w' = pid w /\ log w' = log w /\
  all_digits s = true /\ s <> "".
Proof.
  unfold nextRandom. destruct (suffixes w) as [|n r]; intros [= <- <-]; cbn [fs sched rand kill0 pid log].
  - do 6 (split; [reflexivity|]). split; [reflexivity|discriminate].
  - do 6 (split; [reflexivity|]). unfold Itoa.
    destruct (Z.of_nat n <? 0)%Z eqn:Hn; [apply Z.ltb_lt in Hn; lia|].
    split; [apply digits_all; [lia|reflexivity]|apply digits_nonempty].
Qed.

Lemma later_same_sched (w w' : World) :
  sched w' = sched w -> kill0 w' = kill0 w -> pid w' = pid w -> later w w'.
Proof. intros Hs Hk Hp. unfold later. rewrite Hs. auto. Qed.

Lemma later_calm (w w' : World) :
  later w w' -> calm (sched w) = true -> calm (sched w') = true.
Proof. intros (_ & _ & H). exact H. Qed.

(** [os.Rename] succeeds only where rename(2) does, and never onto a
    directory. *)
Lemma os_rename_inv (src dst : path) (t t' : node) :
  os_rename src dst t = inr t' ->
  rename src dst t = inr t' /\ forall es, walk dst t <> inr (Dir es).
Proof.
  unfold os_rename. destruct (walk dst t) as [e|[b|es]] eqn:E.
  - intro H. split; [exact H|discriminate].
  - intro H. split; [exact H|discriminate].
  - destruct (walk src t); discriminate.
Qed.

Lemma os_rename_ok (src dst : path) (t t' : node) :
  os_rename src dst t = inr t' -> rename src dst t = inr t'.
Proof. intro H. now apply os_rename_inv. Qed.

Lemma os_rename_not_dir (src dst : path) (t : node) :
  (forall es, walk dst t <> inr (Dir es)) ->
  os_rename src dst t = rename src dst t.
Proof.
  intro H. unfold os_rename. destruct (walk dst t) as [e|[b|es]] eqn:E; try reflexivity.
  now destruct (H es).
Qed.

Lemma os_rename_absent (src dst : path) (t : node) (e : errno) :
  walk dst t = inl e -> os_rename src dst t = rename src dst t.
Proof. intro H. apply os_rename_not_dir. intros es. congruence. Qed.

Lemma os_rename_onto_dir (src dst : path) (t x : node) (es : list (string * node)) :
  walk src t = inr x -> walk dst t = inr (Dir es) ->
  os_rename src dst t = inl EEXIST.
Proof. intros Hs Hd. unfold os_rename. now rewrite Hd, Hs. Qed.

(** The loop of [TempDir] and [TempFile] when no other process acts: on
    success the one effect is that of the last attempt on the name returned;
    on failure there is none. *)
Section TempLoop.

Variable op : path -> node -> errno + node.
Variable create : path -> M error.
Hypothesis create_inv : forall (p : path) (w w' : World) (err : error),
  calm (sched w) = true -> create p w = (err, w') ->
  later w w' /\ log w' = log w /\ rand w' = rand w /\
  match err with
  | None => op p (fs w) = inr (fs w')
  | Some _ => fs w' = fs w
  end.

Lemma temp_loop_inv (n : nat) :
  forall (d : path) (pre suf : string) (w w' : World) (p : path) (r : error),
  calm (sched w) = true ->
  temp_loop n create d pre suf w = ((p, r), w') ->
  later w w' /\ log w' = log w /\ rand w' = rand w /\
  match r with
  | None =>
      (exists rnd, all_digits rnd = true /\ rnd <> "" /\
                   p = d ++ [(pre ++ rnd ++ suf)%string]) /\
      op p (fs w) = inr (fs w')
  | Some e => fs w' = fs w /\ p = []
  end.
Proof.
  induction n as [|n IH]; intros d pre suf w w' p r Hc H.
  - injection H as <- <- <-. repeat split; auto using later_refl.
  - cbn [temp_loop] in H. unfold bind in H.
    destruct (nextRandom w) as [rnd w0] eqn:E0.
    destruct (nextRandom_inv _ _ _ E0) as (F0 & S0 & R0 & K0 & P0 & L0 & Hd & Hne).
    pose proof (later_same_sched _ _ S0 K0 P0) as Hl0.
    destruct (create (d ++ [(pre ++ rnd ++ suf)%string]) w0) as [err w1] eqn:E1.
    assert (Hc0 : calm (sched w0) = true) by (rewrite S0; exact Hc).
    destruct (create_inv _ _ _ _ Hc0 E1) as (Hl1 & L1 & R1 & Hres).
    rewrite F0 in Hres.
    destruct (os_IsExist err) eqn:Hex.
    + destruct err as [e|]; [|discriminate].
      destruct (IH _ _ _ _ _ _ _ (later_calm _ _ Hl1 Hc0) H) as (Hl & L & R & Hr).
      split; [eauto using later_trans|]. split; [congruence|]. split; [congruence|].
      rewrite Hres in Hr. exact Hr.
    + destruct err as [e|]; unfold ret in H; injection H as <- <- <-.
      * split; [eauto using later_trans|]. split; [congruence|]. split; [congruence|].
        auto.
      * split; [eauto using later_trans|]. split; [congruence|]. split; [congruence|].
        split; [|exact Hres]. exists rnd. auto.
Qed.

End TempLoop.

Lemma os_Stat_inv (p : path) (w w' : World) (r : error) :
  calm (sched w) = true -> os_Stat p w = (r, w') ->
  later w w' /\ log w' = log w /\ rand w' = rand w /\ fs w' = fs w.
Proof.
  intros Hc H. unfold os_Stat in H.
  destruct (syscall_read_inv _ _ _ _ _ H) as (Hl & L & _ & R & F & _).
  rewrite (seen_calm _ Hc) in F. auto.
Qed.

Lemma TempDir_try_inv (d p : path) (w w' : World) (err : error) :
  calm (sched w) = true -> TempDir_try d p w = (err, w') ->
  later w w' /\ log w' = log w /\ rand w' = rand w /\
  match err with
  | None => mkdir p (fs w) = inr (fs w')
  | Some _ => fs w' = fs w
  end.
Proof.
  intros Hc H. unfold TempDir_try, bind, os_Mkdir in H.
  destruct (update (mkdir p) w) as [r1 w1] eqn:E1.
  destruct (update_inv _ _ _ _ E1) as (Hl1 & L1 & _ & R1 & Hres).
  rewrite (seen_calm _ Hc) in Hres.
  destruct r1 as [e|]; [|injection H as <- <-; auto].
  destruct Hres as [F1 _].
  destruct (os_IsNotExist e); [|injection H as <- <-; auto].
  destruct (os_Stat d w1) as [r2 w2] eqn:E2.
  destruct (os_Stat_inv _ _ _ _ (later_calm _ _ Hl1 Hc) E2) as (Hl2 & L2 & R2 & F2).
  assert (err <> None /\ w' = w2) as [Hne <-].
  { destruct r2 as [se|]; [destruct (os_IsNotExist se)|];
      injection H as <- <-; split; congruence. }
  split; [eauto using later_trans|]. split; [congruence|]. split; [congruence|].
  destruct err; congruence.
Qed.

Lemma TempFile_try_inv (p : path) (w w' : World) (err : error) :
  calm (sched w) = true -> update (create_excl p) w = (err, w') ->
  later w w' /\ log w' = log w /\ rand w' = rand w /\
  match err with
  | None => create_excl p (fs w) = inr (fs w')
  | Some _ => fs w' = fs w
  end.
Proof.
  intros Hc H. destruct (update_inv _ _ _ _ H) as (Hl & L & _ & R & Hres).
  rewrite (seen_calm _ Hc) in Hres.
  split; [exact Hl|]. split; [exact L|]. split; [exact R|].
  destruct err; tauto.
Qed.

(** What [ioutil.TempDir] and [ioutil.TempFile] do when no other process
    acts. *)
Lemma ioutil_TempDir_inv (d : path) (pattern : string) (w w' : World)
      (p : path) (r : error) :
  calm (sched w) = true ->
  ioutil_TempDir d pattern w = ((p, r), w') ->
  later w w' /\ log w' = log w /\ rand w' = rand w /\
  match r with
  | None => temp_name d pattern p /\ mkdir p (fs w) = inr (fs w')
  | Some e => fs w' = fs w /\ p = []
  end.
Proof.
  intros Hc H. unfold ioutil_TempDir in H.
  destruct (prefixAndSuffix pattern) as [[pre suf]|] eqn:Hps.
  - destruct (temp_loop_inv mkdir _ (TempDir_try_inv d) _ _ _ _ _ _ _ _ Hc H)
      as (Hl & L & R & Hr).
    split; [exact Hl|]. split; [exact L|]. split; [exact R|].
    destruct r as [e|]; [exact Hr|]. destruct Hr as [(rnd & Hd & Hne & ->) Hop].
    split; [|exact Hop]. exists pre, suf, rnd. auto.
  - injection H as <- <- <-. auto using later_refl.
Qed.

Lemma ioutil_TempFile_inv (d : path) (pattern : string) (w w' : World)
      (f : file) (r : error) :
  calm (sched w) = true ->
  ioutil_TempFile d pattern w = ((f, r), w') ->
  later w w' /\ log w' = log w /\ rand w' = rand w /\
  match r with
  | None => temp_name d pattern (file_Name f) /\
            create_excl (file_Name f) (fs w) = inr (fs w')
  | Some e => fs w' = fs w
  end.
Proof.
  intros Hc H. unfold ioutil_TempFile in H.
  destruct (prefixAndSuffix pattern) as [[pre suf]|] eqn:Hps.
  - unfold bind in H.
    destruct (temp_loop _ _ _ _ _ w) as [[p r0] w0] eqn:E0.
    destruct (temp_loop_inv create_excl _ TempFile_try_inv _ _ _ _ _ _ _ _ Hc E0)
      as (Hl & L & R & Hr).
    unfold ret in H. cbn [fst snd] in H. injection H as <- <- <-.
    split; [exact Hl|]. split; [exact L|]. split; [exact R|].
    destruct r0 as [e|]; [tauto|]. destruct Hr as [(rnd & Hd & Hne & ->) Hop].
    cbn [file_Name]. split; [|exact Hop]. exists pre, suf, rnd. auto.
  - injection H as <- <- <-. auto using later_refl.
Qed.

Lemma file_Write_inv (f : file) (data : bytes) (w w' : World) (r : error) :
  calm (sched w) = true ->
  file_Write f data w = (r, w') ->
  later w w' /\ log w' = log w /\
  match r with
  | None => fs w' = append (file_Name f) data (fs w)
  | Some e =>
      fs w' = fs w \/
      exists n, fs w' = append (file_Name f) (firstn n data) (fs w)
  end.
Proof.
  intros Hc H. unfold file_Write, next_event in H.
  assert (Hl : forall t ev r0, sched w = ev :: r0 ->
     later w (set_fs t (mkWorld (fs w) r0 (suffixes w) (rand w) (kill0 w)
                                (pid w) (log w)))).
  { intros t ev r0 Hs. unfold later. cbn. rewrite Hs. cbn.
    repeat split. intro Hcc. apply andb_true_iff in Hcc. tauto. }
  destruct (sched w) as [|[|e|n e|act] r0] eqn:Hs.
  - injection H as <- <-. cbn. repeat split; auto.
  - injection H as <- <-. split; [eapply Hl; eauto|]. cbn. auto.
  - injection H as <- <-. split; [eapply Hl; eauto|]. cbn. auto.
  - injection H as <- <-. split; [eapply Hl; eauto|]. cbn. eauto.
  - discriminate.
Qed.

Lemma file_Close_inv (f : file) (w w' : World) (r : error) :
  calm (sched w) = true ->
  file_Close f w = (r, w') ->
  later w w' /\ log w' = log w /\ fs w' = fs w.
Proof.
  intros Hc H. unfold file_Close in H.
  destruct (syscall_read_inv _ (fun _ => None) _ _ _ H) as (Hl & L & _ & _ & F & _).
  rewrite (seen_calm _ Hc) in F. auto.
Qed.

(** ** Set, step by step *)

(** The effects of [Set] when no other process acts: none when no temporary
    file could be created; otherwise a new file [fn] in [tmp], then what was
    written of it, then (on success only) the rename to the key. *)
Lemma Job_Set_inv (j : Job) (name : string) (data : bytes) (w w' : World)
      (r : error) :
  calm (sched w) = true ->
  Job_Set j name data w = (r, w') ->
  later w w' /\
  ((exists e, r = Some e /\ fs w' = fs w) \/
   exists fn t1 t2,
     temp_name (Join (basedir (q j)) ["tmp"]) name fn /\
     create_excl fn (fs w) = inr t1 /\
     (t2 = t1 \/ exists data', t2 = append fn data' t1) /\
     match r with
     | Some _ => fs w' = t2
     | None =>
         t2 = append fn data t1 /\
         rename fn (Join (dir j) [name]) t2 = inr (fs w') /\
         forall es, walk (Join (dir j) [name]) t2 <> inr (Dir es)
     end).
Proof.
  intros Hc H. unfold Job_Set, bind in H.
  destruct (ioutil_TempFile _ _ w) as [[f r0] w0] eqn:E0.
  destruct (ioutil_TempFile_inv _ _ _ _ _ _ Hc E0) as (Hl0 & _ & _ & Hr0).
  pose proof (later_calm _ _ Hl0 Hc) as Hc0.
  unfold ret in H.
  destruct r0 as [e0|].
  { injection H as <- <-. split; [exact Hl0|]. left. exists e0. tauto. }
  destruct Hr0 as (Hfn & Hcr).
  destruct (file_Write _ data w0) as [r1 w1] eqn:E1.
  destruct (file_Write_inv _ _ _ _ _ Hc0 E1) as (Hl1 & _ & Hr1).
  pose proof (later_calm _ _ Hl1 Hc0) as Hc1.
  destruct r1 as [e1|].
  { injection H as <- <-. split; [eauto using later_trans|]. right.
    exists (file_Name f), (fs w0), (fs w1). split; [exact Hfn|].
    split; [exact Hcr|]. split; [|reflexivity].
    destruct Hr1 as [->|[n ->]]; eauto. }
  destruct (file_Close _ w1) as [r2 w2] eqn:E2.
  destruct (file_Close_inv _ _ _ _ Hc1 E2) as (Hl2 & _ & F2).
  pose proof (later_calm _ _ Hl2 Hc1) as Hc2.
  destruct r2 as [e2|].
  { injection H as <- <-. split; [eauto using later_trans|]. right.
    exists (file_Name f), (fs w0), (fs w1). split; [exact Hfn|].
    split; [exact Hcr|]. split; [eauto|]. exact F2. }
  destruct (os_Rename _ _ w2) as [r3 w3] eqn:E3.
  destruct (update_inv _ _ _ _ E3) as (Hl3 & _ & _ & _ & Hr3).
  rewrite (seen_calm _ Hc2), F2 in Hr3.
  destruct r3 as [e3|].
  - unfold log_Println in H. injection H as <- <-.
    split.
    { apply (later_trans _ w3); [eauto using later_trans|].
      apply later_same_sched; reflexivity. }
    right. exists (file_Name f), (fs w0), (fs w1). split; [exact Hfn|].
    split; [exact Hcr|]. split; [eauto|].
    cbn. tauto.
  - injection H as <- <-. split; [eauto using later_trans|]. right.
    exists (file_Name f), (fs w0), (fs w1). split; [exact Hfn|].
    split; [exact Hcr|]. split; [eauto|].
    split; [exact Hr1|]. now apply os_rename_inv.
Qed.

Lemma readfile_file (p : path) (t : node) (b : bytes) :
  readfile p t = inr b <-> walk p t = inr (File b).
Proof.
  unfold readfile. destruct (walk p t) as [e|[b'|es]]; split; intro H;
    try discriminate; congruence.
Qed.

(** Putting a node where there was no directory leaves every file that is
    elsewhere as it was. *)
Lemma put_keeps_file (d : path) (c : string) (x : node) (q : path) (t : node)
      (es : list (string * node)) (b : bytes) :
  walk d t = inr (Dir es) -> walk q t = inr (File b) -> q <> d ++ [c] ->
  (forall es', walk (d ++ [c]) t <> inr (Dir es')) ->
  walk q (put (d ++ [c]) x t) = inr (File b).
Proof.
  intros Hd Hq Hne Hnd. apply (put_fresh_file _ _ _ _ _ _ _ Hd Hq Hne).
  intros r ->. destruct r as [|a r]; [now rewrite app_nil_r in Hne|].
  destruct (walk (d ++ [c]) t) as [e|[b'|es']] eqn:E.
  - rewrite (walk_below_error _ (a :: r) _ _ E) in Hq. discriminate.
  - rewrite (walk_below_file _ (a :: r) _ _ E) in Hq; discriminate.
  - now apply (Hnd es').
Qed.

Lemma create_excl_spec (fn : path) (t t1 : node) :
  create_excl fn t = inr t1 ->
  walk fn t1 = inr (File []) /\
  (exists e, walk fn t = inl e) /\
  (forall q b, walk q t = inr (File b) -> walk q t1 = inr (File b)) /\
  exists d c es, fn = d ++ [c] /\ walk d t = inr (Dir es) /\
                 assoc c es = None /\
                 walk d t1 = inr (Dir (es ++ [(c, File [])])).
Proof.
  intro H. destruct (create_excl_inv _ _ _ H) as (d & c & es & e & -> & Hd & He & ->).
  split; [|split; [|split]].
  - rewrite <- (app_nil_r (d ++ [c])) at 1. now rewrite (walk_put_at _ _ _ _ _ _ Hd).
  - eauto.
  - intros q b Hq. apply (put_keeps_file _ _ _ _ _ _ _ Hd Hq).
    + intros ->. congruence.
    + intros es'. congruence.
  - exists d, c, es. split; [reflexivity|]. split; [exact Hd|].
    rewrite (walk_snoc _ _ _ _ Hd) in He.
    destruct (assoc c es) as [x|] eqn:Ea; [discriminate|]. split; [reflexivity|].
    rewrite (walk_put_parent _ _ _ _ _ Hd). do 2 f_equal.
    clear -Ea. induction es as [|[c' n] es IH]; [reflexivity|].
    cbn in *. destruct (String.eqb c' c); [discriminate|]. now rewrite IH.
Qed.

Lemma append_spec (fn : path) (data : bytes) (t : node) (b0 : bytes) :
  walk fn t = inr (File b0) ->
  walk fn (append fn data t) = inr (File (b0 ++ data)) /\
  (forall q b, q <> fn -> walk q t = inr (File b) ->
               walk q (append fn data t) = inr (File b)).
Proof.
  intro Hf. unfold append. rewrite Hf.
  destruct fn as [|a fn']; [cbn in *; split; [reflexivity|]|].
  - intros q b Hq Hw. destruct q; [congruence|]. injection Hf as ->. discriminate.
  - destruct (path_snoc (a :: fn') ltac:(discriminate)) as (d & c & E).
    rewrite E in *. destruct (walk_snoc_inv _ _ _ _ Hf) as (es & Hd & _).
    split.
    + rewrite <- (app_nil_r (d ++ [c])) at 1. now rewrite (walk_put_at _ _ _ _ _ _ Hd).
    + intros q b Hq Hw. apply (put_keeps_file _ _ _ _ _ _ _ Hd Hw Hq).
      intros es'. congruence.
Qed.

Lemma Job_Get_reads (j : Job) (name : string) (d : bytes) (w : World) :
  calm (sched w) = true ->
  faulty (hd Quiet (sched w)) = false ->
  readfile (Join (dir j) [name]) (fs w) = inr d ->
  exists w', Job_Get j name w = ((d, None), w') /\ fs w' = fs w.
Proof.
  intros Hc Hf Hr. unfold Job_Get.
  destruct (ioutil_ReadFile _ w) as [[d' r] w'] eqn:E.
  destruct (ioutil_ReadFile_inv _ _ _ _ _ E) as (_ & _ & _ & _ & F & Hres).
  rewrite (seen_calm _ Hc) in *. exists w'. split; [|exact F].
  destruct r as [e|].
  - destruct Hres as [_ He]. rewrite (He Hf) in Hr. discriminate.
  - rewrite Hr in Hres. injection Hres as <-. reflexivity.
Qed.

(** ** Quiet runs *)

Lemma quiet_calm (evs : list event) : quiet evs = true -> calm evs = true.
Proof.
  induction evs as [|[| | |] evs IH]; cbn; try discriminate; auto.
Qed.

Lemma quiet_hd (evs : list event) : quiet evs = true -> hd Quiet evs = Quiet.
Proof. destruct evs as [|[| | |] evs]; cbn; try discriminate; auto. Qed.

Lemma quiet_tl (evs : list event) : quiet evs = true -> quiet (tl evs) = true.
Proof. destruct evs as [|[| | |] evs]; cbn; try discriminate; auto. Qed.

Lemma update_quiet (op : node -> errno + node) (w w' : World) (r : error) :
  quiet (sched w) = true ->
  update op w = (r, w') ->
  quiet (sched w') = true /\ pid w' = pid w /\ kill0 w' = kill0 w /\
  log w' = log w /\ rand w' = rand w /\ suffixes w' = suffixes w /\
  match op (fs w) with
  | inl e => r = Some e /\ fs w' = fs w
  | inr t' => r = None /\ fs w' = t'
  end.
Proof.
  intros Hq H. unfold update in H.
  destruct (syscall_inv _ _ _ _ _ H) as (Hs & Hsf & Hr & Hk & Hp & Hl & Hev).
  rewrite (quiet_hd _ Hq), (seen_calm _ (quiet_calm _ Hq)) in Hev.
  split; [rewrite Hs; now apply quiet_tl|].
  repeat (split; [assumption|]).
  destruct (op (fs w)); injection Hev as <- <-; auto.
Qed.

Lemma os_Readdirnames_quiet (p : path) (w w' : World) (l : list string)
      (r : error) :
  quiet (sched w) = true ->
  os_Readdirnames p w = ((l, r), w') ->
  quiet (sched w') = true /\ pid w' = pid w /\ kill0 w' = kill0 w /\
  log w' = log w /\ rand w' = rand w /\ suffixes w' = suffixes w /\
  fs w' = fs w /\
  match readdir p (fs w) with
  | inl e => r = Some e /\ l = []
  | inr l' => r = None /\ l = l'
  end.
Proof.
  intros Hq H. unfold os_Readdirnames in H.
  destruct (syscall_inv _ _ _ _ _ H) as (Hs & Hsf & Hr & Hk & Hp & Hl & Hev).
  rewrite (quiet_hd _ Hq), (seen_calm _ (quiet_calm _ Hq)) in Hev.
  split; [rewrite Hs; now apply quiet_tl|].
  repeat (split; [assumption|]).
  destruct (readdir p (fs w)); injection Hev as <- <- <-; auto.
Qed.

(** ** Trees that grow *)

Lemma same_kind_inr_dir (a : errno + node) (es : list (string * node)) :
  same_kind (inr (Dir es)) a -> exists es', a = inr (Dir es').
Proof. destruct a as [e|[b|es']]; cbn; try tauto. eauto. Qed.

Lemma same_kind_inr (x : node) (a : errno + node) :
  same_kind (inr x) a -> exists y, a = inr y /\ is_dir y = is_dir x.
Proof.
  destruct x as [b|es], a as [e|[b'|es']]; cbn; try tauto; intro H; eauto.
Qed.

Lemma grown_refl (ps : list path) (t : node) : grown ps t t.
Proof. split; intros q x H; [apply same_kind_refl|eauto]. Qed.

Lemma grown_trans (ps : list path) (t1 t2 t3 : node) :
  grown ps t1 t2 -> grown ps t2 t3 -> grown ps t1 t3.
Proof.
  intros [A1 B1] [A2 B2]. split.
  - intros q x H. pose proof (A1 _ _ H) as K1. rewrite H in K1.
    destruct (same_kind_inr _ _ K1) as (y & Hy & _).
    rewrite H. apply (same_kind_trans _ (walk q t2)); [exact K1|].
    rewrite Hy. rewrite <- Hy at 1. now apply (A2 _ y).
  - intros q x H. destruct (B2 _ _ H) as [[y Hy]|K]; [|now right].
    destruct (B1 _ _ Hy) as [K|[Hin Hd]]; [now left|]. right. split; [exact Hin|].
    pose proof (A2 _ _ Hy) as K2. rewrite Hy, H in K2.
    destruct (same_kind_inr _ _ K2) as (z & [= <-] & E). congruence.
Qed.

Lemma grown_weaken (ps ps' : list path) (t t' : node) :
  incl ps ps' -> grown ps t t' -> grown ps' t t'.
Proof.
  intros Hi [A B]. split; [exact A|]. intros q x H.
  destruct (B _ _ H) as [K|[K1 K2]]; auto.
Qed.

Lemma grown_keeps_dir (ps : list path) (t t' : node) (q : path)
      (es : list (string * node)) :
  grown ps t t' -> walk q t = inr (Dir es) -> exists es', walk q t' = inr (Dir es').
Proof.
  intros [A _] H. pose proof (A _ _ H) as K. rewrite H in K.
  now apply same_kind_inr_dir in K.
Qed.

Lemma grown_put (d : path) (c : string) (t : node) (es : list (string * node))
      (e : errno) :
  walk d t = inr (Dir es) -> walk (d ++ [c]) t = inl e ->
  grown [d ++ [c]] t (put (d ++ [c]) (Dir []) t).
Proof.
  intros Hd He. split.
  - intros q x Hq. apply walk_put_kind.
    destruct (prefix (d ++ [c]) q) eqn:Hp; [|reflexivity].
    destruct (prefix_inv _ _ Hp) as [r ->].
    rewrite (walk_below_error _ r _ _ He) in Hq. discriminate.
  - intros q x Hq. destruct (prefix (d ++ [c]) q) eqn:Hp.
    + destruct (prefix_inv _ _ Hp) as [r ->].
      rewrite (walk_put_at _ _ _ _ _ _ Hd) in Hq. right.
      destruct r as [|a r]; [|discriminate]. injection Hq as <-.
      rewrite app_nil_r. split; [now left|reflexivity].
    + left. pose proof (walk_put_kind d c (Dir []) q t Hp) as K.
      rewrite Hq in K. destruct (walk q t) as [e'|y]; [|eauto].
      destruct x; contradiction.
Qed.

(** ** OpenQueue, step by step *)

Lemma ensuredir_quiet (b : path) (parts : list string) (dd : path) (c : string)
      (w : World) (es : list (string * node)) :
  quiet (sched w) = true ->
  Join b parts = dd ++ [c] ->
  walk dd (fs w) = inr (Dir es) ->
  (forall x, walk (dd ++ [c]) (fs w) = inr x -> is_dir x = true) ->
  exists w', ensuredir b parts w = (None, w') /\
    quiet (sched w') = true /\ pid w' = pid w /\ log w' = log w /\
    grown [dd ++ [c]] (fs w) (fs w') /\
    (exists es', walk (dd ++ [c]) (fs w') = inr (Dir es')) /\
    ((exists x, walk (dd ++ [c]) (fs w) = inr x) -> fs w' = fs w).
Proof.
  intros Hq Hj Hd Hk. unfold ensuredir, bind, os_Mkdir. rewrite Hj.
  destruct (update (mkdir (dd ++ [c])) w) as [err w'] eqn:E.
  destruct (update_quiet _ _ _ _ Hq E) as (Hq' & Hp & _ & Hl & _ & _ & Hres).
  exists w'. destruct (walk (dd ++ [c]) (fs w)) as [e|x] eqn:Hw.
  - rewrite (mkdir_new _ _ _ _ _ Hd Hw) in Hres. destruct Hres as [-> F].
    cbn. repeat (split; [auto; fail|]). rewrite F.
    split; [now apply (grown_put _ _ _ _ _ Hd Hw)|]. split.
    + exists []. rewrite <- (app_nil_r (dd ++ [c])) at 1.
      now rewrite (walk_put_at _ _ _ _ _ _ Hd).
    + intros [x Hx]. discriminate.
  - rewrite (mkdir_exists _ _ _ Hw) in Hres. destruct Hres as [-> F].
    cbn. repeat (split; [auto; fail|]). rewrite F.
    split; [apply grown_refl|]. split; [|reflexivity].
    specialize (Hk x eq_refl). destruct x as [bts|es']; [discriminate|]. eauto.
Qed.

Lemma ensuredir_existing (b : path) (parts : list string) (w : World) (x : node) :
  quiet (sched w) = true ->
  walk (Join b parts) (fs w) = inr x ->
  exists w', ensuredir b parts w = (None, w') /\
    quiet (sched w') = true /\ pid w' = pid w /\ log w' = log w /\
    fs w' = fs w.
Proof.
  intros Hq Hw. unfold ensuredir, bind, os_Mkdir.
  destruct (update (mkdir (Join b parts)) w) as [err w'] eqn:E.
  destruct (update_quiet _ _ _ _ Hq E) as (Hq' & Hp & _ & Hl & _ & _ & Hres).
  rewrite (mkdir_exists _ _ _ Hw) in Hres. destruct Hres as [-> F].
  exists w'. cbn. auto.
Qed.

Lemma OpenQueue_range_app (qu : Queue) (l1 l2 : list string) (w : World) :
  OpenQueue_range qu (l1 ++ l2) w =
  let (err, w1) := OpenQueue_range qu l1 w in
  match err with
  | Some e => (Some e, w1)
  | None => OpenQueue_range qu l2 w1
  end.
Proof.
  revert w. induction l1 as [|n l1 IH]; intro w; [reflexivity|].
  cbn [app OpenQueue_range]. unfold bind.
  destruct (ensuredir (basedir qu) [n] w) as [[e|] w1]; [reflexivity|]. apply IH.
Qed.

Lemma OpenQueue_range_flat (qu : Queue) (ds : list string) :
  forall (w : World) (es : list (string * node)),
  quiet (sched w) = true ->
  Forall (fun n => plain n = true) ds ->
  walk (basedir qu) (fs w) = inr (Dir es) ->
  (forall n x, In n ds -> walk (basedir qu ++ [n]) (fs w) = inr x ->
               is_dir x = true) ->
  exists w', OpenQueue_range qu ds w = (None, w') /\
    quiet (sched w') = true /\ pid w' = pid w /\ log w' = log w /\
    grown (map (fun n => basedir qu ++ [n]) ds) (fs w) (fs w') /\
    (forall n, In n ds -> exists es', walk (basedir qu ++ [n]) (fs w') = inr (Dir es')).
Proof.
  induction ds as [|n ds IH]; intros w es Hq Hpl Hb Hk.
  - exists w. cbn. split; [reflexivity|]. split; [assumption|].
    split; [reflexivity|]. split; [reflexivity|]. split; [apply grown_refl|].
    intros n [].
  - inversion Hpl as [|? ? Hn Hpl']; subst.
    destruct (ensuredir_quiet (basedir qu) [n] (basedir qu) n w es Hq
                (Join_plain _ _ Hn) Hb (fun x => Hk n x (or_introl eq_refl)))
      as (w1 & E1 & Hq1 & Hp1 & Hl1 & Hg1 & Hn1 & _).
    destruct (grown_keeps_dir _ _ _ _ _ Hg1 Hb) as [es1 Hb1].
    destruct (IH w1 es1 Hq1 Hpl' Hb1) as (w' & E & Hq' & Hp' & Hl' & Hg & Hall).
    { intros m x Hm Hx. destruct Hg1 as [A B].
      destruct (B _ _ Hx) as [[y Hy]|[_ K]]; [|exact K].
      pose proof (A _ _ Hy) as S. rewrite Hy, Hx in S.
      destruct (same_kind_inr _ _ S) as (z & [= <-] & ->).
      apply (Hk m y); auto using in_cons. }
    exists w'. cbn [OpenQueue_range]. unfold bind. rewrite E1.
    split; [exact E|]. split; [exact Hq'|]. split; [congruence|].
    split; [congruence|]. split.
    + apply (grown_trans _ _ (fs w1)).
      * eapply grown_weaken; [|exact Hg1]. intros p [<-|[]]. now left.
      * eapply grown_weaken; [|exact Hg]. intros p Hp. now right.
    + intros m [<-|Hm]; [|now apply Hall].
      destruct Hn1 as [es' He']. now apply (grown_keeps_dir _ _ _ _ _ Hg He').
Qed.

Lemma OpenQueue_range_existing (qu : Queue) (ds : list string) :
  forall (w : World),
  quiet (sched w) = true ->
  (forall n, In n ds -> exists x, walk (Join (basedir qu) [n]) (fs w) = inr x) ->
  exists w', OpenQueue_range qu ds w = (None, w') /\
    quiet (sched w') = true /\ pid w' = pid w /\ log w' = log w /\
    fs w' = fs w.
Proof.
  induction ds as [|n ds IH]; intros w Hq Hex.
  - exists w. cbn. auto.
  - destruct (Hex n (or_introl eq_refl)) as [x Hx].
    destruct (ensuredir_existing _ _ _ _ Hq Hx) as (w1 & E1 & Hq1 & Hp1 & Hl1 & F1).
    destruct (IH w1 Hq1) as (w' & E & Hq' & Hp' & Hl' & F').
    { intros m Hm. rewrite F1. apply Hex. now right. }
    exists w'. cbn [OpenQueue_range]. unfold bind. rewrite E1.
    repeat split; congruence.
Qed.

(** ** Well-formed trees *)

Lemma wf_entry (es : list (string * node)) (c : string) (x : node) :
  Forall (fun e => plain (fst e) = true /\ wf (snd e)) es ->
  assoc c es = Some x -> plain c = true /\ wf x.
Proof.
  induction es as [|[c' n] es IH]; cbn; intros Hf Ha; [discriminate|].
  inversion Hf as [|? ? [Hp Hw] Hf']; subst. cbn in *.
  destruct (String.eqb c' c) eqn:E.
  - apply String.eqb_eq in E. subst. injection Ha as <-. auto.
  - auto.
Qed.

Lemma wf_walk (p : path) : forall (t x : node),
  wf t -> walk p t = inr x -> wf x.
Proof.
  induction p as [|c p IH]; intros t x Hw H; cbn in H.
  - congruence.
  - destruct t as [b|es]; [discriminate|].
    destruct (assoc c es) as [t'|] eqn:Ea; [|discriminate].
    inversion Hw as [|? _ Hf]; subst.
    apply (IH t' x); [|exact H]. now apply (wf_entry _ _ _ Hf Ea).
Qed.

Lemma wf_names_plain (es : list (string * node)) :
  wf (Dir es) -> Forall (fun n => plain n = true) (names es).
Proof.
  intro Hw. inversion Hw as [|? _ Hf]; subst. unfold names.
  rewrite Forall_map. eapply Forall_impl; [|exact Hf]. cbn. tauto.
Qed.

Lemma readdir_plain (p : path) (t : node) (l : list string) :
  wf t -> readdir p t = inr l ->
  Forall (fun n => plain n = true) l /\ NoDup l.
Proof.
  unfold readdir. intros Hw H.
  destruct (walk p t) as [e|[b|es]] eqn:E; try discriminate.
  injection H as <-. pose proof (wf_walk _ _ _ Hw E) as Hd.
  split; [now apply wf_names_plain|]. now inversion Hd.
Qed.

Lemma Forall_set_entry (P : string * node -> Prop) (c : string) (x : node)
      (es : list (string * node)) :
  Forall P es -> P (c, x) -> Forall P (set_entry c x es).
Proof.
  intros Hf Hx. induction Hf as [|[c' n] es Hn Hf IH]; cbn.
  - auto.
  - destruct (String.eqb c' c); auto.
Qed.

Lemma NoDup_set_entry (c : string) (x : node) (es : list (string * node)) :
  NoDup (names es) -> NoDup (names (set_entry c x es)).
Proof.
  intro H. rewrite names_set_entry.
  destruct (assoc c es) as [y|] eqn:E; [exact H|].
  apply assoc_None in E. clear -H E.
  induction (names es) as [|a l IH]; cbn.
  - constructor; [intros []|constructor].
  - inversion H as [|? ? Ha Hl]; subst. constructor.
    + rewrite in_app_iff. cbn. intros [K|[K|[]]]; [auto|].
      subst. apply E. now left.
    + apply IH; [exact Hl|]. intro K. apply E. now right.
Qed.

Lemma NoDup_del_entry (c : string) (es : list (string * node)) :
  NoDup (names es) -> NoDup (names (del_entry c es)).
Proof.
  unfold names, del_entry. induction es as [|[c' n] es IH]; cbn; intro H.
  - constructor.
  - inversion H as [|? ? Ha Hl]; subst.
    destruct (String.eqb c' c); cbn; [auto|]. constructor; [|auto].
    intro K. apply Ha. apply in_map_iff in K as (e & He & Hin).
    apply filter_In in Hin as [Hin _]. apply in_map_iff. eauto.
Qed.

Lemma Forall_del_entry (P : string * node -> Prop) (c : string)
      (es : list (string * node)) :
  Forall P es -> Forall P (del_entry c es).
Proof.
  unfold del_entry. intro H. rewrite Forall_forall in *. intros e He.
  apply filter_In in He as [He _]. auto.
Qed.

(** A change of the entries of one directory that keeps them well formed
    keeps the tree well formed. *)
Lemma wf_upd (f : list (string * node) -> list (string * node)) :
  (forall es, wf (Dir es) -> wf (Dir (f es))) ->
  forall (d : path) (t : node), wf t -> wf (upd d f t).
Proof.
  intros Hf. induction d as [|c d IH]; intros t Hw.
  - destruct t as [b|es]; cbn; auto.
  - destruct t as [b|es]; cbn; [exact Hw|].
    destruct (assoc c es) as [t'|] eqn:Ea; [|exact Hw].
    inversion Hw as [|? Hn Hall]; subst.
    destruct (wf_entry _ _ _ Hall Ea) as [Hp Hw'].
    constructor.
    + now apply NoDup_set_entry.
    + apply Forall_set_entry; [exact Hall|]. cbn. auto.
Qed.

Lemma wf_put (d : path) (c : string) (x t : node) :
  wf t -> wf x -> plain c = true -> wf (put (d ++ [c]) x t).
Proof.
  intros Ht Hx Hc. rewrite put_snoc. apply wf_upd; [|exact Ht].
  intros es Hes. inversion Hes as [|? Hn Hall]; subst. constructor.
  - now apply NoDup_set_entry.
  - apply Forall_set_entry; [exact Hall|]. cbn. auto.
Qed.

Lemma wf_del (p : path) (t : node) : wf t -> wf (del p t).
Proof.
  intro Ht. destruct p as [|a p]; [exact Ht|].
  destruct (path_snoc (a :: p) ltac:(discriminate)) as (d & c & ->).
  rewrite del_snoc. apply wf_upd; [|exact Ht].
  intros es Hes. inversion Hes as [|? Hn Hall]; subst. constructor.
  - now apply NoDup_del_entry.
  - now apply Forall_del_entry.
Qed.

Lemma wf_rename (src dd : path) (cd : string) (t t' : node) :
  wf t -> plain cd = true -> rename src (dd ++ [cd]) t = inr t' -> wf t'.
Proof.
  intros Ht Hc H.
  destruct (rename_inv _ _ _ _ H) as (x & es & Hx & _ & _ & _ & Hcase).
  destruct Hcase as [[_ ->]|(_ & _ & -> & _)]; [exact Ht|].
  apply wf_put; [now apply wf_del|now apply (wf_walk _ _ _ Ht Hx)|exact Hc].
Qed.

Lemma remove_inv (p : path) (t t' : node) :
  remove p t = inr t' ->
  p <> [] /\ t' = del p t /\
  (exists b, walk p t = inr (File b)) \/
  p <> [] /\ t' = del p t /\ walk p t = inr (Dir []).
Proof.
  unfold remove. destruct p as [|a p]; [discriminate|].
  destruct (walk (a :: p) t) as [e|[b|[|e es]]]; try discriminate;
    intros [= <-]; [left|right]; repeat split; eauto; discriminate.
Qed.

Lemma wf_remove (p : path) (t t' : node) : wf t -> remove p t = inr t' -> wf t'.
Proof.
  intros Ht H.
  destruct (remove_inv _ _ _ H) as [(_ & -> & _)|(_ & -> & _)]; now apply wf_del.
Qed.

(** ** Runs in which no other process acts *)

Lemma log_Println_inv (m : logmsg) (w w' : World) :
  log_Println m w = (tt, w') ->
  fs w' = fs w /\ sched w' = sched w /\ kill0 w' = kill0 w /\ pid w' = pid w /\
  rand w' = rand w /\ suffixes w' = suffixes w /\ log w' = log w ++ [m].
Proof. unfold log_Println. intros [= <-]. cbn. auto 10. Qed.

Lemma log_Println_later (m : logmsg) (w w' : World) :
  log_Println m w = (tt, w') ->
  later w w' /\ incl (log w) (log w') /\ In m (log w') /\ fs w' = fs w.
Proof.
  intro H. destruct (log_Println_inv _ _ _ H) as (F & S & K & P & _ & _ & L).
  split; [now apply later_same_sched|]. rewrite L.
  split; [apply incl_appl, incl_refl|]. split; [|exact F].
  apply in_or_app. right. now left.
Qed.

Lemma update_calm (op : node -> errno + node) (w w' : World) (r : error) :
  calm (sched w) = true ->
  update op w = (r, w') ->
  later w w' /\ log w' = log w /\
  (fs w' = fs w \/ r = None /\ op (fs w) = inr (fs w')).
Proof.
  intros Hc H. destruct (update_inv _ _ _ _ H) as (Hl & L & _ & _ & Hres).
  rewrite (seen_calm _ Hc) in Hres. split; [exact Hl|]. split; [exact L|].
  destruct r as [e|]; [left; tauto|right; auto].
Qed.

Lemma os_Rename_calm (src dst : path) (w w' : World) (r : error) :
  calm (sched w) = true ->
  os_Rename src dst w = (r, w') ->
  later w w' /\ log w' = log w /\
  (fs w' = fs w \/ r = None /\ rename src dst (fs w) = inr (fs w')).
Proof.
  intros Hc H. destruct (update_calm _ _ _ _ Hc H) as (Hl & L & [F|[-> Hop]]).
  - auto.
  - split; [exact Hl|]. split; [exact L|]. right. split; [reflexivity|].
    now apply os_rename_ok.
Qed.

Lemma os_Readdirnames_calm (p : path) (w w' : World) (l : list string)
      (r : error) :
  calm (sched w) = true ->
  os_Readdirnames p w = ((l, r), w') ->
  later w w' /\ log w' = log w /\ fs w' = fs w /\
  (l = [] \/ readdir p (fs w) = inr l).
Proof.
  intros Hc H.
  destruct (os_Readdirnames_inv _ _ _ _ _ H) as (Hl & L & _ & _ & F & Hres).
  rewrite (seen_calm _ Hc) in *. repeat (split; [assumption|]).
  destruct r as [e|]; [left; tauto|right; exact Hres].
Qed.

Lemma prefix_slot_other (b : path) (i s : string) (r : path) :
  i <> s ->
  prefix (b ++ ["cur"; i] ++ r) (b ++ ["cur"; s]) = false /\
  prefix (b ++ ["cur"; s]) (b ++ ["cur"; i] ++ r) = false.
Proof.
  intro H. rewrite !prefix_app_both. cbn.
  assert (E1 : String.eqb i s = false) by now apply String.eqb_neq.
  assert (E2 : String.eqb s i = false) by (apply String.eqb_neq; congruence).
  now rewrite E1, E2.
Qed.

Lemma prefix_new_slot (b : path) (s : string) (r : path) :
  prefix (b ++ ["new"] ++ r) (b ++ ["cur"; s]) = false /\
  prefix (b ++ ["cur"; s]) (b ++ ["new"] ++ r) = false.
Proof. rewrite !prefix_app_both. cbn. auto. Qed.

(** A rescue from the slot of another process leaves the slot [s] alone. *)
Lemma rescue_range_frame (qu : Queue) (p' : Z) (s : string) (l : list string) :
  Itoa p' <> s ->
  Forall (fun n => plain n = true) l ->
  forall w w', calm (sched w) = true -> wf (fs w) ->
  rescueDeadJobsFrom_range qu p' (Queue_getWorkerDir qu p') l w = (tt, w') ->
  later w w' /\ incl (log w) (log w') /\ wf (fs w') /\
  walk (basedir qu ++ ["cur"; s]) (fs w')
    = walk (basedir qu ++ ["cur"; s]) (fs w).
Proof.
  intros Hne Hpl. induction Hpl as [|y l Hy _ IH]; intros w w' Hc Hw H.
  - injection H as <-. auto using later_refl, incl_refl.
  - cbn [rescueDeadJobsFrom_range] in H. unfold bind in H.
    rewrite getWorkerDir_eq, getNewDir_eq, !(Join_plain _ _ Hy) in H.
    destruct (os_Rename _ _ w) as [r w1] eqn:E1.
    destruct (os_Rename_calm _ _ _ _ _ Hc E1) as (Hl1 & L1 & Hfs1).
    assert (K1 : wf (fs w1) /\
                 walk (basedir qu ++ ["cur"; s]) (fs w1)
                 = walk (basedir qu ++ ["cur"; s]) (fs w)).
    { destruct Hfs1 as [->|[_ Hop]]; [auto|].
      split; [now apply (wf_rename _ _ _ _ _ Hw Hy Hop)|].
      destruct (prefix_slot_other (basedir qu) (Itoa p') s [y] Hne) as [P1 P2].
      destruct (prefix_new_slot (basedir qu) s [y]) as [P3 P4].
      rewrite <- !app_assoc in Hop.
      now apply (rename_frame _ _ _ _ _ Hop). }
    destruct K1 as [Hw1 Hf1].
    set (m := match r with
              | Some e => LogRescheduleFailed y p' e
              | None => LogRescheduled y p'
              end).
    assert (E2 : match r with
                 | Some e => log_Println (LogRescheduleFailed y p' e)
                 | None => log_Println (LogRescheduled y p')
                 end = log_Println m) by now destruct r.
    rewrite E2 in H.
    destruct (log_Println m w1) as [[] w2] eqn:E3.
    destruct (log_Println_later _ _ _ E3) as (Hl2 & L2 & _ & F2).
    rewrite <- getWorkerDir_eq in H.
    destruct (IH w2 w') as (Hl3 & L3 & Hw3 & Hf3).
    + eauto using later_calm.
    + now rewrite F2.
    + exact H.
    + split; [eauto using later_trans|]. split.
      * apply (incl_tran (m := log w2)); [|exact L3]. now rewrite <- L1.
      * split; [exact Hw3|]. now rewrite Hf3, F2.
Qed.

Lemma rescueDeadJobsFrom_frame (qu : Queue) (p' : Z) (s : string) (w w' : World) :
  Itoa p' <> s -> calm (sched w) = true -> wf (fs w) ->
  Queue_rescueDeadJobsFrom qu p' w = (tt, w') ->
  later w w' /\ incl (log w) (log w') /\ wf (fs w') /\
  walk (basedir qu ++ ["cur"; s]) (fs w')
    = walk (basedir qu ++ ["cur"; s]) (fs w).
Proof.
  intros Hne Hc Hw H. unfold Queue_rescueDeadJobsFrom, readdirnames, bind in H.
  destruct (os_Readdirnames _ w) as [[l r] w1] eqn:E1.
  destruct (os_Readdirnames_calm _ _ _ _ _ Hc E1) as (Hl1 & L1 & F1 & Hl).
  assert (Hpl : Forall (fun n => plain n = true) l).
  { destruct Hl as [->|Hl]; [constructor|].
    now destruct (readdir_plain _ _ _ Hw Hl). }
  assert (E2 : exists w2,
            (match r with
             | Some _ => log_Println (LogReadSlotFailed p' (Queue_getWorkerDir qu p'))
             | None => ret tt
             end) w1 = (tt, w2) /\
            later w1 w2 /\ incl (log w1) (log w2) /\ fs w2 = fs w1).
  { destruct r as [e|].
    - destruct (log_Println _ w1) as [[] w2] eqn:E.
      destruct (log_Println_later _ _ _ E) as (A & B & _ & C). eauto 6.
    - exists w1. unfold ret. auto using later_refl, incl_refl. }
  destruct E2 as (w2 & E2 & Hl2 & L2 & F2). rewrite E2 in H.
  destruct (rescue_range_frame qu p' s l Hne Hpl w2 w') as (Hl3 & L3 & Hw3 & Hf3).
  - eauto using later_calm.
  - now rewrite F2, F1.
  - exact H.
  - split; [eauto using later_trans|]. split.
    + apply (incl_tran (m := log w2)); [|exact L3]. now rewrite <- L1.
    + split; [exact Hw3|]. now rewrite Hf3, F2, F1.
Qed.

Lemma os_Remove_slot_frame (qu : Queue) (p' : Z) (s : string) (w w' : World)
      (r : error) :
  Itoa p' <> s -> calm (sched w) = true -> wf (fs w) ->
  os_Remove (Queue_getWorkerDir qu p') w = (r, w') ->
  later w w' /\ log w' = log w /\ wf (fs w') /\
  walk (basedir qu ++ ["cur"; s]) (fs w')
    = walk (basedir qu ++ ["cur"; s]) (fs w).
Proof.
  intros Hne Hc Hw H.
  destruct (update_calm _ _ _ _ Hc H) as (Hl & L & Hfs).
  split; [exact Hl|]. split; [exact L|].
  destruct Hfs as [->|[_ Hop]]; [auto|].
  split; [now apply (wf_remove _ _ _ Hw Hop)|].
  rewrite getWorkerDir_eq in Hop.
  destruct (remove_inv _ _ _ Hop) as [(_ & -> & _)|(_ & -> & _)];
    destruct (prefix_slot_other (basedir qu) (Itoa p') s [] Hne) as [P1 P2];
    change (basedir qu ++ ["cur"; Itoa p'])
      with (basedir qu ++ ["cur"] ++ [Itoa p']);
    rewrite app_assoc; apply walk_del_frame; rewrite <- app_assoc; assumption.
Qed.

(** One turn of the loop of [RescueDeadJobs] leaves the slot [s] alone,
    unless it rescues from that very slot. *)
Lemma RescueDeadJobs_body_frame (qu : Queue) (s s' : string) (w w' : World) :
  calm (sched w) = true -> wf (fs w) ->
  (forall p', Atoi s' = (p', None) -> kill0 w p' = Some ESRCH -> Itoa p' <> s) ->
  RescueDeadJobs_body qu s' w = (tt, w') ->
  later w w' /\ incl (log w) (log w') /\ wf (fs w') /\
  walk (basedir qu ++ ["cur"; s]) (fs w')
    = walk (basedir qu ++ ["cur"; s]) (fs w).
Proof.
  intros Hc Hw Hne H. unfold RescueDeadJobs_body in H.
  destruct (Atoi s') as [p' [ea|]] eqn:Ea.
  { destruct (log_Println_later _ _ _ H) as (A & B & _ & C).
    rewrite C. auto. }
  unfold processExists, syscall_Kill0, bind in H.
  destruct (kill0 w p') as [e|] eqn:Ek.
  - destruct (errno_eqb e ESRCH) eqn:Ee.
    + apply errno_eqb_eq in Ee. subst e. specialize (Hne p' eq_refl Ek).
      unfold ret in H. cbn [negb] in H.
      destruct (log_Println (LogGoneAway p') w) as [[] w1] eqn:E1.
      destruct (log_Println_later _ _ _ E1) as (Hl1 & L1 & _ & F1).
      destruct (Queue_rescueDeadJobsFrom qu p' w1) as [[] w2] eqn:E2.
      destruct (rescueDeadJobsFrom_frame _ _ _ _ _ Hne
                  (later_calm _ _ Hl1 Hc) ltac:(now rewrite F1) E2)
        as (Hl2 & L2 & Hw2 & Hf2).
      destruct (os_Remove _ w2) as [r w3] eqn:E3.
      destruct (os_Remove_slot_frame _ _ _ _ _ _ Hne
                  (later_calm _ _ Hl2 (later_calm _ _ Hl1 Hc)) Hw2 E3)
        as (Hl3 & L3 & Hw3 & Hf3).
      assert (Hl13 : later w w3) by eauto using later_trans.
      assert (L13 : incl (log w) (log w3)).
      { rewrite L3. eauto using incl_tran. }
      assert (Hf13 : walk (basedir qu ++ ["cur"; s]) (fs w3)
                     = walk (basedir qu ++ ["cur"; s]) (fs w))
        by now rewrite Hf3, Hf2, F1.
      destruct r as [e|].
      * destruct (log_Println_later _ _ _ H) as (A & B & _ & C).
        rewrite C. eauto 6 using later_trans, incl_tran.
      * injection H as <-. auto.
    + unfold ret in H.
      destruct (log_Println (LogKillFailed p' e) w) as [[] w1] eqn:E1.
      destruct (log_Println_later _ _ _ E1) as (Hl1 & L1 & _ & F1).
      destruct (log_Println_later _ _ _ H) as (A & B & _ & C).
      rewrite C, F1. eauto 6 using later_trans, incl_tran.
  - injection H as <-. auto using later_refl, incl_refl.
Qed.

Lemma other_pid_other_slot (s s' : string) (p p' : Z) :
  Atoi s = (p, None) -> Atoi s' = (p', None) -> p' <> p -> Itoa p' <> s.
Proof.
  intros Hs Hs' Hne E. apply Hne.
  pose proof (Atoi_Itoa p' (Atoi_in_range _ _ Hs')) as K.
  rewrite E, Hs in K. congruence.
Qed.

Lemma RescueDeadJobs_range_frame (qu : Queue) (s : string) (p : Z)
      (names : list string) :
  Atoi s = (p, None) ->
  forall w w', calm (sched w) = true -> wf (fs w) ->
  kill0 w p <> Some ESRCH ->
  RescueDeadJobs_range qu names w = (tt, w') ->
  later w w' /\ incl (log w) (log w') /\ wf (fs w') /\
  walk (basedir qu ++ ["cur"; s]) (fs w')
    = walk (basedir qu ++ ["cur"; s]) (fs w).
Proof.
  intro Hs. induction names as [|s' names IH]; intros w w' Hc Hw Hk H.
  - injection H as <-. auto using later_refl, incl_refl.
  - cbn [RescueDeadJobs_range] in H. unfold bind in H.
    destruct (RescueDeadJobs_body qu s' w) as [[] w1] eqn:E1.
    destruct (RescueDeadJobs_body_frame qu s s' w w1 Hc Hw) as (Hl1 & L1 & Hw1 & Hf1);
      [|exact E1|].
    { intros p' Hs' Hd. apply (other_pid_other_slot _ _ _ _ Hs Hs').
      intros ->. contradiction. }
    destruct (IH w1 w') as (Hl2 & L2 & Hw2 & Hf2);
      [eauto using later_calm|exact Hw1| |exact H|].
    { destruct Hl1 as (K & _). now rewrite K. }
    split; [eauto using later_trans|]. split; [eauto using incl_tran|].
    split; [exact Hw2|]. now rewrite Hf2.
Qed.

Lemma RescueDeadJobs_body_probe_error (qu : Queue) (s : string) (p : Z)
      (e : errno) (w w' : World) :
  Atoi s = (p, None) -> kill0 w p = Some e -> e <> ESRCH ->
  RescueDeadJobs_body qu s w = (tt, w') ->
  fs w' = fs w /\ sched w' = sched w /\
  log w' = log w ++ [LogKillFailed p e; LogKillFailed p e].
Proof.
  intros Hs Hk He H. unfold RescueDeadJobs_body in H. rewrite Hs in H.
  unfold processExists, syscall_Kill0, bind in H. rewrite Hk in H.
  destruct (errno_eqb e ESRCH) eqn:Ee.
  { apply errno_eqb_eq in Ee. contradiction. }
  unfold ret, log_Println in H. cbn in H. injection H as <-. cbn.
  rewrite <- app_assoc. auto.
Qed.

Lemma RescueDeadJobs_range_logs (qu : Queue) (s : string) (p : Z) (e : errno)
      (names : list string) :
  Atoi s = (p, None) -> e <> ESRCH ->
  forall w w', calm (sched w) = true -> wf (fs w) ->
  kill0 w p = Some e -> In s names ->
  RescueDeadJobs_range qu names w = (tt, w') ->
  In (LogKillFailed p e) (log w').
Proof.
  intros Hs He. induction names as [|s' names IH]; intros w w' Hc Hw Hk Hin H;
    [destruct Hin|].
  assert (Hnd : kill0 w p <> Some ESRCH) by congruence.
  cbn [RescueDeadJobs_range] in H. unfold bind in H.
  destruct (RescueDeadJobs_body qu s' w) as [[] w1] eqn:E1.
  destruct (RescueDeadJobs_body_frame qu s s' w w1 Hc Hw) as (Hl1 & L1 & Hw1 & Hf1);
    [|exact E1|].
  { intros p' Hs' Hd. apply (other_pid_other_slot _ _ _ _ Hs Hs').
    intros ->. contradiction. }
  assert (Hk1 : kill0 w1 p = Some e) by (destruct Hl1 as (K & _); now rewrite K).
  destruct Hin as [->|Hin].
  - destruct (RescueDeadJobs_body_probe_error _ _ _ _ _ _ Hs Hk He E1)
      as (_ & _ & L).
    destruct (RescueDeadJobs_range_frame qu s p names Hs w1 w')
      as (_ & L2 & _); [eauto using later_calm|exact Hw1|congruence|exact H|].
    apply L2. rewrite L. apply in_or_app. right. now left.
  - apply (IH w1 w'); eauto using later_calm.
Qed.

(** The sweep leaves alone every slot whose name is that of a process that
    is not known to be dead. *)
Lemma RescueDeadJobs_frame (qu : Queue) (s : string) (p : Z) (w w' : World)
      (r : error) :
  Atoi s = (p, None) -> calm (sched w) = true -> wf (fs w) ->
  kill0 w p <> Some ESRCH ->
  Queue_RescueDeadJobs qu w = (r, w') ->
  later w w' /\ incl (log w) (log w') /\ wf (fs w') /\
  walk (basedir qu ++ ["cur"; s]) (fs w')
    = walk (basedir qu ++ ["cur"; s]) (fs w).
Proof.
  intros Hs Hc Hw Hk H. unfold Queue_RescueDeadJobs, readdirnames, bind in H.
  destruct (os_Readdirnames _ w) as [[l r0] w1] eqn:E1.
  destruct (os_Readdirnames_calm _ _ _ _ _ Hc E1) as (Hl1 & L1 & F1 & _).
  destruct r0 as [e|].
  - destruct (log_Println _ w1) as [[] w2] eqn:E2.
    destruct (log_Println_later _ _ _ E2) as (Hl2 & L2 & _ & F2).
    injection H as <- <-. rewrite F2, F1.
    split; [eauto using later_trans|]. split; [|auto].
    rewrite <- L1. exact L2.
  - destruct (RescueDeadJobs_range qu l w1) as [[] w2] eqn:E2.
    injection H as <- <-.
    destruct (RescueDeadJobs_range_frame qu s p l Hs w1 w2)
      as (Hl2 & L2 & Hw2 & Hf2);
      [eauto using later_calm|now rewrite F1| |exact E2|].
    { destruct Hl1 as (K & _). now rewrite K. }
    split; [eauto using later_trans|]. split; [now rewrite <- L1|].
    split; [exact Hw2|]. now rewrite Hf2, F1.
Qed.

(** ** The example trees are well formed *)

Ltac wf_tac :=
  repeat first
    [ apply wf_File | apply wf_Dir | apply NoDup_nil | apply NoDup_cons
    | apply Forall_nil | apply Forall_cons | split | reflexivity
    | (cbn; intuition discriminate) ].

Lemma wf_two_slots : wf Examples.two_slots.
Proof. unfold Examples.two_slots, Examples.queue_tree, Examples.build1. wf_tac. Qed.

(** ** The sweep and one slot *)

Ltac neq_eqb :=
  repeat match goal with
  | H : ?x <> ?y |- context [String.eqb ?x ?y] =>
      rewrite (proj2 (String.eqb_neq x y) H)
  | H : ?x <> ?y |- context [String.eqb ?y ?x] =>
      rewrite (proj2 (String.eqb_neq y x) (not_eq_sym H))
  end.

Ltac prefix_tac :=
  rewrite <- ?app_assoc; cbn [app]; rewrite ?prefix_app_both; cbn;
  neq_eqb; cbn; rewrite ?andb_false_r; reflexivity.

Lemma other_step_refl (b : path) (s : string) (jobs : list (string * node))
      (t : node) : wf t -> other_step b s jobs t t.
Proof.
  intro Hw. split; [exact Hw|]. split; [|split; [|split]]; eauto.
  intros s' js' _ H. exists js'. auto using incl_refl.
Qed.

Lemma other_step_intact (k : Z -> error) (b : path) (s : string)
      (jobs : list (string * node)) (t t' : node) :
  other_step b s jobs t t' ->
  slot_intact k b s jobs t -> slot_intact k b s jobs t'.
Proof.
  intros (Hw' & Hsl & Hs & _ & Hnew) (_ & Hd & Hj & nes & Hn & Hfresh).
  split; [exact Hw'|]. split; [|split].
  - intros p' js' x Hr Hk Hne Hw Hin.
    destruct (Hsl _ _ Hne Hw) as (js & Hjs & Hi).
    apply (Hd _ _ _ Hr Hk Hne Hjs). now apply Hi.
  - now rewrite Hs.
  - destruct (Hnew _ Hn) as (nes' & Hn' & Hsub). exists nes'.
    split; [exact Hn'|]. intros x Hx Hin. apply (Hfresh x Hx). now apply Hsub.
Qed.

Lemma other_step_rescued (k : Z -> error) (b : path) (s : string)
      (jobs : list (string * node)) (t t' : node) :
  other_step b s jobs t t' ->
  slot_rescued k b s jobs t -> slot_rescued k b s jobs t'.
Proof.
  intros (Hw' & Hsl & Hs & Hkeep & _) (_ & Hd & Hj & Hall).
  split; [exact Hw'|]. split; [|split].
  - intros p' js' x Hr Hk Hne Hw Hin.
    destruct (Hsl _ _ Hne Hw) as (js & Hjs & Hi).
    apply (Hd _ _ _ Hr Hk Hne Hjs). now apply Hi.
  - now rewrite Hs.
  - intros x n Ha. rewrite (Hkeep x (assoc_In _ _ _ Ha)). now apply Hall.
Qed.

(** A job [y] that is not one of [jobs] moves from another slot to [new]. *)
Lemma rename_other_step (b : path) (s s2 y : string)
      (jobs : list (string * node)) (t t' : node) :
  wf t -> s2 <> s -> plain y = true -> ~ In y (names jobs) ->
  rename ((b ++ ["cur"; s2]) ++ [y]) ((b ++ ["new"]) ++ [y]) t = inr t' ->
  other_step b s jobs t t'.
Proof.
  intros Hw Hne Hy Hny H.
  split; [now apply (wf_rename _ _ _ _ _ Hw Hy H)|]. split; [|split; [|split]].
  - intros s' js' Hs' Hw'. destruct (String.eqb s' s2) eqn:E.
    + apply String.eqb_eq in E. subst s'.
      destruct (rename_lists_src _ _ _ _ _ H) as (es & Hes & Hes');
        [prefix_tac|prefix_tac|].
      rewrite Hes' in Hw'. injection Hw' as <-. exists es. split; [exact Hes|].
      intros x Hx. apply In_names_del_entry in Hx. tauto.
    + apply String.eqb_neq in E. exists js'. split; [|apply incl_refl].
      rewrite <- Hw'. symmetry. apply (rename_frame _ _ _ _ _ H); prefix_tac.
  - apply (rename_frame _ _ _ _ _ H); prefix_tac.
  - intros x Hx. assert (x <> y) by congruence.
    apply (rename_frame _ _ _ _ _ H); prefix_tac.
  - intros nes Hn.
    destruct (rename_inv _ _ _ _ H) as (n & es & Hsrc & _ & _ & _ & Hcase).
    destruct Hcase as [[E _]|(_ & _ & -> & _)].
    { apply (f_equal (fun l => prefix l ((b ++ ["new"]) ++ [y]))) in E.
      rewrite prefix_refl in E. revert E.
      assert (K : prefix ((b ++ ["cur"; s2]) ++ [y]) ((b ++ ["new"]) ++ [y]) = false)
        by prefix_tac.
      rewrite K. discriminate. }
    assert (Hn1 : walk (b ++ ["new"]) (del ((b ++ ["cur"; s2]) ++ [y]) t)
                  = inr (Dir nes)).
    { rewrite walk_del_frame; [exact Hn|prefix_tac|prefix_tac]. }
    exists (set_entry y n nes). split; [now apply walk_put_parent|].
    intros x Hx Hin. apply In_names_set_entry in Hin as [->|Hin]; tauto.
Qed.

(** Another slot is removed. *)
Lemma remove_other_step (b : path) (s s2 : string)
      (jobs : list (string * node)) (t t' : node) :
  wf t -> s2 <> s -> remove (b ++ ["cur"; s2]) t = inr t' ->
  other_step b s jobs t t'.
Proof.
  intros Hw Hne H. split; [now apply (wf_remove _ _ _ Hw H)|].
  assert (E : t' = del ((b ++ ["cur"]) ++ [s2]) t).
  { rewrite <- app_assoc.
    destruct (remove_inv _ _ _ H) as [(_ & -> & _)|(_ & -> & _)]; reflexivity. }
  assert (Hex : exists x, walk (b ++ ["cur"; s2]) t = inr x).
  { destruct (remove_inv _ _ _ H) as [(_ & _ & x & Hx)|(_ & _ & Hx)]; eauto. }
  subst t'. split; [|split; [|split]].
  - intros s' js' Hs' Hw'. destruct (String.eqb s' s2) eqn:E.
    + apply String.eqb_eq in E. subst s'. destruct Hex as [x Hx].
      change (b ++ ["cur"; s2]) with (b ++ ["cur"] ++ [s2]) in Hx, Hw'.
      rewrite app_assoc in Hx, Hw'.
      destruct (walk_snoc_inv _ _ _ _ Hx) as (es & Hes & _).
      rewrite <- (app_nil_r ((b ++ ["cur"]) ++ [s2])) in Hw' at 1.
      rewrite (walk_del_at _ _ _ _ _ Hes) in Hw'. discriminate.
    + apply String.eqb_neq in E. exists js'. split; [|apply incl_refl].
      rewrite <- Hw'. symmetry. apply walk_del_frame; prefix_tac.
  - apply walk_del_frame; prefix_tac.
  - intros x Hx. apply walk_del_frame; prefix_tac.
  - intros nes Hn. exists nes. split; [|auto].
    rewrite walk_del_frame; [exact Hn|prefix_tac|prefix_tac].
Qed.

Lemma update_quiet_step (op : node -> errno + node) (w w' : World) (r : error) :
  quiet (sched w) = true ->
  update op w = (r, w') ->
  quiet (sched w') = true /\ kill0 w' = kill0 w /\
  (fs w' = fs w \/ op (fs w) = inr (fs w')).
Proof.
  intros Hq H. destruct (update_quiet _ _ _ _ Hq H) as (Hq' & _ & K & _ & _ & _ & Hres).
  split; [exact Hq'|]. split; [exact K|].
  destruct (op (fs w)) as [e|t']; [left; tauto|right]. destruct Hres as [_ ->].
  reflexivity.
Qed.

Lemma os_Rename_quiet_step (src dst : path) (w w' : World) (r : error) :
  quiet (sched w) = true ->
  os_Rename src dst w = (r, w') ->
  quiet (sched w') = true /\ kill0 w' = kill0 w /\
  (fs w' = fs w \/ rename src dst (fs w) = inr (fs w')).
Proof.
  intros Hq H. destruct (update_quiet_step _ _ _ _ Hq H) as (Hq' & K & [F|Hop]).
  - auto.
  - split; [exact Hq'|]. split; [exact K|]. right. now apply os_rename_ok.
Qed.

Lemma log_Println_quiet (m : logmsg) (w w' : World) :
  log_Println m w = (tt, w') ->
  fs w' = fs w /\ kill0 w' = kill0 w /\
  (quiet (sched w) = true -> quiet (sched w') = true).
Proof.
  intro H. destruct (log_Println_inv _ _ _ H) as (F & S & K & _).
  rewrite S. auto.
Qed.

Section Sweep.

Variables (k : Z -> error) (qu : Queue) (s : string)
          (jobs : list (string * node)).

(** An invariant of the steps of the sweep on other slots. *)
Variable I : node -> Prop.
Hypothesis I_wf : forall t, I t -> wf t.
Hypothesis I_disjoint :
  forall t, I t -> others_disjoint k (basedir qu) s jobs t.
Hypothesis I_step :
  forall t t', other_step (basedir qu) s jobs t t' -> I t -> I t'.

Lemma rescue_range_other (p2 : Z) (l : list string) :
  Itoa p2 <> s ->
  Forall (fun n => plain n = true) l ->
  (forall y, In y l -> ~ In y (names jobs)) ->
  forall w w', quiet (sched w) = true -> I (fs w) ->
  rescueDeadJobsFrom_range qu p2 (Queue_getWorkerDir qu p2) l w = (tt, w') ->
  quiet (sched w') = true /\ kill0 w' = kill0 w /\ I (fs w').
Proof.
  intros Hne Hpl. induction Hpl as [|y l Hy _ IH]; intros Hnj w w' Hq Hi H.
  - injection H as <-. auto.
  - cbn [rescueDeadJobsFrom_range] in H. unfold bind in H.
    rewrite getWorkerDir_eq, getNewDir_eq, !(Join_plain _ _ Hy) in H.
    destruct (os_Rename _ _ w) as [r w1] eqn:E1.
    destruct (os_Rename_quiet_step _ _ _ _ _ Hq E1) as (Hq1 & K1 & Hfs1).
    assert (Hi1 : I (fs w1)).
    { destruct Hfs1 as [->|Hop]; [exact Hi|]. apply (I_step (fs w)); [|exact Hi].
      apply (rename_other_step _ _ (Itoa p2) y); auto.
      apply Hnj. now left. }
    set (m := match r with
              | Some e => LogRescheduleFailed y p2 e
              | None => LogRescheduled y p2
              end).
    assert (E2 : match r with
                 | Some e => log_Println (LogRescheduleFailed y p2 e)
                 | None => log_Println (LogRescheduled y p2)
                 end = log_Println m) by now destruct r.
    rewrite E2 in H.
    destruct (log_Println m w1) as [[] w2] eqn:E3.
    destruct (log_Println_quiet _ _ _ E3) as (F2 & K2 & Hq2).
    rewrite <- getWorkerDir_eq in H.
    destruct (IH (fun y' Hy' => Hnj y' (or_intror Hy')) w2 w') as (Hq3 & K3 & Hi3);
      [auto|now rewrite F2|exact H|].
    split; [exact Hq3|]. split; [congruence|exact Hi3].
Qed.

(** The rescue from the slot of another process, and the removal of that
    slot. *)
Lemma rescue_other (p2 : Z) (w w' : World) :
  in_range p2 = true -> k p2 = Some ESRCH ->
  Itoa p2 <> s -> quiet (sched w) = true -> I (fs w) ->
  (Queue_rescueDeadJobsFrom qu p2 ;;;
   err <- os_Remove (Queue_getWorkerDir qu p2) ;;
   match err with
   | Some e => log_Println (LogRmdirFailed (Queue_getWorkerDir qu p2) e)
   | None => ret tt
   end) w = (tt, w') ->
  quiet (sched w') = true /\ kill0 w' = kill0 w /\ I (fs w').
Proof.
  intros Hr2 Hk2 Hne Hq Hi H. unfold bind at 1 in H.
  destruct (Queue_rescueDeadJobsFrom qu p2 w) as [[] w3] eqn:E.
  assert (K : quiet (sched w3) = true /\ kill0 w3 = kill0 w /\ I (fs w3)).
  { unfold Queue_rescueDeadJobsFrom, readdirnames, bind in E.
    destruct (os_Readdirnames _ w) as [[l r] w1] eqn:E1.
    destruct (os_Readdirnames_quiet _ _ _ _ _ Hq E1)
      as (Hq1 & _ & K1 & _ & _ & _ & F1 & Hres).
    assert (Hl : Forall (fun n => plain n = true) l /\
                 forall y, In y l -> ~ In y (names jobs)).
    { rewrite getWorkerDir_eq in Hres. unfold readdir in Hres.
      destruct (walk (basedir qu ++ ["cur"; Itoa p2]) (fs w)) as [e|[bt|js]] eqn:Ew;
        destruct Hres as [_ ->]; try (split; [constructor|intros y []]).
      split.
      - apply wf_names_plain. apply (wf_walk _ _ _ (I_wf _ Hi) Ew).
      - intros y Hy. apply (I_disjoint _ Hi _ _ _ Hr2 Hk2 Hne Ew Hy). }
    destruct Hl as [Hpl Hnj].
    assert (E2 : exists w2,
              (match r with
               | Some _ => log_Println (LogReadSlotFailed p2 (Queue_getWorkerDir qu p2))
               | None => ret tt
               end) w1 = (tt, w2) /\
              quiet (sched w2) = true /\ kill0 w2 = kill0 w1 /\ fs w2 = fs w1).
    { destruct r as [e|].
      - destruct (log_Println _ w1) as [[] w2] eqn:El.
        destruct (log_Println_quiet _ _ _ El) as (A & B & C). eauto 6.
      - exists w1. unfold ret. auto. }
    destruct E2 as (w2 & E2 & Hq2 & K2 & F2). rewrite E2 in E.
    destruct (rescue_range_other p2 l Hne Hpl Hnj w2 w3 Hq2) as (Hq3 & K3 & Hi3);
      [now rewrite F2, F1|exact E|].
    split; [exact Hq3|]. split; [congruence|exact Hi3]. }
  destruct K as (Hq3 & K3 & Hi3). unfold bind in H.
  destruct (os_Remove _ w3) as [r w4] eqn:E4.
  destruct (update_quiet_step _ _ _ _ Hq3 E4) as (Hq4 & K4 & Hfs4).
  assert (Hi4 : I (fs w4)).
  { destruct Hfs4 as [->|Hop]; [exact Hi3|]. apply (I_step (fs w3)); [|exact Hi3].
    rewrite getWorkerDir_eq in Hop.
    apply (remove_other_step _ _ (Itoa p2)); auto. }
  destruct r as [e|].
  - destruct (log_Println_quiet _ _ _ H) as (F5 & K5 & Hq5).
    rewrite F5. split; [auto|]. split; [congruence|exact Hi4].
  - injection H as <-. split; [exact Hq4|]. split; [congruence|exact Hi4].
Qed.

End Sweep.

Lemma rename_fresh (src dd : path) (cd : string) (t x : node)
      (es : list (string * node)) :
  walk src t = inr x -> src <> [] -> walk dd t = inr (Dir es) ->
  assoc cd es = None -> prefix src (dd ++ [cd]) = false ->
  rename src (dd ++ [cd]) t = inr (put (dd ++ [cd]) x (del src t)).
Proof.
  intros Hx Hs Hd Ha Hp. unfold rename. rewrite Hx.
  destruct src as [|a src]; [congruence|].
  destruct (dd ++ [cd]) as [|a' dst'] eqn:Edst; [now destruct dd|].
  rewrite <- Edst in *. rewrite parent_dir_snoc, Hd.
  assert (Hne : path_eqb (a :: src) (dd ++ [cd]) = false).
  { destruct (path_eqb _ _) eqn:E; [|reflexivity]. apply path_eqb_eq in E.
    rewrite <- E, prefix_refl in Hp. discriminate. }
  rewrite Hne, Hp, andb_false_r, (walk_snoc _ _ _ _ Hd), Ha. reflexivity.
Qed.

Lemma rename_dst_parent (src dd : path) (cd : string) (t t' x : node)
      (es : list (string * node)) :
  rename src (dd ++ [cd]) t = inr t' ->
  prefix src (dd ++ [cd]) = false ->
  prefix src dd = false -> prefix dd src = false ->
  walk src t = inr x -> walk dd t = inr (Dir es) ->
  walk dd t' = inr (Dir (set_entry cd x es)).
Proof.
  intros H Hp Hp1 Hp2 Hx Hd.
  destruct (rename_inv _ _ _ _ H) as (x' & es' & Hx' & Hs & _ & _ & Hcase).
  rewrite Hx in Hx'. injection Hx' as <-.
  destruct Hcase as [[E _]|(_ & _ & -> & _)].
  { rewrite <- E, prefix_refl in Hp. discriminate. }
  destruct (path_snoc _ Hs) as (sd & sc & ->).
  apply walk_put_parent. rewrite walk_del_frame; assumption.
Qed.

Lemma del_entry_head (x : string) (n : node) (es : list (string * node)) :
  ~ In x (names es) -> del_entry x ((x, n) :: es) = es.
Proof.
  intro H. unfold del_entry. cbn. rewrite String.eqb_refl. cbn.
  now apply del_entry_absent.
Qed.

(** The loop of [rescueDeadJobsFrom] on a slot whose every job can move:
    every job ends in [new] under its name and the slot ends empty. *)
Lemma rescue_range_ours (qu : Queue) (p : Z) :
  forall (rem : list (string * node)) (w w' : World),
  quiet (sched w) = true -> wf (fs w) ->
  walk (basedir qu ++ ["cur"; Itoa p]) (fs w) = inr (Dir rem) ->
  (exists nes, walk (basedir qu ++ ["new"]) (fs w) = inr (Dir nes) /\
               forall x, In x (names rem) -> ~ In x (names nes)) ->
  rescueDeadJobsFrom_range qu p (Queue_getWorkerDir qu p) (names rem) w
    = (tt, w') ->
  quiet (sched w') = true /\ kill0 w' = kill0 w /\ wf (fs w') /\
  walk (basedir qu ++ ["cur"; Itoa p]) (fs w') = inr (Dir []) /\
  (forall x n, assoc x rem = Some n ->
               walk (basedir qu ++ ["new"; x]) (fs w') = inr n) /\
  (forall x, ~ In x (names rem) ->
             walk (basedir qu ++ ["new"; x]) (fs w')
             = walk (basedir qu ++ ["new"; x]) (fs w)) /\
  (forall s', s' <> Itoa p ->
              walk (basedir qu ++ ["cur"; s']) (fs w')
              = walk (basedir qu ++ ["cur"; s']) (fs w)).
Proof.
  induction rem as [|[x n] rem IH]; intros w w' Hq Hw Hslot (nes & Hnew & Hfresh) H.
  - injection H as <-. repeat split; auto. intros x n. discriminate.
  - pose proof (wf_walk _ _ _ Hw Hslot) as Hwd.
    inversion Hwd as [|? Hnd Hall]; subst.
    inversion Hnd as [|? ? Hx Hnd']; subst.
    inversion Hall as [|? ? [Hpx _] _]; subst. cbn [fst] in Hpx.
    cbn [names map fst rescueDeadJobsFrom_range] in H. unfold bind in H.
    rewrite getWorkerDir_eq, getNewDir_eq, !(Join_plain _ _ Hpx) in H.
    destruct (os_Rename _ _ w) as [r w1] eqn:E1.
    destruct (update_quiet _ _ _ _ Hq E1) as (Hq1 & _ & K1 & _ & _ & _ & Hres).
    assert (Hsrc : walk ((basedir qu ++ ["cur"; Itoa p]) ++ [x]) (fs w) = inr n).
    { rewrite (walk_snoc _ _ _ _ Hslot). cbn. now rewrite String.eqb_refl. }
    assert (Hdst : assoc x nes = None).
    { apply assoc_None. apply Hfresh. now left. }
    assert (Hpre : prefix ((basedir qu ++ ["cur"; Itoa p]) ++ [x])
                          ((basedir qu ++ ["new"]) ++ [x]) = false) by prefix_tac.
    assert (Hop : rename ((basedir qu ++ ["cur"; Itoa p]) ++ [x])
                         ((basedir qu ++ ["new"]) ++ [x]) (fs w)
                  = inr (put ((basedir qu ++ ["new"]) ++ [x]) n
                          (del ((basedir qu ++ ["cur"; Itoa p]) ++ [x]) (fs w)))).
    { apply (rename_fresh _ _ _ _ _ nes Hsrc); auto.
      now destruct (basedir qu). }
    rewrite (os_rename_absent _ _ _ ENOENT) in Hres
      by now rewrite (walk_snoc _ _ _ _ Hnew), Hdst.
    rewrite Hop in Hres. destruct Hres as [-> F1]. rewrite <- F1 in Hop.
    assert (Hw1 : wf (fs w1)) by now apply (wf_rename _ _ _ _ _ Hw Hpx Hop).
    assert (Hslot1 : walk (basedir qu ++ ["cur"; Itoa p]) (fs w1) = inr (Dir rem)).
    { destruct (rename_lists_src _ _ _ _ _ Hop) as (es & Hes & Hes');
        [prefix_tac|prefix_tac|].
      rewrite Hslot in Hes. injection Hes as <-.
      now rewrite Hes', del_entry_head. }
    assert (Hnew1 : walk (basedir qu ++ ["new"]) (fs w1)
                    = inr (Dir (set_entry x n nes))).
    { apply (rename_dst_parent _ _ _ _ _ _ _ Hop Hpre); auto; prefix_tac. }
    assert (Hx1 : walk (basedir qu ++ ["new"; x]) (fs w1) = inr n).
    { pose proof (rename_walk_dst _ _ [] _ _ _ Hop Hsrc) as K.
      rewrite app_nil_r, <- app_assoc in K. exact K. }
    destruct (log_Println (LogRescheduled x p) w1) as [[] w2] eqn:E2.
    destruct (log_Println_quiet _ _ _ E2) as (F2 & K2 & Hq2).
    rewrite <- getWorkerDir_eq in H.
    destruct (IH w2 w') as (Hq3 & K3 & Hw3 & Hslot3 & Hall3 & Hkeep3 & Hoth3);
      [auto|now rewrite F2|now rewrite F2| |exact H|].
    { exists (set_entry x n nes). rewrite F2. split; [exact Hnew1|].
      intros y Hy Hin. apply In_names_set_entry in Hin as [->|Hin]; [auto|].
      apply (Hfresh y); [now right|exact Hin]. }
    split; [exact Hq3|]. split; [congruence|]. split; [exact Hw3|].
    split; [exact Hslot3|]. split; [|split].
    + intros y m Hy. cbn in Hy. destruct (String.eqb x y) eqn:E.
      * apply String.eqb_eq in E. subst y. injection Hy as <-.
        rewrite (Hkeep3 x Hx), F2. exact Hx1.
      * now apply Hall3.
    + intros y Hy. cbn in Hy. rewrite Hkeep3, F2; [|tauto].
      assert (x <> y) by tauto.
      apply (rename_frame _ _ _ _ _ Hop); prefix_tac.
    + intros s' Hs'. rewrite Hoth3, F2; [|exact Hs'].
      apply (rename_frame _ _ _ _ _ Hop); prefix_tac.
Qed.

Lemma rescue_ours_intact (k : Z -> error) (qu : Queue) (p : Z)
      (jobs : list (string * node)) (w w' : World) :
  quiet (sched w) = true ->
  slot_intact k (basedir qu) (Itoa p) jobs (fs w) ->
  (Queue_rescueDeadJobsFrom qu p ;;;
   err <- os_Remove (Queue_getWorkerDir qu p) ;;
   match err with
   | Some e => log_Println (LogRmdirFailed (Queue_getWorkerDir qu p) e)
   | None => ret tt
   end) w = (tt, w') ->
  quiet (sched w') = true /\ kill0 w' = kill0 w /\
  slot_rescued k (basedir qu) (Itoa p) jobs (fs w').
Proof.
  intros Hq (Hw & Hdis & Hslot & Hnew) H. unfold bind at 1 in H.
  unfold Queue_rescueDeadJobsFrom, readdirnames, bind at 1 in H.
  destruct (os_Readdirnames _ w) as [[l r] w1] eqn:E1.
  destruct (os_Readdirnames_quiet _ _ _ _ _ Hq E1)
    as (Hq1 & _ & K1 & _ & _ & _ & F1 & Hres).
  rewrite getWorkerDir_eq, (readdir_dir _ _ _ Hslot) in Hres.
  destruct Hres as [-> ->]. unfold bind, ret in H.
  destruct (rescueDeadJobsFrom_range qu p _ (names jobs) w1) as [[] w3] eqn:E3.
  destruct (rescue_range_ours qu p jobs w1 w3 Hq1)
    as (Hq3 & K3 & Hw3 & Hslot3 & Hall3 & _ & Hoth3);
    [now rewrite F1|now rewrite F1|now rewrite F1|exact E3|].
  destruct (os_Remove _ w3) as [r w4] eqn:E4.
  destruct (update_quiet _ _ _ _ Hq3 E4) as (Hq4 & _ & K4 & _ & _ & _ & Hres).
  rewrite getWorkerDir_eq in Hres.
  assert (Hrm : remove (basedir qu ++ ["cur"; Itoa p]) (fs w3)
                = inr (del ((basedir qu ++ ["cur"]) ++ [Itoa p]) (fs w3))).
  { unfold remove. rewrite Hslot3, <- app_assoc. now destruct (basedir qu). }
  rewrite Hrm in Hres. destruct Hres as [-> F4]. injection H as <-.
  split; [exact Hq4|]. split; [congruence|].
  change (basedir qu ++ ["cur"; Itoa p])
    with (basedir qu ++ ["cur"] ++ [Itoa p]) in Hslot3.
  rewrite app_assoc in Hslot3.
  destruct (walk_snoc_inv _ _ _ _ Hslot3) as (ces & Hcur & _).
  rewrite F4. split; [now apply wf_del|]. split; [|split].
  - intros p' js x Hr' Hk' Hs' Hjs Hx.
    rewrite walk_del_frame in Hjs; [|prefix_tac|prefix_tac].
    rewrite Hoth3, F1 in Hjs; [|exact Hs'].
    now apply (Hdis _ _ _ Hr' Hk' Hs' Hjs).
  - pose proof (walk_del_at _ (Itoa p) [] _ _ Hcur) as K.
    rewrite app_nil_r in K. rewrite <- K. f_equal. now rewrite <- app_assoc.
  - intros x n Hx. rewrite walk_del_frame; [|prefix_tac|prefix_tac].
    now apply Hall3.
Qed.

Lemma rescue_ours_rescued (k : Z -> error) (qu : Queue) (p : Z)
      (jobs : list (string * node)) (w w' : World) :
  quiet (sched w) = true ->
  slot_rescued k (basedir qu) (Itoa p) jobs (fs w) ->
  (Queue_rescueDeadJobsFrom qu p ;;;
   err <- os_Remove (Queue_getWorkerDir qu p) ;;
   match err with
   | Some e => log_Println (LogRmdirFailed (Queue_getWorkerDir qu p) e)
   | None => ret tt
   end) w = (tt, w') ->
  quiet (sched w') = true /\ kill0 w' = kill0 w /\
  slot_rescued k (basedir qu) (Itoa p) jobs (fs w').
Proof.
  intros Hq Hr H. pose proof Hr as (Hw & Hdis & Hslot & Hall).
  unfold bind at 1 in H.
  unfold Queue_rescueDeadJobsFrom, readdirnames, bind at 1 in H.
  destruct (os_Readdirnames _ w) as [[l r] w1] eqn:E1.
  destruct (os_Readdirnames_quiet _ _ _ _ _ Hq E1)
    as (Hq1 & _ & K1 & _ & _ & _ & F1 & Hres).
  rewrite getWorkerDir_eq in Hres. unfold readdir in Hres. rewrite Hslot in Hres.
  destruct Hres as [-> ->]. unfold bind in H.
  destruct (log_Println _ w1) as [[] w2] eqn:E2.
  destruct (log_Println_quiet _ _ _ E2) as (F2 & K2 & Hq2).
  cbn [rescueDeadJobsFrom_range] in H. unfold ret at 1 in H.
  destruct (os_Remove _ w2) as [r w4] eqn:E4.
  destruct (update_quiet _ _ _ _ (Hq2 Hq1) E4) as (Hq4 & _ & K4 & _ & _ & _ & Hres).
  rewrite getWorkerDir_eq in Hres. unfold remove in Hres.
  rewrite F2, F1, Hslot in Hres.
  destruct (basedir qu ++ ["cur"; Itoa p]) eqn:Eb;
    [now destruct (basedir qu)|].
  destruct Hres as [-> F4].
  destruct (log_Println_quiet _ _ _ H) as (F5 & K5 & Hq5).
  split; [auto|]. split; [congruence|]. rewrite F5, F4. rewrite <- Eb in *.
  exact Hr.
Qed.

(** The turn of the loop of [RescueDeadJobs] for the name [s'], by cases on
    what the name parses to and on what the probe says. *)
Lemma RescueDeadJobs_body_eq (qu : Queue) (s' : string) (w : World) :
  RescueDeadJobs_body qu s' w =
  match Atoi s' with
  | (p', Some ea) => log_Println (LogNotPID s' ea) w
  | (p', None) =>
      match kill0 w p' with
      | None => (tt, w)
      | Some e =>
          if errno_eqb e ESRCH then
            (log_Println (LogGoneAway p') ;;;
             (Queue_rescueDeadJobsFrom qu p' ;;;
              err <- os_Remove (Queue_getWorkerDir qu p') ;;
              match err with
              | Some e => log_Println (LogRmdirFailed (Queue_getWorkerDir qu p') e)
              | None => ret tt
              end)) w
          else
            (log_Println (LogKillFailed p' e) ;;;
             log_Println (LogKillFailed p' e)) w
      end
  end.
Proof.
  unfold RescueDeadJobs_body. destruct (Atoi s') as [p' [ea|]]; [reflexivity|].
  unfold processExists, syscall_Kill0. unfold bind at 1 2.
  destruct (kill0 w p') as [e|]; [|reflexivity].
  destruct (errno_eqb e ESRCH); reflexivity.
Qed.

(** One turn of the loop of [RescueDeadJobs], seen from the slot of the dead
    process [p]. *)
Lemma RescueDeadJobs_body_step (qu : Queue) (p : Z) (jobs : list (string * node))
      (s' : string) (w w' : World) :
  in_range p = true -> kill0 w p = Some ESRCH -> quiet (sched w) = true ->
  RescueDeadJobs_body qu s' w = (tt, w') ->
  (slot_rescued (kill0 w) (basedir qu) (Itoa p) jobs (fs w) ->
   quiet (sched w') = true /\ kill0 w' = kill0 w /\
   slot_rescued (kill0 w) (basedir qu) (Itoa p) jobs (fs w')) /\
  (slot_intact (kill0 w) (basedir qu) (Itoa p) jobs (fs w) ->
   quiet (sched w') = true /\ kill0 w' = kill0 w /\
   (slot_intact (kill0 w) (basedir qu) (Itoa p) jobs (fs w') \/
    slot_rescued (kill0 w) (basedir qu) (Itoa p) jobs (fs w')) /\
   (s' = Itoa p -> slot_rescued (kill0 w) (basedir qu) (Itoa p) jobs (fs w'))).
Proof.
  intros Hr Hk Hq H.
  assert (Hsame : quiet (sched w') = true -> kill0 w' = kill0 w ->
                  fs w' = fs w -> (s' = Itoa p -> False) ->
    (slot_rescued (kill0 w) (basedir qu) (Itoa p) jobs (fs w) ->
     quiet (sched w') = true /\ kill0 w' = kill0 w /\
     slot_rescued (kill0 w) (basedir qu) (Itoa p) jobs (fs w')) /\
    (slot_intact (kill0 w) (basedir qu) (Itoa p) jobs (fs w) ->
     quiet (sched w') = true /\ kill0 w' = kill0 w /\
     (slot_intact (kill0 w) (basedir qu) (Itoa p) jobs (fs w') \/
      slot_rescued (kill0 w) (basedir qu) (Itoa p) jobs (fs w')) /\
     (s' = Itoa p -> slot_rescued (kill0 w) (basedir qu) (Itoa p) jobs (fs w')))).
  { intros Hq' K' -> Hn. split; [auto|]. intro Hi. split; [auto|].
    split; [auto|]. split; [auto|]. intro E. now destruct (Hn E). }
  rewrite RescueDeadJobs_body_eq in H.
  destruct (Atoi s') as [p' [ea|]] eqn:Ea.
  { destruct (log_Println_quiet _ _ _ H) as (F & K & Hq').
    apply Hsame; auto. intros ->. rewrite (Atoi_Itoa _ Hr) in Ea. discriminate. }
  assert (Hp' : s' = Itoa p -> p' = p).
  { intros ->. rewrite (Atoi_Itoa _ Hr) in Ea. congruence. }
  destruct (kill0 w p') as [e|] eqn:Ek.
  - destruct (errno_eqb e ESRCH) eqn:Ee.
    + unfold bind at 1 in H.
      destruct (log_Println (LogGoneAway p') w) as [[] w1] eqn:E1.
      destruct (log_Println_quiet _ _ _ E1) as (F1 & K1 & Hq1).
      destruct (string_dec (Itoa p') (Itoa p)) as [Es|Es].
      * assert (p' = p) by (apply Itoa_inj; eauto using Atoi_in_range).
        subst p'. split.
        -- intro Hi. rewrite <- F1 in Hi.
           destruct (rescue_ours_rescued _ qu p jobs w1 w' (Hq1 Hq) Hi H)
             as (A & B & C).
           split; [exact A|]. split; [congruence|exact C].
        -- intro Hi. rewrite <- F1 in Hi.
           destruct (rescue_ours_intact _ qu p jobs w1 w' (Hq1 Hq) Hi H)
             as (A & B & C).
           split; [exact A|]. split; [congruence|]. auto.
      * assert (Hr' : in_range p' = true) by eauto using Atoi_in_range.
        assert (Hk' : kill0 w p' = Some ESRCH).
        { rewrite Ek. f_equal. now apply errno_eqb_eq. }
        split.
        -- intro Hi. rewrite <- F1 in Hi.
           destruct (rescue_other (kill0 w) qu (Itoa p) jobs
                       (slot_rescued (kill0 w) (basedir qu) (Itoa p) jobs)
                       ltac:(intros t Ht; apply Ht)
                       ltac:(intros t Ht; apply Ht)
                       ltac:(intros t t'; apply other_step_rescued)
                       p' w1 w' Hr' Hk' Es (Hq1 Hq) Hi H) as (A & B & C).
           split; [exact A|]. split; [congruence|exact C].
        -- intro Hi. rewrite <- F1 in Hi.
           destruct (rescue_other (kill0 w) qu (Itoa p) jobs
                       (slot_intact (kill0 w) (basedir qu) (Itoa p) jobs)
                       ltac:(intros t Ht; apply Ht)
                       ltac:(intros t Ht; apply Ht)
                       ltac:(intros t t'; apply other_step_intact)
                       p' w1 w' Hr' Hk' Es (Hq1 Hq) Hi H) as (A & B & C).
           split; [exact A|]. split; [congruence|]. split; [auto|].
           intro E. apply Hp' in E. subst p'. now destruct Es.
    + unfold bind in H.
      destruct (log_Println (LogKillFailed p' e) w) as [[] w1] eqn:E1.
      destruct (log_Println_quiet _ _ _ E1) as (F1 & K1 & Hq1).
      destruct (log_Println_quiet _ _ _ H) as (F2 & K2 & Hq2).
      apply Hsame; [auto|congruence|congruence|].
      intro E. apply Hp' in E. subst p'. rewrite Hk in Ek. injection Ek as <-.
      discriminate.
  - injection H as <-. apply Hsame; auto.
    intro E. apply Hp' in E. subst p'. congruence.
Qed.

Lemma RescueDeadJobs_range_step (qu : Queue) (p : Z) (jobs : list (string * node))
      (names : list string) :
  in_range p = true ->
  forall w w', kill0 w p = Some ESRCH -> quiet (sched w) = true ->
  RescueDeadJobs_range qu names w = (tt, w') ->
  (slot_rescued (kill0 w) (basedir qu) (Itoa p) jobs (fs w) ->
   quiet (sched w') = true /\ kill0 w' = kill0 w /\
   slot_rescued (kill0 w) (basedir qu) (Itoa p) jobs (fs w')) /\
  (slot_intact (kill0 w) (basedir qu) (Itoa p) jobs (fs w) ->
   quiet (sched w') = true /\ kill0 w' = kill0 w /\
   (slot_intact (kill0 w) (basedir qu) (Itoa p) jobs (fs w') \/
    slot_rescued (kill0 w) (basedir qu) (Itoa p) jobs (fs w')) /\
   (In (Itoa p) names -> slot_rescued (kill0 w) (basedir qu) (Itoa p) jobs (fs w'))).
Proof.
  intro Hr. induction names as [|s' names IH]; intros w w' Hk Hq H.
  - injection H as <-. split; [auto|]. intro Hi. split; [auto|].
    split; [auto|]. split; [auto|]. intros [].
  - cbn [RescueDeadJobs_range] in H. unfold bind in H.
    destruct (RescueDeadJobs_body qu s' w) as [[] w1] eqn:E1.
    destruct (RescueDeadJobs_body_step qu p jobs s' w w1 Hr Hk Hq E1) as [B1 A1].
    split.
    + intro Hi. destruct (B1 Hi) as (Hq1 & K1 & Hi1).
      destruct (IH w1 w') as [B2 _]; [congruence|exact Hq1|exact H|].
      rewrite K1 in B2.
      destruct (B2 Hi1) as (Hq2 & K2 & Hi2). split; [exact Hq2|].
      split; [congruence|exact Hi2].
    + intro Hi. destruct (A1 Hi) as (Hq1 & K1 & Hi1 & Hs1).
      destruct (IH w1 w') as [B2 A2]; [congruence|exact Hq1|exact H|].
      rewrite K1 in B2, A2.
      destruct Hi1 as [Hi1|Hi1].
      * destruct (A2 Hi1) as (Hq2 & K2 & Hi2 & Hs2).
        split; [exact Hq2|]. split; [congruence|]. split; [exact Hi2|].
        intros [E|Hin]; [|auto].
        destruct (B2 (Hs1 E)) as (_ & _ & Hi3). exact Hi3.
      * destruct (B2 Hi1) as (Hq2 & K2 & Hi2).
        split; [exact Hq2|]. split; [congruence|]. auto.
Qed.

Lemma wf_three_slots : wf Examples.three_slots.
Proof.
  unfold Examples.three_slots, Examples.queue_tree, Examples.build1. wf_tac.
Qed.

Lemma intact_three_slots :
  slot_intact Examples.guarded ["q"] "9" [("j2", Dir [])] Examples.three_slots.
Proof.
  split; [exact wf_three_slots|]. split; [|split].
  - intros p' js x Hr Hk Hs' Hw Hx.
    change (["q"] ++ ["cur"; Itoa p']) with (["q"; "cur"] ++ [Itoa p']) in Hw.
    rewrite (walk_snoc ["q"; "cur"] (Itoa p') Examples.three_slots
               [("42", Dir [("j2", Examples.build1)]);
                ("7", Dir [("j1", Examples.build1)]);
                ("9", Dir [("j2", Dir [])])] eq_refl) in Hw.
    cbn [assoc] in Hw.
    destruct (String.eqb "42" (Itoa p')) eqn:E42.
    { apply String.eqb_eq in E42.
      assert (p' = 42%Z) by (apply Itoa_inj; [exact Hr|reflexivity|now symmetry]).
      subst p'. discriminate. }
    destruct (String.eqb "7" (Itoa p')) eqn:E7.
    { apply String.eqb_eq in E7.
      assert (p' = 7%Z) by (apply Itoa_inj; [exact Hr|reflexivity|now symmetry]).
      subst p'. discriminate. }
    destruct (String.eqb "9" (Itoa p')) eqn:E9; [|discriminate].
    apply String.eqb_eq in E9. congruence.
  - reflexivity.
  - exists []. split; [reflexivity|]. intros x _ [].
Qed.

(** ** Take, turn by turn *)

Lemma rand_Intn_inv (n : nat) (w w' : World) (i : nat) :
  rand_Intn n w = (i, w') ->
  fs w' = fs w /\ sched w' = sched w /\ kill0 w' = kill0 w /\ pid w' = pid w /\
  log w' = log w /\ (n <> 0%nat -> (i < n)%nat).
Proof.
  unfold rand_Intn. destruct (rand w) as [|r rs]; intros [= <- <-]; cbn.
  - repeat split; auto. lia.
  - repeat split; auto. intro Hn. now apply Nat.mod_upper_bound.
Qed.

(** One turn of the loop of [Take] when no other process acts: the turn
    that returns a job has moved it from [new] to the owner slot; every
    other turn leaves the tree as it was. *)
Lemma Take_iter_calm (qu : Queue) (w w' : World)
      (res : option (option Job * error)) :
  calm (sched w) = true -> wf (fs w) ->
  Queue_Take_iter qu w = (res, w') ->
  later w w' /\ log w' = log w /\
  match res with
  | Some (Some job, err) =>
      err = None /\ q job = qu /\
      dir job = basedir qu ++ ["cur"; Itoa (pid w); Basename job] /\
      (exists names, readdir (Queue_getNewDir qu) (fs w) = inr names /\
                     In (Basename job) names) /\
      rename (basedir qu ++ ["new"; Basename job]) (dir job) (fs w)
        = inr (fs w')
  | _ => fs w' = fs w
  end.
Proof.
  intros Hc Hw H. unfold Queue_Take_iter, bind in H.
  destruct (os_Readdirnames _ w) as [[names r] w1] eqn:E1.
  destruct (os_Readdirnames_inv _ _ _ _ _ E1) as (Hl1 & L1 & _ & _ & F1 & Hres).
  rewrite (seen_calm _ Hc) in *.
  destruct r as [e|]; unfold ret in H.
  { injection H as <- <-. auto. }
  destruct (List.length names =? 0)%nat eqn:En.
  { injection H as <- <-. auto. }
  apply Nat.eqb_neq in En.
  destruct (rand_Intn _ w1) as [i w2] eqn:E2.
  destruct (rand_Intn_inv _ _ _ _ E2) as (F2 & S2 & K2 & P2 & L2 & Hi).
  specialize (Hi En). unfold os_Getpid in H.
  pose proof (later_same_sched _ _ S2 K2 P2) as Hl2.
  assert (Hin : In (nth i names "") names) by now apply nth_In.
  destruct (readdir_plain _ _ _ Hw Hres) as [Hpl _].
  rewrite Forall_forall in Hpl. specialize (Hpl _ Hin).
  rewrite (Join_two _ "new" _ eq_refl Hpl), (Join_mycur_plain _ _ _ Hpl) in H.
  destruct (os_Rename _ _ w2) as [r w3] eqn:E3.
  assert (Hc2 : calm (sched w2) = true) by eauto using later_calm.
  destruct (update_inv _ _ _ _ E3) as (Hl3 & L3 & _ & _ & Hop).
  rewrite (seen_calm _ Hc2), F2, F1 in Hop.
  assert (Hl : later w w3) by eauto using later_trans.
  assert (Hp : pid w2 = pid w) by (destruct Hl1 as (_ & P1 & _); congruence).
  split; [|split].
  - destruct r as [e|]; [destruct (os_IsNotExist e)|];
      injection H as <- <-; exact Hl.
  - destruct r as [e|]; [destruct (os_IsNotExist e)|];
      injection H as <- <-; congruence.
  - destruct r as [e|]; [destruct (os_IsNotExist e)|]; injection H as <- <-.
    + tauto.
    + tauto.
    + cbn [q dir Basename]. rewrite Hp in *. split; [reflexivity|].
      split; [reflexivity|]. split; [reflexivity|].
      split; [|now apply os_rename_ok].
      exists names. rewrite getNewDir_eq.
      rewrite (Join_plain _ "new" eq_refl) in Hres. auto.
Qed.

Lemma wf_submitted : wf (fs Examples.submitted).
Proof.
  unfold Examples.submitted, Examples.queue_tree, Examples.build1. cbn [fs].
  wf_tac.
Qed.

Lemma rename_no_parent (src dd : path) (c : string) (t x : node) (e : errno) :
  walk src t = inr x -> src <> [] -> walk dd t = inl e ->
  rename src (dd ++ [c]) t = inl e.
Proof.
  intros Hx Hs Hd. unfold rename. rewrite Hx.
  destruct src as [|a src]; [congruence|].
  destruct (dd ++ [c]) as [|a' dst'] eqn:Edst; [now destruct dd|].
  rewrite <- Edst. now rewrite parent_dir_snoc, Hd.
Qed.

Lemma readdir_inv (p : path) (t : node) (l : list string) :
  readdir p t = inr l -> exists es, walk p t = inr (Dir es) /\ l = names es.
Proof.
  unfold readdir. destruct (walk p t) as [e|[b|es]]; try discriminate.
  intros [= <-]. eauto.
Qed.

(** One turn of the loop of [Take] when every system call runs normally and
    [new] lists [names]: the name [c] is drawn, it is the name of a node of
    [new], and the turn ends as the rename of [c] into the owner slot
    does. *)
Lemma Take_iter_quiet (qu : Queue) (w : World) (names : list string) :
  quiet (sched w) = true -> wf (fs w) ->
  readdir (basedir qu ++ ["new"]) (fs w) = inr names -> names <> [] ->
  exists c w2 x,
    c = nth (fst (rand_Intn (List.length names) w)) names "" /\
    In c names /\ plain c = true /\
    walk (basedir qu ++ ["new"; c]) (fs w) = inr x /\
    quiet (sched w2) = true /\ fs w2 = fs w /\ pid w2 = pid w /\
    kill0 w2 = kill0 w /\ log w2 = log w /\
    Queue_Take_iter qu w =
    (let (err, w3) :=
       os_Rename (basedir qu ++ ["new"; c])
                 (basedir qu ++ ["cur"; Itoa (pid w); c]) w2 in
     match err with
     | Some e =>
         if os_IsNotExist e then (None, w3) else (Some (None, Some e), w3)
     | None =>
         (Some (Some (mkJob c (basedir qu ++ ["cur"; Itoa (pid w); c]) qu),
                None), w3)
     end).
Proof.
  intros Hq Hw Hrd Hne. unfold Queue_Take_iter, bind.
  rewrite (Join_plain _ "new" eq_refl).
  destruct (os_Readdirnames _ w) as [[l r] w1] eqn:E1.
  destruct (os_Readdirnames_quiet _ _ _ _ _ Hq E1)
    as (Hq1 & P1 & K1 & L1 & R1 & _ & F1 & Hres).
  rewrite Hrd in Hres. destruct Hres as [-> ->].
  assert (En : (List.length names =? 0)%nat = false).
  { destruct names; [congruence|reflexivity]. }
  rewrite En. apply Nat.eqb_neq in En.
  destruct (rand_Intn _ w1) as [i w2] eqn:E2.
  destruct (rand_Intn_inv _ _ _ _ E2) as (F2 & S2 & K2 & P2 & L2 & Hi).
  specialize (Hi En).
  assert (Ei : fst (rand_Intn (List.length names) w) = i).
  { unfold rand_Intn in *. rewrite R1 in E2.
    destruct (rand w); injection E2 as <- _; reflexivity. }
  assert (Hin : In (nth i names "") names) by now apply nth_In.
  destruct (readdir_plain _ _ _ Hw Hrd) as [Hpl _].
  rewrite Forall_forall in Hpl. specialize (Hpl _ Hin).
  destruct (readdir_inv _ _ _ Hrd) as (es & Hnew & ->).
  destruct (In_assoc _ _ Hin) as [x Hx].
  exists (nth i (names es) ""), w2, x. rewrite Ei.
  split; [reflexivity|]. split; [exact Hin|]. split; [exact Hpl|]. split.
  { change (basedir qu ++ ["new"; nth i (names es) ""])
      with (basedir qu ++ ["new"] ++ [nth i (names es) ""]).
    rewrite app_assoc, (walk_snoc _ _ _ _ Hnew), Hx. reflexivity. }
  split; [now rewrite S2|]. split; [congruence|]. split; [congruence|].
  split; [congruence|]. split; [congruence|].
  unfold os_Getpid.
  rewrite (Join_two _ "new" _ eq_refl Hpl), (Join_mycur_plain _ _ _ Hpl).
  assert (Hp : pid w2 = pid w) by congruence. rewrite Hp.
  destruct (os_Rename _ _ w2) as [[e|] w3]; [|reflexivity].
  now destruct (os_IsNotExist e).
Qed.

Lemma wf_orphaned : wf (fs Examples.orphaned).
Proof.
  unfold Examples.orphaned, Examples.queue_tree, Examples.build1. cbn [fs].
  wf_tac.
Qed.

Lemma walk_error (p : path) : forall (t : node) (e : errno),
  walk p t = inl e -> e = ENOENT \/ e = ENOTDIR.
Proof.
  induction p as [|c p IH]; intros t e H; cbn in H; [discriminate|].
  destruct t as [b|es]; [injection H as <-; auto|].
  destruct (assoc c es) as [t'|]; [eauto|injection H as <-; auto].
Qed.

(** [os.Rename] onto a name that its directory does not hold is rename(2);
    below a directory that does not resolve it fails as rename(2) does. *)
Lemma os_rename_fresh (src dd : path) (cd : string) (t x : node)
      (es : list (string * node)) :
  walk src t = inr x -> src <> [] -> walk dd t = inr (Dir es) ->
  assoc cd es = None -> prefix src (dd ++ [cd]) = false ->
  os_rename src (dd ++ [cd]) t = inr (put (dd ++ [cd]) x (del src t)).
Proof.
  intros Hs Hne Hd Ha Hp. rewrite (os_rename_absent _ _ _ ENOENT).
  - now apply (rename_fresh _ _ _ _ _ es).
  - now rewrite (walk_snoc _ _ _ _ Hd), Ha.
Qed.

Lemma os_rename_no_parent (src dd : path) (c : string) (t x : node) (e : errno) :
  walk src t = inr x -> src <> [] -> walk dd t = inl e ->
  os_rename src (dd ++ [c]) t = inl e.
Proof.
  intros Hs Hne Hd. rewrite (os_rename_absent _ _ _ e).
  - now apply (rename_no_parent _ _ _ _ x).
  - now apply walk_below_error.
Qed.

(** A call that changes the tree, when its event does not make it fail. *)
Lemma update_run (op : node -> errno + node) (w : World) :
  faulty (hd Quiet (sched w)) = false ->
  exists w', update op w =
             (match op (seen w) with inl e => Some e | inr _ => None end, w') /\
             fs w' = match op (seen w) with inl _ => seen w | inr t' => t' end /\
             log w' = log w /\ pid w' = pid w.
Proof.
  intro Hf. destruct (update op w) as [r w'] eqn:E. exists w'.
  destruct (update_inv _ _ _ _ E) as ((_ & Hp & _) & L & _ & _ & Hres).
  destruct r as [e|].
  - destruct Hres as [F Hop]. rewrite (Hop Hf). auto.
  - rewrite Hres. auto.
Qed.

(** ** What the sweep keeps *)

Section SweepInvariant.

Variable qu : Queue.

(** A property of the tree that holds of well-formed trees only and that
    the two changes the sweep makes keep: the move of an entry of the slot
    of a process to [new], under its name, and the removal of such a
    slot. *)
Variable Inv : node -> Prop.
Hypothesis Inv_wf : forall t, Inv t -> wf t.
Hypothesis Inv_rename :
  forall t t' p' y, in_range p' = true -> Inv t -> plain y = true ->
    rename ((basedir qu ++ ["cur"; Itoa p']) ++ [y])
           ((basedir qu ++ ["new"]) ++ [y]) t = inr t' ->
    Inv t'.
Hypothesis Inv_remove :
  forall t t' p', in_range p' = true -> Inv t ->
    remove (basedir qu ++ ["cur"; Itoa p']) t = inr t' -> Inv t'.

Lemma rescue_range_keeps (p' : Z) (l : list string) :
  in_range p' = true ->
  Forall (fun n => plain n = true) l ->
  forall w w', calm (sched w) = true -> Inv (fs w) ->
  rescueDeadJobsFrom_range qu p' (Queue_getWorkerDir qu p') l w = (tt, w') ->
  later w w' /\ Inv (fs w').
Proof.
  intros Hr Hpl. induction Hpl as [|y l Hy _ IH]; intros w w' Hc Hi H.
  - injection H as <-. auto using later_refl.
  - cbn [rescueDeadJobsFrom_range] in H. unfold bind in H.
    rewrite getWorkerDir_eq, getNewDir_eq, !(Join_plain _ _ Hy) in H.
    destruct (os_Rename _ _ w) as [r w1] eqn:E1.
    destruct (os_Rename_calm _ _ _ _ _ Hc E1) as (Hl1 & _ & Hfs1).
    assert (Hi1 : Inv (fs w1)).
    { destruct Hfs1 as [->|[_ Hop]]; [exact Hi|]. eauto. }
    set (m := match r with
              | Some e => LogRescheduleFailed y p' e
              | None => LogRescheduled y p'
              end).
    assert (E2 : match r with
                 | Some e => log_Println (LogRescheduleFailed y p' e)
                 | None => log_Println (LogRescheduled y p')
                 end = log_Println m) by now destruct r.
    rewrite E2 in H.
    destruct (log_Println m w1) as [[] w2] eqn:E3.
    destruct (log_Println_later _ _ _ E3) as (Hl2 & _ & _ & F2).
    rewrite <- getWorkerDir_eq in H.
    destruct (IH w2 w') as (Hl3 & Hi3);
      [eauto using later_calm|now rewrite F2|exact H|].
    split; [eauto using later_trans|exact Hi3].
Qed.

Lemma RescueDeadJobs_body_keeps (s' : string) (w w' : World) :
  calm (sched w) = true -> Inv (fs w) ->
  RescueDeadJobs_body qu s' w = (tt, w') ->
  later w w' /\ Inv (fs w').
Proof.
  intros Hc Hi H. rewrite RescueDeadJobs_body_eq in H.
  destruct (Atoi s') as [p' [ea|]] eqn:Ea.
  { destruct (log_Println_later _ _ _ H) as (A & _ & _ & C). now rewrite C. }
  pose proof (Atoi_in_range _ _ Ea) as Hr.
  destruct (kill0 w p') as [e|] eqn:Ek; [|injection H as <-; auto using later_refl].
  destruct (errno_eqb e ESRCH).
  - unfold bind at 1 2 in H.
    destruct (log_Println (LogGoneAway p') w) as [[] w1] eqn:E1.
    destruct (log_Println_later _ _ _ E1) as (Hl1 & _ & _ & F1).
    destruct (Queue_rescueDeadJobsFrom qu p' w1) as [[] w3] eqn:E.
    assert (K : later w1 w3 /\ Inv (fs w3)).
    { unfold Queue_rescueDeadJobsFrom, readdirnames, bind in E.
      destruct (os_Readdirnames _ w1) as [[l r] w1'] eqn:E1'.
      assert (Hc1 : calm (sched w1) = true) by eauto using later_calm.
      destruct (os_Readdirnames_calm _ _ _ _ _ Hc1 E1') as (Hl1' & _ & F1' & Hl).
      assert (Hpl : Forall (fun n => plain n = true) l).
      { destruct Hl as [->|Hl]; [constructor|].
        rewrite F1 in Hl. now destruct (readdir_plain _ _ _ (Inv_wf _ Hi) Hl). }
      assert (E2 : exists w2,
                (match r with
                 | Some _ => log_Println (LogReadSlotFailed p' (Queue_getWorkerDir qu p'))
                 | None => ret tt
                 end) w1' = (tt, w2) /\ later w1' w2 /\ fs w2 = fs w1').
      { destruct r as [e'|].
        - destruct (log_Println _ w1') as [[] w2] eqn:El.
          destruct (log_Println_later _ _ _ El) as (A & _ & _ & C). eauto.
        - exists w1'. unfold ret. auto using later_refl. }
      destruct E2 as (w2 & E2 & Hl2 & F2). rewrite E2 in E.
      destruct (rescue_range_keeps p' l Hr Hpl w2 w3) as (Hl3 & Hi3);
        [eauto using later_calm|now rewrite F2, F1', F1|exact E|].
      split; [eauto using later_trans|exact Hi3]. }
    destruct K as (Hl3 & Hi3). unfold bind in H.
    destruct (os_Remove _ w3) as [r w4] eqn:E4.
    assert (Hc3 : calm (sched w3) = true) by eauto using later_calm.
    destruct (update_calm _ _ _ _ Hc3 E4) as (Hl4 & _ & Hfs4).
    assert (Hi4 : Inv (fs w4)).
    { destruct Hfs4 as [->|[_ Hop]]; [exact Hi3|].
      rewrite getWorkerDir_eq in Hop. eauto. }
    assert (Hl : later w w4) by eauto using later_trans.
    destruct r as [e'|].
    + destruct (log_Println_later _ _ _ H) as (A & _ & _ & C).
      rewrite C. eauto using later_trans.
    + injection H as <-. auto.
  - unfold bind in H.
    destruct (log_Println (LogKillFailed p' e) w) as [[] w1] eqn:E1.
    destruct (log_Println_later _ _ _ E1) as (Hl1 & _ & _ & F1).
    destruct (log_Println_later _ _ _ H) as (A & _ & _ & C).
    rewrite C, F1. eauto using later_trans.
Qed.

Lemma RescueDeadJobs_range_keeps (names : list string) :
  forall w w', calm (sched w) = true -> Inv (fs w) ->
  RescueDeadJobs_range qu names w = (tt, w') ->
  later w w' /\ Inv (fs w').
Proof.
  induction names as [|s' names IH]; intros w w' Hc Hi H.
  - injection H as <-. auto using later_refl.
  - cbn [RescueDeadJobs_range] in H. unfold bind in H.
    destruct (RescueDeadJobs_body qu s' w) as [[] w1] eqn:E1.
    destruct (RescueDeadJobs_body_keeps _ _ _ Hc Hi E1) as (Hl1 & Hi1).
    destruct (IH w1 w') as (Hl2 & Hi2); eauto using later_calm, later_trans.
Qed.

Lemma RescueDeadJobs_keeps (w w' : World) (r : error) :
  calm (sched w) = true -> Inv (fs w) ->
  Queue_RescueDeadJobs qu w = (r, w') ->
  later w w' /\ Inv (fs w').
Proof.
  intros Hc Hi H. unfold Queue_RescueDeadJobs, readdirnames, bind in H.
  destruct (os_Readdirnames _ w) as [[l r0] w1] eqn:E1.
  destruct (os_Readdirnames_calm _ _ _ _ _ Hc E1) as (Hl1 & _ & F1 & _).
  destruct r0 as [e|].
  - destruct (log_Println _ w1) as [[] w2] eqn:E2.
    destruct (log_Println_later _ _ _ E2) as (Hl2 & _ & _ & F2).
    injection H as <- <-. rewrite F2, F1. eauto using later_trans.
  - destruct (RescueDeadJobs_range qu l w1) as [[] w2] eqn:E2.
    injection H as <- <-.
    destruct (RescueDeadJobs_range_keeps l w1 w2) as (Hl2 & Hi2);
      [eauto using later_calm|now rewrite F1|exact E2|].
    eauto using later_trans.
Qed.

End SweepInvariant.

Lemma prefix_app_l (a r p : path) :
  prefix (a ++ r) p = true -> prefix a p = true.
Proof.
  revert p. induction a as [|c a IH]; intros p H; [reflexivity|].
  destruct p as [|c' p]; [discriminate|]. cbn in *.
  apply andb_true_iff in H as [H1 H2]. rewrite H1. cbn. now apply IH.
Qed.

Lemma prefix_of_app (p a r : path) :
  prefix p (a ++ r) = true -> prefix p a = true \/ prefix a p = true.
Proof.
  revert a. induction p as [|c p IH]; intros a H; [now left|].
  destruct a as [|c' a]; [now right|]. cbn in *.
  apply andb_true_iff in H as [H1 H2]. rewrite H1. cbn.
  destruct (IH _ H2) as [K|K]; [now left|right].
  apply String.eqb_eq in H1. subst. now rewrite String.eqb_refl.
Qed.

Lemma prefix_outside (a r p : path) :
  prefix a p = false -> prefix p a = false ->
  prefix (a ++ r) p = false /\ prefix p (a ++ r) = false.
Proof.
  intros H1 H2. split.
  - destruct (prefix (a ++ r) p) eqn:E; [|reflexivity].
    apply prefix_app_l in E. congruence.
  - destruct (prefix p (a ++ r)) eqn:E; [|reflexivity].
    apply prefix_of_app in E as [E|E]; congruence.
Qed.

Lemma wf_crowded : wf (fs Examples.crowded).
Proof. unfold Examples.crowded, Examples.build1. cbn [fs]. wf_tac. Qed.

(** [Take] that returns a job, when no other process acts: the turns before
    the last leave the tree as it was, and the last is the rename of the
    job. *)
Lemma Take_calm_inv (qu : Queue) (fuel : nat) (job : Job) :
  forall (w w' : World),
  calm (sched w) = true -> wf (fs w) ->
  Queue_Take fuel qu w = (Some (Some job, None), w') ->
  later w w' /\ q job = qu /\
  dir job = basedir qu ++ ["cur"; Itoa (pid w); Basename job] /\
  (exists names, readdir (Queue_getNewDir qu) (fs w) = inr names /\
                 In (Basename job) names) /\
  rename (basedir qu ++ ["new"; Basename job]) (dir job) (fs w) = inr (fs w').
Proof.
  induction fuel as [|fuel IH]; intros w w' Hc Hw H; [discriminate|].
  cbn [Queue_Take] in H. unfold bind in H.
  destruct (Queue_Take_iter qu w) as [res w1] eqn:E.
  destruct (Take_iter_calm _ _ _ _ Hc Hw E) as (Hl & _ & Hres).
  destruct res as [[[j|] err]|]; unfold ret in H.
  - injection H as -> -> <-. destruct Hres as (_ & Hq & Hd & Hn & Hop). auto.
  - discriminate.
  - pose proof Hl as (_ & Hp & _).
    destruct (IH w1 w') as (Hl' & Hq & Hd & Hn & Hop);
      [eauto using later_calm|now rewrite Hres|exact H|].
    rewrite Hres, Hp in *. eauto 6 using later_trans.
Qed.

(** [ensuredir] adds a directory at its path, or nothing, when no other
    process acts. *)
Lemma ensuredir_grown (b : path) (parts : list string) (w w' : World)
      (r : error) :
  calm (sched w) = true ->
  ensuredir b parts w = (r, w') ->
  later w w' /\ log w' = log w /\ grown [Join b parts] (fs w) (fs w').
Proof.
  intros Hc H. unfold ensuredir, bind, os_Mkdir in H.
  destruct (update (mkdir (Join b parts)) w) as [err w1] eqn:E.
  destruct (update_calm _ _ _ _ Hc E) as (Hl & L & Hfs).
  assert (K : w' = w1).
  { destruct (os_IsExist err); unfold ret in H; now injection H as _ <-. }
  subst w1. split; [exact Hl|]. split; [exact L|].
  destruct Hfs as [->|[_ Hop]]; [apply grown_refl|].
  destruct (mkdir_inv _ _ _ Hop) as (d & c & es & e & Hp & Hd & He & ->).
  rewrite Hp in *. now apply (grown_put _ _ _ _ _ Hd He).
Qed.

Lemma OpenQueue_range_grown (qu : Queue) (ps : list path) (ds : list string) :
  (forall n, In n ds -> In (Join (basedir qu) [n]) ps) ->
  forall (w w' : World) (r : error),
  calm (sched w) = true ->
  OpenQueue_range qu ds w = (r, w') ->
  later w w' /\ log w' = log w /\ grown ps (fs w) (fs w').
Proof.
  induction ds as [|n ds IH]; intros Hin w w' r Hc H.
  - injection H as _ <-. auto using later_refl, grown_refl.
  - cbn [OpenQueue_range] in H. unfold bind in H.
    destruct (ensuredir (basedir qu) [n] w) as [err w1] eqn:E1.
    destruct (ensuredir_grown _ _ _ _ _ Hc E1) as (Hl1 & L1 & G1).
    assert (G1' : grown ps (fs w) (fs w1)).
    { eapply grown_weaken; [|exact G1]. intros p [<-|[]]. apply Hin. now left. }
    destruct err as [e|]; unfold ret in H.
    + injection H as _ <-. auto.
    + destruct (IH (fun m Hm => Hin m (or_intror Hm)) w1 w' r) as (Hl2 & L2 & G2);
        [eauto using later_calm|exact H|].
      split; [eauto using later_trans|]. split; [congruence|].
      eauto using grown_trans.
Qed.

(** ** The errors of [os.Rename] *)

Lemma os_rename_error_exists (src dst : path) (t x : node)
      (es : list (string * node)) (e : errno) :
  walk src t = inr x -> parent_dir dst t = inr es ->
  os_rename src dst t = inl e -> os_IsNotExist e = false.
Proof.
  intros Hw Hp. unfold os_rename.
  destruct (walk dst t) as [e0|[b|es0]] eqn:Ed.
  - unfold rename. rewrite Hw, Hp. intro Hop.
    destruct src as [|s0 sl]; [injection Hop as <-; reflexivity|].
    destruct dst as [|d0 dl]; [injection Hop as <-; reflexivity|].
    destruct (path_eqb _ _); [discriminate|].
    destruct (is_dir x && prefix _ _); [injection Hop as <-; reflexivity|].
    rewrite Ed in Hop. discriminate.
  - unfold rename. rewrite Hw, Hp. intro Hop.
    destruct src as [|s0 sl]; [injection Hop as <-; reflexivity|].
    destruct dst as [|d0 dl]; [injection Hop as <-; reflexivity|].
    destruct (path_eqb _ _); [discriminate|].
    destruct (is_dir x && prefix _ _); [injection Hop as <-; reflexivity|].
    rewrite Ed in Hop. destruct x; try discriminate; injection Hop as <-; reflexivity.
  - rewrite Hw. intros [= <-]. reflexivity.
Qed.

Lemma os_rename_missing_source (src dst : path) (t : node) (e : errno) :
  walk src t = inl ENOENT -> os_rename src dst t = inl e -> e = ENOENT.
Proof.
  intros Hw. unfold os_rename, rename. rewrite Hw.
  destruct (walk dst t) as [e0|[b|es0]]; congruence.
Qed.

(** ** The names that [ioutil.TempDir] and [ioutil.TempFile] try *)

Lemma append_length (a b : string) :
  String.length (a ++ b) = (String.length a + String.length b)%nat.
Proof. induction a as [|c a IH]; cbn; [reflexivity|]. now rewrite IH. Qed.

Lemma append_inv_head (p a b : string) : (p ++ a)%string = (p ++ b)%string -> a = b.
Proof. induction p as [|c p IH]; cbn; [auto|]. intros [= H]. auto. Qed.

Lemma no_slash_append (a b : string) :
  no_slash (a ++ b) = no_slash a && no_slash b.
Proof.
  induction a as [|c a IH]; cbn; [reflexivity|]. now rewrite IH, andb_assoc.
Qed.

Lemma cut_last_star_inv (s a b : string) :
  cut_last_star s = Some (a, b) -> s = (a ++ String "*"%char b)%string.
Proof.
  revert a b. induction s as [|c s IH]; intros a b; cbn; [discriminate|].
  destruct (cut_last_star s) as [[a' b']|].
  - intros [= <- <-]. cbn. now rewrite (IH a' b' eq_refl).
  - destruct (Ascii.eqb c "*"%char) eqn:E; [|discriminate].
    apply Ascii.eqb_eq in E. intros [= <- <-]. now subst c.
Qed.

(** What [prefixAndSuffix] accepts, and how it cuts it. *)
Lemma prefixAndSuffix_inv (pattern pre suf : string) :
  prefixAndSuffix pattern = Some (pre, suf) ->
  no_slash pattern = true /\ no_slash pre = true /\ no_slash suf = true /\
  (pattern = (pre ++ String "*"%char suf)%string \/ pattern = pre /\ suf = "").
Proof.
  unfold prefixAndSuffix. destruct (no_slash pattern) eqn:Hn; [|discriminate].
  destruct (cut_last_star pattern) as [[a b]|] eqn:Hc.
  - intros [= <- <-]. apply cut_last_star_inv in Hc. subst pattern.
    rewrite no_slash_append in Hn. cbn in Hn.
    apply andb_true_iff in Hn as [Ha Hb].
    auto 8.
  - intros [= <- <-]. auto 8.
Qed.

Lemma prefixAndSuffix_separator (pattern : string) :
  no_slash pattern = false -> prefixAndSuffix pattern = None.
Proof. intro H. unfold prefixAndSuffix. now rewrite H. Qed.

Lemma digit_not_dot (c : ascii) : is_digit c = true -> c <> "."%char.
Proof. intros H ->. discriminate. Qed.

Lemma digit_not_star (c : ascii) : is_digit c = true -> c <> "*"%char.
Proof. intros H ->. discriminate. Qed.

(** A name with a digit in it is not one of the names a directory entry
    cannot have. *)
Lemma with_digit_plain (a rnd b : string) :
  no_slash a = true -> no_slash b = true ->
  all_digits rnd = true -> rnd <> "" ->
  plain (a ++ rnd ++ b) = true.
Proof.
  intros Ha Hb Hd Hne. pose proof (all_digits_no_slash _ Hd) as Hns.
  destruct rnd as [|c r]; [congruence|].
  cbn in Hd. apply andb_true_iff in Hd as [Hc Hr].
  pose proof (digit_not_dot _ Hc) as Hdot.
  unfold plain. rewrite !no_slash_append, Ha, Hb, Hns.
  cbn [andb].
  assert (K : forall s, (a ++ String c r ++ b)%string = s ->
                        s <> "" /\ s <> "." /\ s <> "..").
  { intros s <-. destruct a as [|x [|y [|z a]]]; cbn; repeat split;
      try discriminate; intros [= ]; congruence. }
  destruct (K _ eq_refl) as (K1 & K2 & K3).
  apply String.eqb_neq in K1, K2, K3. now rewrite K1, K2, K3.
Qed.

(** The name tried is never the pattern itself. *)
Lemma with_digit_differs (pattern pre suf rnd : string) :
  prefixAndSuffix pattern = Some (pre, suf) ->
  all_digits rnd = true -> rnd <> "" ->
  (pre ++ rnd ++ suf)%string <> pattern.
Proof.
  intros Hps Hd Hne E.
  destruct (prefixAndSuffix_inv _ _ _ Hps) as (_ & _ & _ & [Hp|[Hp ->]]).
  - rewrite Hp in E. apply append_inv_head in E.
    destruct rnd as [|c r]; [congruence|]. cbn in E, Hd.
    injection E as -> E. discriminate.
  - subst pre. apply (f_equal String.length) in E.
    rewrite !append_length in E. destruct rnd; [congruence|]. cbn in E. lia.
Qed.

(** A name that [temp_loop] tries is a plain name in [dir], and is not the
    pattern. *)
Lemma temp_name_inv (d : path) (pattern : string) (fn : path) :
  temp_name d pattern fn ->
  exists c, fn = d ++ [c] /\ plain c = true /\ c <> pattern /\
            no_slash pattern = true.
Proof.
  intros (pre & suf & rnd & Hps & Hd & Hne & ->).
  destruct (prefixAndSuffix_inv _ _ _ Hps) as (Hn & Hpre & Hsuf & _).
  exists (pre ++ rnd ++ suf)%string. split; [reflexivity|].
  split; [now apply with_digit_plain|]. split; [|exact Hn].
  now apply (with_digit_differs _ _ _ _ Hps).
Qed.

(** ** Submit onto a directory *)

(** [Submit] of a job that exists, when [new] holds a directory under its
    name: [os.Rename] ends at its [Lstat] of the destination. *)
Lemma Submit_onto_dir (job : Job) (w : World) (x : node)
      (es : list (string * node)) :
  faulty (hd Quiet (sched w)) = false ->
  plain (Basename job) = true ->
  walk (dir job) (seen w) = inr x ->
  walk (basedir (q job) ++ ["new"; Basename job]) (seen w) = inr (Dir es) ->
  exists w', Job_Submit job w = ((job, Some EEXIST), w') /\
             fs w' = seen w /\ log w' = log w.
Proof.
  intros Hf Hpl Hx Hdst. unfold Job_Submit, bind, os_Rename.
  rewrite (Join_two _ "new" _ eq_refl Hpl).
  destruct (update_run (os_rename (dir job)
              (basedir (q job) ++ ["new"; Basename job])) w Hf)
    as (w' & E & F & L & _).
  rewrite (os_rename_onto_dir _ _ _ _ _ Hx Hdst) in E, F.
  exists w'. rewrite E. auto.
Qed.

(** ** Files after a new file is put *)

(** A file found after a file was put at [d/c] is that file, or was there
    before. *)
Lemma put_file_elsewhere (d : path) (c : string) (b0 : bytes) (q : path)
      (t : node) (es : list (string * node)) (b : bytes) :
  walk d t = inr (Dir es) ->
  walk q (put (d ++ [c]) (File b0) t) = inr (File b) -> q <> d ++ [c] ->
  walk q t = inr (File b).
Proof.
  intros Hd Hq Hne.
  destruct (prefix (d ++ [c]) q) eqn:P1.
  { destruct (prefix_inv _ _ P1) as [r ->].
    destruct r as [|a r]; [now rewrite app_nil_r in Hne|].
    rewrite (walk_put_at _ _ _ _ _ _ Hd) in Hq. discriminate. }
  destruct (prefix q (d ++ [c])) eqn:P2.
  { destruct (prefix_inv _ _ P2) as [r Hr].
    destruct (exists_last (l := r)) as (r' & c' & ->).
    { intros ->. rewrite app_nil_r in Hr. congruence. }
    rewrite app_assoc in Hr. apply app_inj_tail in Hr as [-> _].
    pose proof (walk_put_parent _ c (File b0) _ _ Hd) as K.
    rewrite walk_app, Hq in K. destruct r'; discriminate. }
  now rewrite walk_put_frame in Hq.
Qed.

Lemma create_excl_file_elsewhere (fn q : path) (t t1 : node) (b : bytes) :
  create_excl fn t = inr t1 -> walk q t1 = inr (File b) -> q <> fn ->
  walk q t = inr (File b).
Proof.
  intros H Hq Hne.
  destruct (create_excl_inv _ _ _ H) as (d & c & es & e & -> & Hd & _ & ->).
  now apply (put_file_elsewhere _ _ _ _ _ _ _ Hd Hq).
Qed.

Lemma append_file_elsewhere (fn q : path) (data : bytes) (t : node) (b : bytes) :
  walk q (append fn data t) = inr (File b) -> q <> fn ->
  walk q t = inr (File b).
Proof.
  intros Hq Hne. unfold append in Hq.
  destruct (walk fn t) as [e|[b0|es0]] eqn:Hf; try exact Hq.
  destruct fn as [|a fn']; [cbn in Hq; destruct q; [congruence|discriminate]|].
  destruct (path_snoc (a :: fn') ltac:(discriminate)) as (d & c & E).
  rewrite E in *. destruct (walk_snoc_inv _ _ _ _ Hf) as (es & Hd & _).
  now apply (put_file_elsewhere _ _ _ _ _ _ _ Hd Hq).
Qed.

(** The key of a property with a file name is not a name that [Set] tries
    for its temporary file. *)
Lemma key_not_temp_name (b d : path) (name : string) (fn : path) :
  name <> "" -> name <> "." -> name <> ".." ->
  temp_name b name fn -> Join d [name] <> fn.
Proof.
  intros H1 H2 H3 Hn E.
  destruct (temp_name_inv _ _ _ Hn) as (c & -> & _ & Hc & Hns).
  assert (Hpl : plain name = true).
  { unfold plain. rewrite Hns. apply String.eqb_neq in H1, H2, H3.
    now rewrite H1, H2, H3. }
  rewrite (Join_plain _ _ Hpl) in E. apply app_inj_tail in E as [_ E].
  congruence.
Qed.

(** What a failed [Set] leaves of the files: each file that is not its
    temporary file was there before, and each file that was there is there
    still. *)
Lemma failed_Set_files (j : Job) (name : string) (data : bytes) (w w' : World)
      (e : errno) :
  calm (sched w) = true ->
  Job_Set j name data w = (Some e, w') ->
  later w w' /\
  (forall q b, walk q (fs w) = inr (File b) -> walk q (fs w') = inr (File b)) /\
  (fs w' = fs w \/
   exists fn, temp_name (Join (basedir (q j)) ["tmp"]) name fn /\
     forall q b, q <> fn -> walk q (fs w') = inr (File b) ->
                 walk q (fs w) = inr (File b)).
Proof.
  intros Hc H. destruct (Job_Set_inv _ _ _ _ _ _ Hc H) as (Hl & Hcase).
  split; [exact Hl|].
  destruct Hcase as [(e' & _ & ->)|(fn & t1 & t2 & Hn & Hcr & Ht2 & ->)];
    [auto|].
  destruct (create_excl_spec _ _ _ Hcr) as (Hfn & (e0 & Hnew) & Hkeep & _).
  split.
  - intros q b Hq. destruct Ht2 as [->|(data' & ->)]; [now apply Hkeep|].
    destruct (append_spec _ data' _ _ Hfn) as (_ & Hkeep2).
    apply Hkeep2; [|now apply Hkeep]. intros ->. congruence.
  - right. exists fn. split; [exact Hn|]. intros q b Hne Hq.
    apply (create_excl_file_elsewhere _ _ _ _ _ Hcr); [|exact Hne].
    destruct Ht2 as [->|(data' & ->)]; [exact Hq|].
    now apply (append_file_elsewhere _ _ _ _ _ Hq).
Qed.

(** * Properties of the specification *)

(** ** Take *)

(** C7: when the listing of [new] is empty, [Take] returns a nil job and a
    nil error at its first turn, and leaves the tree as it found it. *)
Theorem Take_none_available (qu : Queue) (fuel : nat) (w : World) :
  faulty (hd Quiet (sched w)) = false ->
  readdir (Queue_getNewDir qu) (seen w) = inr [] ->
  exists w', Queue_Take (S fuel) qu w = (Some (None, None), w') /\
             fs w' = seen w /\ log w' = log w.
Proof.
  intros Hf Hr. unfold Queue_getNewDir in Hr.
  destruct (os_Readdirnames (Join (basedir qu) ["new"]) w) as [[l r] w'] eqn:E.
  destruct (os_Readdirnames_inv _ _ _ _ _ E) as (_ & Hlog & _ & _ & Hfs & Hres).
  exists w'. cbn [Queue_Take]. unfold Queue_Take_iter, bind. rewrite E.
  destruct r as [e|].
  - destruct Hres as [_ He]. rewrite (He Hf) in Hr. discriminate.
  - rewrite Hr in Hres. injection Hres as <-. cbn. auto.
Qed.

Lemma Take_none_available_witness :
  faulty (hd Quiet (sched (Examples.world Examples.fresh []))) = false /\
  readdir (Queue_getNewDir Examples.qx)
          (seen (Examples.world Examples.fresh [])) = inr [] /\
  exists w', Queue_Take 1 Examples.qx (Examples.world Examples.fresh [])
             = (Some (None, None), w') /\
             fs w' = seen (Examples.world Examples.fresh []) /\
             log w' = log (Examples.world Examples.fresh []).
Proof.
  split; [reflexivity|]. split; [reflexivity|].
  apply (Take_none_available Examples.qx 0 (Examples.world Examples.fresh []));
    reflexivity.
Defined.

(** C2 (as stated, refuted): a job [a] is in [new] and stays there, yet the
    rename into the owner slot fails, because the slot [cur/42] is missing.
    [os.IsNotExist] is true of this failure too, so the turn of the loop ends
    in [continue]: [Take] returns no error, here or later, since the world is
    as it was. *)
Lemma Take_retries_though_source_exists :
  walk ["q"; "new"; "a"] (seen Examples.stuck) = inr (Dir []) /\
  os_Rename (Join ["q"] ["new"; "a"]) (Join ["q"] [mycur 42; "a"])
            Examples.stuck = (Some ENOENT, Examples.stuck) /\
  Queue_Take_iter Examples.qx Examples.stuck = (None, Examples.stuck) /\
  Queue_Take 50 Examples.qx Examples.stuck = (None, Examples.stuck).
Proof. repeat split; vm_compute; reflexivity. Qed.

(** C2 (amended): [Take] has listed [names] in [new], has drawn [i], and the
    rename of the chosen name into the owner slot has failed with [e].  If
    the source is missing, [e] is [ENOENT]; whenever [os.IsNotExist e] holds,
    the loop goes on with its next turn and no error is returned; otherwise
    [Take] returns [e] and no job.  The second case is the one of every
    failure that is not injected when the source exists and the owner slot
    is a directory. *)
Theorem Take_rename_failure (qu : Queue) (fuel : nat) (w w1 w2 w3 : World)
        (names : list string) (i : nat) (e : errno) :
  os_Readdirnames (Join (basedir qu) ["new"]) w = ((names, None), w1) ->
  names <> [] ->
  rand_Intn (List.length names) w1 = (i, w2) ->
  os_Rename (Join (basedir qu) ["new"; nth i names ""])
            (Join (basedir qu) [mycur (pid w2); nth i names ""]) w2
    = (Some e, w3) ->
  (walk (Join (basedir qu) ["new"; nth i names ""]) (seen w2) = inl ENOENT ->
   faulty (hd Quiet (sched w2)) = false -> e = ENOENT) /\
  (os_IsNotExist e = true ->
   Queue_Take (S fuel) qu w = Queue_Take fuel qu w3) /\
  (os_IsNotExist e = false ->
   Queue_Take (S fuel) qu w = (Some (None, Some e), w3)) /\
  (forall x es,
   walk (Join (basedir qu) ["new"; nth i names ""]) (seen w2) = inr x ->
   parent_dir (Join (basedir qu) [mycur (pid w2); nth i names ""]) (seen w2)
     = inr es ->
   faulty (hd Quiet (sched w2)) = false -> os_IsNotExist e = false).
Proof.
  intros Hl Hn Hi Hr.
  assert (Hlen : (List.length names =? 0)%nat = false).
  { destruct names; [congruence|reflexivity]. }
  assert (Hstep : Queue_Take (S fuel) qu w =
                  if os_IsNotExist e then Queue_Take fuel qu w3
                  else (Some (None, Some e), w3)).
  { cbn [Queue_Take]. unfold Queue_Take_iter, bind. rewrite Hl, Hlen, Hi.
    unfold os_Getpid. rewrite Hr. now destruct (os_IsNotExist e). }
  destruct (update_inv _ _ _ _ Hr) as (_ & _ & _ & _ & _ & Hop).
  split; [|split; [|split]].
  - intros Hw Hf. exact (os_rename_missing_source _ _ _ _ Hw (Hop Hf)).
  - intro H. now rewrite Hstep, H.
  - intro H. now rewrite Hstep, H.
  - intros x es Hw Hp Hf. exact (os_rename_error_exists _ _ _ _ _ _ Hw Hp (Hop Hf)).
Qed.

Lemma Take_rename_failure_witness :
  os_Readdirnames (Join (basedir Examples.qx) ["new"]) Examples.raced
    = ((["a"], None), Examples.raced_listed) /\
  ["a"] <> [] /\
  rand_Intn (List.length ["a"]) Examples.raced_listed
    = (0%nat, Examples.raced_listed) /\
  os_Rename (Join (basedir Examples.qx) ["new"; nth 0 ["a"] ""])
            (Join (basedir Examples.qx)
                  [mycur (pid Examples.raced_listed); nth 0 ["a"] ""])
            Examples.raced_listed
    = (Some ENOENT, Examples.raced_lost) /\
  Queue_Take 1 Examples.qx Examples.raced
    = Queue_Take 0 Examples.qx Examples.raced_lost.
Proof.
  assert (H1 : os_Readdirnames (Join (basedir Examples.qx) ["new"]) Examples.raced
               = ((["a"], None), Examples.raced_listed)) by reflexivity.
  assert (H2 : ["a"] <> @nil string) by discriminate.
  assert (H3 : rand_Intn (List.length ["a"]) Examples.raced_listed
               = (0%nat, Examples.raced_listed)) by reflexivity.
  assert (H4 : os_Rename (Join (basedir Examples.qx) ["new"; nth 0 ["a"] ""])
            (Join (basedir Examples.qx)
                  [mycur (pid Examples.raced_listed); nth 0 ["a"] ""])
            Examples.raced_listed
    = (Some ENOENT, Examples.raced_lost)) by (vm_compute; reflexivity).
  repeat (split; [assumption|]).
  apply (Take_rename_failure Examples.qx 0 _ _ _ _ _ _ _ H1 H2 H3 H4).
  reflexivity.
Defined.

(** ** Submit, Finish and Fail *)

(** C8: when the rename of [Submit], [Finish] or [Fail] fails with [e], the
    operation returns [e], the job keeps the location it had, and the tree is
    the one the rename found. *)
Theorem transition_failure_keeps_location (tr : transition) (job : Job)
        (w w' : World) (e : errno) :
  os_Rename (dir job)
            (Join (basedir (q job)) [transition_dir tr; Basename job]) w
    = (Some e, w') ->
  transition_run tr job w = ((job, Some e), w') /\
  dir (fst (fst (transition_run tr job w))) = dir job /\
  fs w' = seen w.
Proof.
  intro H. destruct (update_inv _ _ _ _ H) as (_ & _ & _ & _ & Hfs & _).
  assert (E : transition_run tr job w = ((job, Some e), w')).
  { destruct tr; cbn [transition_run transition_dir] in *;
      unfold Job_Submit, Job_Finish, Job_Fail, bind; rewrite H; reflexivity. }
  rewrite E. auto.
Qed.

Lemma transition_failure_keeps_location_witness :
  os_Rename (dir Examples.lost_job)
            (Join (basedir (q Examples.lost_job))
                  [transition_dir TFinish; Basename Examples.lost_job])
            (Examples.world Examples.fresh [])
    = (Some ENOENT, Examples.world Examples.fresh []) /\
  transition_run TFinish Examples.lost_job (Examples.world Examples.fresh [])
    = ((Examples.lost_job, Some ENOENT), Examples.world Examples.fresh []) /\
  dir (fst (fst (transition_run TFinish Examples.lost_job
                                (Examples.world Examples.fresh []))))
    = dir Examples.lost_job /\
  fs (Examples.world Examples.fresh []) = seen (Examples.world Examples.fresh []).
Proof.
  assert (H : os_Rename (dir Examples.lost_job)
            (Join (basedir (q Examples.lost_job))
                  [transition_dir TFinish; Basename Examples.lost_job])
            (Examples.world Examples.fresh [])
    = (Some ENOENT, Examples.world Examples.fresh [])) by reflexivity.
  split; [exact H|].
  exact (transition_failure_keeps_location TFinish Examples.lost_job _ _ _ H).
Defined.

(** C4: a successful [Submit] of a job in [tmp] moves the job directory,
    with all it holds, to [new] under the job's [Basename], makes that the
    job's location, and leaves nothing at the old one; the listing of [new]
    that [Take] reads then contains the [Basename]. *)
Theorem Submit_moves_job (job job' : Job) (w w' : World) :
  plain (Basename job) = true ->
  dir job = basedir (q job) ++ ["tmp"; Basename job] ->
  Job_Submit job w = ((job', None), w') ->
  Basename job' = Basename job /\
  dir job' = basedir (q job) ++ ["new"; Basename job] /\
  (exists x, walk (dir job) (seen w) = inr x /\
             forall r, walk (dir job' ++ r) (fs w') = walk r x) /\
  walk (dir job) (fs w') = inl ENOENT /\
  exists names, readdir (Queue_getNewDir (q job)) (fs w') = inr names /\
                In (Basename job) names.
Proof.
  intros Hp Hd H. unfold Job_Submit, bind in H.
  rewrite (Join_two (basedir (q job)) "new" _ eq_refl Hp) in H.
  destruct (os_Rename _ _ w) as [[e|] w1] eqn:E; unfold ret in H;
    [discriminate|]. injection H as <- <-.
  cbn [Basename dir]. split; [reflexivity|]. split; [reflexivity|].
  destruct (update_inv _ _ _ _ E) as (_ & _ & _ & _ & Hop).
  apply os_rename_ok in Hop.
  destruct (rename_inv _ _ _ _ Hop) as (x & _ & Hx & _).
  split; [|split].
  - exists x. split; [exact Hx|]. intro r. apply (rename_walk_dst _ _ _ _ _ _ Hop Hx).
  - apply (rename_walk_src _ _ _ _ Hop). rewrite Hd. intro Heq.
    apply app_inv_head in Heq. discriminate.
  - change (basedir (q job) ++ ["new"; Basename job])
      with (basedir (q job) ++ ["new"] ++ [Basename job]) in Hop.
    rewrite app_assoc in Hop.
    destruct (rename_lists_dst _ _ _ _ _ Hop) as (es & Hes & Hin).
    exists (names es). split; [|exact Hin].
    rewrite getNewDir_eq. now apply readdir_dir.
Qed.

Lemma Submit_moves_job_witness :
  plain (Basename Examples.staged_job) = true /\
  dir Examples.staged_job
    = basedir (q Examples.staged_job) ++ ["tmp"; Basename Examples.staged_job] /\
  Job_Submit Examples.staged_job (Examples.world Examples.staged [])
    = ((mkJob "build1" ["q"; "new"; "build1"] Examples.qx, None),
       Examples.world (Examples.queue_tree [("build1", Examples.build1)]
                                           [("42", Dir [])]) []) /\
  walk ["q"; "tmp"; "build1"]
       (Examples.queue_tree [("build1", Examples.build1)] [("42", Dir [])])
    = inl ENOENT.
Proof.
  assert (H1 : plain (Basename Examples.staged_job) = true) by reflexivity.
  assert (H2 : dir Examples.staged_job
    = basedir (q Examples.staged_job) ++ ["tmp"; Basename Examples.staged_job])
    by reflexivity.
  assert (H3 : Job_Submit Examples.staged_job (Examples.world Examples.staged [])
    = ((mkJob "build1" ["q"; "new"; "build1"] Examples.qx, None),
       Examples.world (Examples.queue_tree [("build1", Examples.build1)]
                                           [("42", Dir [])]) []))
    by (vm_compute; reflexivity).
  repeat (split; [assumption|]).
  exact (proj1 (proj2 (proj2 (proj2
    (Submit_moves_job Examples.staged_job _ _ _ H1 H2 H3))))).
Defined.

(** C5 (as stated, refuted): process 42 holds the job [build1] in its owner
    slot, and [new] holds another job of that name, submitted while the
    first was held.  [Finish] succeeds and moves the held job to [done],
    [Fail] succeeds and moves it to [failed]; after either, the listing of
    [new] contains [build1] as it did before. *)
Lemma Finish_leaves_namesake_in_new :
  walk (dir Examples.held_job) Examples.doubled = inr Examples.build1 /\
  readdir ["q"; "new"] Examples.doubled = inr ["build1"] /\
  fst (Job_Finish Examples.held_job (Examples.world Examples.doubled []))
    = (mkJob "build1" ["q"; "done"; "build1"] Examples.qx, None) /\
  readdir ["q"; "done"]
    (fs (snd (Job_Finish Examples.held_job (Examples.world Examples.doubled []))))
    = inr ["build1"] /\
  readdir ["q"; "new"]
    (fs (snd (Job_Finish Examples.held_job (Examples.world Examples.doubled []))))
    = inr ["build1"] /\
  fst (Job_Fail Examples.held_job (Examples.world Examples.doubled []))
    = (mkJob "build1" ["q"; "failed"; "build1"] Examples.qx, None) /\
  readdir ["q"; "failed"]
    (fs (snd (Job_Fail Examples.held_job (Examples.world Examples.doubled []))))
    = inr ["build1"] /\
  readdir ["q"; "new"]
    (fs (snd (Job_Fail Examples.held_job (Examples.world Examples.doubled []))))
    = inr ["build1"].
Proof. repeat split; vm_compute; reflexivity. Qed.

(** C5 (amended): a successful [Finish] (or [Fail]) of a job held in the
    owner slot of this process moves the job directory to [done] (or
    [failed]) under the job's [Basename] and makes that the job's location.
    The listing of [done] (or [failed]) then contains the [Basename] and the
    listing of the owner slot does not.  The listing of [new] is what it
    was: it does not contain the [Basename] afterwards if it did not when
    the call started. *)
Theorem Finish_Fail_move_job (tr : transition) (job job' : Job) (w w' : World) :
  tr <> TSubmit ->
  plain (Basename job) = true ->
  dir job = Join (basedir (q job)) [mycur (pid w); Basename job] ->
  transition_run tr job w = ((job', None), w') ->
  Basename job' = Basename job /\
  dir job' = basedir (q job) ++ [transition_dir tr; Basename job] /\
  (exists x, walk (dir job) (seen w) = inr x /\
             walk (dir job') (fs w') = inr x) /\
  (exists l, readdir (basedir (q job) ++ [transition_dir tr]) (fs w') = inr l /\
             In (Basename job) l) /\
  (exists l, readdir (Queue_getWorkerDir (q job) (pid w)) (fs w') = inr l /\
             ~ In (Basename job) l) /\
  readdir (Queue_getNewDir (q job)) (fs w')
    = readdir (Queue_getNewDir (q job)) (seen w) /\
  ((forall l, readdir (Queue_getNewDir (q job)) (seen w) = inr l ->
              ~ In (Basename job) l) ->
   forall l, readdir (Queue_getNewDir (q job)) (fs w') = inr l ->
             ~ In (Basename job) l).
Proof.
  intros Htr Hp Hd H. rewrite (Join_mycur_plain _ _ _ Hp) in Hd.
  assert (Hplain : plain (transition_dir tr) = true) by now destruct tr.
  assert (E : exists w1,
    os_Rename (dir job) (basedir (q job) ++ [transition_dir tr; Basename job]) w
      = (None, w1) /\
    job' = mkJob (Basename job)
                 (basedir (q job) ++ [transition_dir tr; Basename job]) (q job) /\
    w' = w1).
  { destruct tr; [congruence| |]; cbn [transition_run transition_dir] in *;
      unfold Job_Finish, Job_Fail, bind in H;
      rewrite (Join_two (basedir (q job)) _ _ Hplain Hp) in H;
      destruct (os_Rename _ _ w) as [[e|] w1] eqn:E; unfold ret in H;
      try discriminate; injection H as <- <-; exists w1; auto. }
  destruct E as (w1 & E & -> & ->). cbn [Basename dir].
  split; [reflexivity|]. split; [reflexivity|].
  destruct (update_inv _ _ _ _ E) as (_ & _ & _ & _ & Hop).
  apply os_rename_ok in Hop.
  destruct (rename_inv _ _ _ _ Hop) as (x & _ & Hx & _).
  set (b := basedir (q job)) in *. set (id := Basename job) in *.
  assert (Hnew : readdir (Queue_getNewDir (q job)) (fs w1)
                 = readdir (Queue_getNewDir (q job)) (seen w)).
  { rewrite getNewDir_eq. unfold readdir. fold b.
    rewrite (rename_frame _ _ (b ++ ["new"]) _ _ Hop); [reflexivity| | | |].
    + rewrite Hd, prefix_app_both. reflexivity.
    + rewrite prefix_app_both. now destruct tr.
    + rewrite Hd, prefix_app_both. reflexivity.
    + rewrite prefix_app_both. destruct tr; [congruence| |]; reflexivity. }
  split; [|split; [|split; [|split]]].
  - exists x. split; [exact Hx|].
    rewrite <- (app_nil_r (b ++ _)).
    exact (rename_walk_dst _ _ [] _ _ _ Hop Hx).
  - change (b ++ [transition_dir tr; id]) with (b ++ [transition_dir tr] ++ [id]) in Hop.
    rewrite app_assoc in Hop.
    destruct (rename_lists_dst _ _ _ _ _ Hop) as (es & Hes & Hin).
    exists (names es). split; [now apply readdir_dir|exact Hin].
  - rewrite Hd in Hop.
    change (b ++ ["cur"; Itoa (pid w); id]) with (b ++ ["cur"; Itoa (pid w)] ++ [id]) in Hop.
    rewrite app_assoc in Hop.
    apply rename_lists_src in Hop.
    + destruct Hop as (es & _ & Hes). exists (names (del_entry id es)).
      split; [rewrite getWorkerDir_eq; fold b; now apply readdir_dir|].
      rewrite In_names_del_entry. tauto.
    + rewrite prefix_app_both. now destruct tr.
    + rewrite prefix_app_both. now destruct tr.
  - exact Hnew.
  - intros Hnot l Hl. rewrite Hnew in Hl. now apply Hnot.
Qed.

Lemma Finish_Fail_move_job_witness :
  plain (Basename Examples.held_job) = true /\
  dir Examples.held_job
    = Join (basedir (q Examples.held_job))
           [mycur (pid (Examples.world Examples.held []));
            Basename Examples.held_job] /\
  transition_run TFinish Examples.held_job (Examples.world Examples.held [])
    = ((mkJob "build1" ["q"; "done"; "build1"] Examples.qx, None),
       Examples.world
         (Dir [("q", Dir [("tmp", Dir []); ("new", Dir []);
                          ("cur", Dir [("42", Dir [])]);
                          ("done", Dir [("build1", Examples.build1)]);
                          ("failed", Dir [])])]) []) /\
  transition_run TFail Examples.held_job (Examples.world Examples.held [])
    = ((mkJob "build1" ["q"; "failed"; "build1"] Examples.qx, None),
       Examples.world
         (Dir [("q", Dir [("tmp", Dir []); ("new", Dir []);
                          ("cur", Dir [("42", Dir [])]);
                          ("done", Dir []);
                          ("failed", Dir [("build1", Examples.build1)])])]) []) /\
  (forall l, readdir (Queue_getNewDir (q Examples.held_job))
               (seen (Examples.world Examples.held [])) = inr l ->
             ~ In (Basename Examples.held_job) l) /\
  (exists l,
    readdir (basedir (q Examples.held_job) ++ [transition_dir TFinish])
      (Dir [("q", Dir [("tmp", Dir []); ("new", Dir []);
                       ("cur", Dir [("42", Dir [])]);
                       ("done", Dir [("build1", Examples.build1)]);
                       ("failed", Dir [])])]) = inr l /\
    In (Basename Examples.held_job) l) /\
  (exists l,
    readdir (basedir (q Examples.held_job) ++ [transition_dir TFail])
      (Dir [("q", Dir [("tmp", Dir []); ("new", Dir []);
                       ("cur", Dir [("42", Dir [])]);
                       ("done", Dir []);
                       ("failed", Dir [("build1", Examples.build1)])])]) = inr l /\
    In (Basename Examples.held_job) l) /\
  (forall l,
    readdir (Queue_getNewDir (q Examples.held_job))
      (Dir [("q", Dir [("tmp", Dir []); ("new", Dir []);
                       ("cur", Dir [("42", Dir [])]);
                       ("done", Dir [("build1", Examples.build1)]);
                       ("failed", Dir [])])]) = inr l ->
    ~ In (Basename Examples.held_job) l) /\
  (forall l,
    readdir (Queue_getNewDir (q Examples.held_job))
      (Dir [("q", Dir [("tmp", Dir []); ("new", Dir []);
                       ("cur", Dir [("42", Dir [])]);
                       ("done", Dir []);
                       ("failed", Dir [("build1", Examples.build1)])])]) = inr l ->
    ~ In (Basename Examples.held_job) l).
Proof.
  assert (H0 : TFinish <> TSubmit) by discriminate.
  assert (H0' : TFail <> TSubmit) by discriminate.
  assert (H1 : plain (Basename Examples.held_job) = true) by reflexivity.
  assert (H2 : dir Examples.held_job
    = Join (basedir (q Examples.held_job))
           [mycur (pid (Examples.world Examples.held []));
            Basename Examples.held_job]) by reflexivity.
  assert (H3 : transition_run TFinish Examples.held_job
                 (Examples.world Examples.held [])
    = ((mkJob "build1" ["q"; "done"; "build1"] Examples.qx, None),
       Examples.world
         (Dir [("q", Dir [("tmp", Dir []); ("new", Dir []);
                          ("cur", Dir [("42", Dir [])]);
                          ("done", Dir [("build1", Examples.build1)]);
                          ("failed", Dir [])])]) []))
    by (vm_compute; reflexivity).
  assert (H4 : transition_run TFail Examples.held_job
                 (Examples.world Examples.held [])
    = ((mkJob "build1" ["q"; "failed"; "build1"] Examples.qx, None),
       Examples.world
         (Dir [("q", Dir [("tmp", Dir []); ("new", Dir []);
                          ("cur", Dir [("42", Dir [])]);
                          ("done", Dir []);
                          ("failed", Dir [("build1", Examples.build1)])])]) []))
    by (vm_compute; reflexivity).
  assert (H5 : forall l, readdir (Queue_getNewDir (q Examples.held_job))
                           (seen (Examples.world Examples.held [])) = inr l ->
                         ~ In (Basename Examples.held_job) l).
  { intros l Hl. vm_compute in Hl. injection Hl as <-. intros []. }
  split; [exact H1|]. split; [exact H2|]. split; [exact H3|]. split; [exact H4|].
  split; [exact H5|].
  pose proof (Finish_Fail_move_job TFinish Examples.held_job _ _ _ H0 H1 H2 H3)
    as (_ & _ & _ & K1 & _ & _ & K2).
  pose proof (Finish_Fail_move_job TFail Examples.held_job _ _ _ H0' H1 H2 H4)
    as (_ & _ & _ & K3 & _ & _ & K4).
  split; [exact K1|]. split; [exact K3|]. split; [exact (K2 H5)|exact (K4 H5)].
Defined.

(** ** Properties of a job *)

(** C3: after a successful [Set] of [name] to [data], with no other process
    acting, the file of the property holds exactly [data], whatever it held
    before, and [Get] returns [data]. *)
Theorem Set_then_Get (j : Job) (name : string) (data : bytes) (w w' : World) :
  calm (sched w) = true ->
  Job_Set j name data w = (None, w') ->
  readfile (Join (dir j) [name]) (fs w') = inr data /\
  (faulty (hd Quiet (sched w')) = false ->
   fst (Job_Get j name w') = (data, None)).
Proof.
  intros Hc H. destruct (Job_Set_inv _ _ _ _ _ _ Hc H) as (Hl & Hcase).
  assert (Hr : readfile (Join (dir j) [name]) (fs w') = inr data).
  { destruct Hcase as [(e & He & _)|(fn & t1 & t2 & _ & Hcr & _ & -> & Hrn & _)];
      [discriminate|].
    destruct (create_excl_spec _ _ _ Hcr) as (Hfn & _).
    destruct (append_spec _ data _ _ Hfn) as (Hfn2 & _).
    apply readfile_file. rewrite <- (app_nil_r (Join (dir j) [name])).
    rewrite (rename_walk_dst _ _ [] _ _ _ Hrn Hfn2). reflexivity. }
  split; [exact Hr|]. intro Hf.
  destruct (Job_Get_reads _ _ _ _ (later_calm _ _ Hl Hc) Hf Hr) as (w2 & -> & _).
  reflexivity.
Qed.

Lemma Set_then_Get_witness :
  calm (sched (Examples.world Examples.staged [])) = true /\
  Job_Set Examples.staged_job "input" [Byte.x43]
          (Examples.world Examples.staged []) = (None, Examples.after_set) /\
  readfile (Join (dir Examples.staged_job) ["input"]) (fs Examples.after_set)
    = inr [Byte.x43] /\
  (faulty (hd Quiet (sched Examples.after_set)) = false ->
   fst (Job_Get Examples.staged_job "input" Examples.after_set)
     = ([Byte.x43], None)).
Proof.
  assert (H1 : calm (sched (Examples.world Examples.staged [])) = true)
    by reflexivity.
  assert (H2 : Job_Set Examples.staged_job "input" [Byte.x43]
          (Examples.world Examples.staged []) = (None, Examples.after_set))
    by (vm_compute; reflexivity).
  repeat (split; [assumption|]).
  exact (Set_then_Get Examples.staged_job "input" [Byte.x43] _ _ H1 H2).
Defined.

(** C6: when [Set] fails, at whichever step, with no other process acting,
    the key holds afterwards what it held before: a value that was there is
    there still, all of it, and [Get] returns it; and for a key that is a
    file name (not the empty name, [.] or [..], which stand for the job
    directory and its parent), a value that is there afterwards was there
    before, so that a key without a value is left without one, not with a
    part of the new one, and [Get] fails as it did. *)
Theorem failed_Set_keeps_value (j : Job) (name : string) (data : bytes)
        (w w' : World) (e : errno) :
  calm (sched w) = true ->
  Job_Set j name data w = (Some e, w') ->
  (forall d, readfile (Join (dir j) [name]) (fs w) = inr d ->
     readfile (Join (dir j) [name]) (fs w') = inr d /\
     (faulty (hd Quiet (sched w')) = false ->
      fst (Job_Get j name w') = (d, None))) /\
  (name <> "" -> name <> "." -> name <> ".." ->
   (forall d, readfile (Join (dir j) [name]) (fs w') = inr d ->
              readfile (Join (dir j) [name]) (fs w) = inr d) /\
   ((forall d, readfile (Join (dir j) [name]) (fs w) <> inr d) ->
    faulty (hd Quiet (sched w')) = false ->
    exists e', fst (Job_Get j name w') = ([], Some e'))).
Proof.
  intros Hc H. destruct (failed_Set_files _ _ _ _ _ _ Hc H) as (Hl & Hkeep & Hnew).
  pose proof (later_calm _ _ Hl Hc) as Hc'.
  split.
  - intros d Hd.
    assert (Hr : readfile (Join (dir j) [name]) (fs w') = inr d).
    { apply readfile_file. apply Hkeep. now apply readfile_file. }
    split; [exact Hr|]. intro Hf.
    destruct (Job_Get_reads _ _ _ _ Hc' Hf Hr) as (w2 & -> & _). reflexivity.
  - intros N1 N2 N3.
    assert (Hback : forall d, readfile (Join (dir j) [name]) (fs w') = inr d ->
                              readfile (Join (dir j) [name]) (fs w) = inr d).
    { intros d Hd. destruct Hnew as [<-|(fn & Hn & Hold)]; [exact Hd|].
      apply readfile_file. apply Hold; [|now apply readfile_file].
      now apply (key_not_temp_name _ _ _ _ N1 N2 N3 Hn). }
    split; [exact Hback|]. intros Hnone Hf. unfold Job_Get.
    destruct (ioutil_ReadFile _ w') as [[d r] w2] eqn:E.
    destruct (ioutil_ReadFile_inv _ _ _ _ _ E) as (_ & _ & _ & _ & _ & Hres).
    rewrite (seen_calm _ Hc') in Hres. destruct r as [e'|].
    + destruct Hres as [-> _]. now exists e'.
    + now destruct (Hnone d (Hback d Hres)).
Qed.

Lemma failed_Set_keeps_value_witness :
  calm (sched Examples.short_write) = true /\
  Job_Set Examples.staged_job "input" [Byte.x43; Byte.x44] Examples.short_write
    = (Some EIO, Examples.after_short_write) /\
  Job_Set Examples.staged_job "output" [Byte.x43; Byte.x44] Examples.short_write
    = (Some EIO, snd (Job_Set Examples.staged_job "output" [Byte.x43; Byte.x44]
                              Examples.short_write)) /\
  readfile (Join (dir Examples.staged_job) ["input"]) (fs Examples.short_write)
    = inr [Byte.x41; Byte.x42] /\
  readfile (Join (dir Examples.staged_job) ["output"]) (fs Examples.short_write)
    = inl ENOENT /\
  readfile (Join (dir Examples.staged_job) ["input"])
           (fs Examples.after_short_write) = inr [Byte.x41; Byte.x42] /\
  fst (Job_Get Examples.staged_job "input" Examples.after_short_write)
    = ([Byte.x41; Byte.x42], None) /\
  (forall d,
     readfile (Join (dir Examples.staged_job) ["output"])
       (fs (snd (Job_Set Examples.staged_job "output" [Byte.x43; Byte.x44]
                         Examples.short_write))) <> inr d) /\
  exists e',
    fst (Job_Get Examples.staged_job "output"
           (snd (Job_Set Examples.staged_job "output" [Byte.x43; Byte.x44]
                         Examples.short_write))) = ([], Some e').
Proof.
  assert (H1 : calm (sched Examples.short_write) = true) by reflexivity.
  assert (H2 : Job_Set Examples.staged_job "input" [Byte.x43; Byte.x44]
                 Examples.short_write
    = (Some EIO, Examples.after_short_write)) by (vm_compute; reflexivity).
  assert (H3 : Job_Set Examples.staged_job "output" [Byte.x43; Byte.x44]
                 Examples.short_write
    = (Some EIO, snd (Job_Set Examples.staged_job "output" [Byte.x43; Byte.x44]
                              Examples.short_write)))
    by (vm_compute; reflexivity).
  assert (H4 : readfile (Join (dir Examples.staged_job) ["input"])
                 (fs Examples.short_write) = inr [Byte.x41; Byte.x42])
    by reflexivity.
  assert (H5 : readfile (Join (dir Examples.staged_job) ["output"])
                 (fs Examples.short_write) = inl ENOENT) by reflexivity.
  assert (N1 : "output" <> "") by discriminate.
  assert (N2 : "output" <> ".") by discriminate.
  assert (N3 : "output" <> "..") by discriminate.
  split; [exact H1|]. split; [exact H2|]. split; [exact H3|].
  split; [exact H4|]. split; [exact H5|].
  pose proof (failed_Set_keeps_value Examples.staged_job "input" _ _ _ _ H1 H2)
    as [Kin _].
  pose proof (failed_Set_keeps_value Examples.staged_job "output" _ _ _ _ H1 H3)
    as [_ Kout].
  destruct (Kin _ H4) as [K1 K2]. destruct (Kout N1 N2 N3) as [K3 K4].
  split; [exact K1|]. split; [exact (K2 eq_refl)|].
  assert (K5 : forall d, readfile (Join (dir Examples.staged_job) ["output"])
                           (fs Examples.short_write) <> inr d).
  { intros d. rewrite H5. discriminate. }
  split.
  - intros d Hd. exact (K5 d (K3 d Hd)).
  - exact (K4 K5 eq_refl).
Defined.

(** ** OpenQueue *)

(** C9 (as stated, refuted): the root [/q] exists and holds a regular file
    named [new].  [OpenQueue] succeeds, twice, because [ensuredir] takes
    "exists" for success whatever exists; but there is no subdirectory
    [new], after either call. *)
Lemma Open_succeeds_without_new_directory :
  fst (OpenQueue ["q"] (Examples.world Examples.squatted []))
    = (Some Examples.qx, None) /\
  fst (OpenQueue ["q"] Examples.opened_squatted) = (Some Examples.qx, None) /\
  walk ["q"; "new"] (fs Examples.opened_squatted) = inr (File []) /\
  walk ["q"; "new"] (fs (snd (OpenQueue ["q"] Examples.opened_squatted)))
    = inr (File []).
Proof. repeat split; vm_compute; reflexivity. Qed.

(** C9 (amended): the root is a directory in which none of the five fixed
    names and not the owner slot is taken by something that is not a
    directory, and every system call runs normally.  Then [OpenQueue]
    succeeds twice, the second call changes nothing, the five
    subdirectories and the owner slot are directories after the first call,
    and the first call has only added directories, at these six paths. *)
Theorem Open_twice (d : path) (w : World) (es : list (string * node)) :
  quiet (sched w) = true ->
  walk d (fs w) = inr (Dir es) ->
  (forall p x, In p (queue_dirs d (pid w)) -> walk p (fs w) = inr x ->
               is_dir x = true) ->
  exists w1 w2,
    OpenQueue d w = ((Some (mkQueue d ""), None), w1) /\
    OpenQueue d w1 = ((Some (mkQueue d ""), None), w2) /\
    fs w2 = fs w1 /\
    (forall p, In p (queue_dirs d (pid w)) ->
               exists es', walk p (fs w1) = inr (Dir es')) /\
    grown (queue_dirs d (pid w)) (fs w) (fs w1).
Proof.
  intros Hq Hd Hk. set (qu := mkQueue d "").
  set (five := ["tmp"; "new"; "cur"; "done"; "failed"]).
  assert (Hfive : Forall (fun n => plain n = true) five)
    by (repeat constructor).
  destruct (OpenQueue_range_flat qu five w es Hq Hfive Hd)
    as (w5 & E5 & Hq5 & Hp5 & _ & Hg5 & Hall5).
  { intros n x Hn. apply Hk. unfold queue_dirs. apply in_or_app. left.
    now apply (in_map (fun n => d ++ [n])). }
  destruct (Hall5 "cur") as [ces Hcur]; [cbn; tauto|]. cbn [basedir qu] in *.
  assert (Hj : Join d [mycur (pid w)] = (d ++ ["cur"]) ++ [Itoa (pid w)]).
  { rewrite Join_mycur, Join_nil, <- app_assoc. reflexivity. }
  destruct (ensuredir_quiet d [mycur (pid w)] _ _ w5 ces Hq5 Hj Hcur)
    as (w1 & E1 & Hq1 & Hp1 & _ & Hg1 & Hslot & _).
  { intros x Hx. destruct Hg5 as [A B].
    destruct (B _ _ Hx) as [[y Hy]|[_ K]]; [|exact K].
    pose proof (A _ _ Hy) as S. rewrite Hy, Hx in S.
    destruct (same_kind_inr _ _ S) as (z & [= <-] & ->).
    apply (Hk ((d ++ ["cur"]) ++ [Itoa (pid w)]) y); [|exact Hy].
    unfold queue_dirs. apply in_or_app. right. now left. }
  assert (Hfirst : forall w0, pid w0 = pid w ->
            OpenQueue_range qu (five ++ [mycur (pid w)]) w0
            = OpenQueue_range qu
                ["tmp"; "new"; "cur"; "done"; "failed"; mycur (pid w0)] w0).
  { intros w0 ->. reflexivity. }
  assert (Hsix : forall p, In p (queue_dirs d (pid w)) ->
                 exists es', walk p (fs w1) = inr (Dir es')).
  { intros p Hp. unfold queue_dirs in Hp. apply in_app_or in Hp as [Hp|[<-|[]]].
    - apply in_map_iff in Hp as (n & <- & Hn).
      destruct (Hall5 n Hn) as [es' He'].
      now apply (grown_keeps_dir _ _ _ _ _ Hg1 He').
    - exact Hslot. }
  assert (E : OpenQueue_range qu (five ++ [mycur (pid w)]) w = (None, w1)).
  { rewrite OpenQueue_range_app, E5. cbn [OpenQueue_range]. unfold bind.
    cbn [basedir qu]. rewrite E1. reflexivity. }
  destruct (OpenQueue_range_existing qu (five ++ [mycur (pid w)]) w1 Hq1)
    as (w2 & E2 & _ & _ & _ & F2).
  { intros n Hn. cbn [basedir qu].
    assert (Hp : In (Join d [n]) (queue_dirs d (pid w))).
    { unfold queue_dirs. apply in_or_app. apply in_app_or in Hn as [Hn|[<-|[]]].
      - left. rewrite Join_plain.
        + now apply (in_map (fun n => d ++ [n])).
        + rewrite Forall_forall in Hfive. now apply Hfive.
      - right. rewrite Hj. now left. }
    destruct (Hsix _ Hp) as [es' He']. eauto. }
  exists w1, w2. split; [|split; [|split; [|split]]].
  - unfold OpenQueue, bind, os_Getpid. fold qu.
    rewrite <- (Hfirst w eq_refl), E. reflexivity.
  - unfold OpenQueue, bind, os_Getpid. fold qu.
    rewrite <- (Hfirst w1 (eq_trans Hp1 Hp5)), E2. reflexivity.
  - exact F2.
  - exact Hsix.
  - apply (grown_trans _ _ (fs w5)).
    + eapply grown_weaken; [|exact Hg5]. intros p Hp. unfold queue_dirs.
      apply in_or_app. now left.
    + eapply grown_weaken; [|exact Hg1]. intros p [<-|[]]. unfold queue_dirs.
      apply in_or_app. right. now left.
Qed.

Lemma Open_twice_witness :
  quiet (sched (Examples.world Examples.bare [])) = true /\
  walk ["q"] (fs (Examples.world Examples.bare [])) = inr (Dir []) /\
  (forall p x, In p (queue_dirs ["q"] (pid (Examples.world Examples.bare []))) ->
               walk p (fs (Examples.world Examples.bare [])) = inr x ->
               is_dir x = true) /\
  exists w1 w2,
    OpenQueue ["q"] (Examples.world Examples.bare [])
      = ((Some (mkQueue ["q"] ""), None), w1) /\
    OpenQueue ["q"] w1 = ((Some (mkQueue ["q"] ""), None), w2) /\
    fs w2 = fs w1 /\
    (forall p, In p (queue_dirs ["q"] (pid (Examples.world Examples.bare []))) ->
               exists es', walk p (fs w1) = inr (Dir es')) /\
    grown (queue_dirs ["q"] (pid (Examples.world Examples.bare [])))
          (fs (Examples.world Examples.bare [])) (fs w1).
Proof.
  assert (H1 : quiet (sched (Examples.world Examples.bare [])) = true)
    by reflexivity.
  assert (H2 : walk ["q"] (fs (Examples.world Examples.bare [])) = inr (Dir []))
    by reflexivity.
  assert (H3 : forall p x,
             In p (queue_dirs ["q"] (pid (Examples.world Examples.bare []))) ->
             walk p (fs (Examples.world Examples.bare [])) = inr x ->
             is_dir x = true).
  { intros p x Hp. vm_compute in Hp.
    repeat (destruct Hp as [<-|Hp]; [discriminate|]). destruct Hp. }
  split; [exact H1|]. split; [exact H2|]. split; [exact H3|].
  exact (Open_twice ["q"] (Examples.world Examples.bare []) [] H1 H2 H3).
Defined.

(** ** RescueDeadJobs *)

(** C10: with no other process acting on a well-formed tree, a slot whose
    name parses as the identifier of a process that the probe does not
    report dead, because the probe fails or because the process is alive,
    holds after [RescueDeadJobs] exactly what it held before: nothing is
    moved out of it and it is not removed.  When the probe fails with [e],
    and the slot is in the listing of [cur], the failure is in the log. *)
Theorem probe_error_skips_slot (qu : Queue) (s : string) (p : Z)
        (w w' : World) (r : error) :
  calm (sched w) = true -> wf (fs w) ->
  Atoi s = (p, None) ->
  kill0 w p <> Some ESRCH ->
  Queue_RescueDeadJobs qu w = (r, w') ->
  walk (basedir qu ++ ["cur"; s]) (fs w')
    = walk (basedir qu ++ ["cur"; s]) (fs w) /\
  (forall e names,
     kill0 w p = Some e ->
     faulty (hd Quiet (sched w)) = false ->
     readdir (Queue_getCurDir qu) (fs w) = inr names -> In s names ->
     In (LogKillFailed p e) (log w')).
Proof.
  intros Hc Hw Hs Hk H.
  destruct (RescueDeadJobs_frame _ _ _ _ _ _ Hs Hc Hw Hk H) as (_ & _ & _ & Hf).
  split; [exact Hf|]. intros e names Hke Hnf Hrd Hin.
  unfold Queue_RescueDeadJobs, readdirnames, bind in H.
  destruct (os_Readdirnames _ w) as [[l r0] w1] eqn:E1.
  destruct (os_Readdirnames_inv _ _ _ _ _ E1) as (Hl1 & _ & _ & _ & F1 & Hres).
  rewrite (seen_calm _ Hc) in *.
  destruct r0 as [e0|].
  { destruct Hres as [_ K]. rewrite (K Hnf) in Hrd. discriminate. }
  rewrite Hrd in Hres. injection Hres as <-.
  destruct (RescueDeadJobs_range qu names w1) as [[] w2] eqn:E2.
  injection H as _ <-.
  apply (RescueDeadJobs_range_logs qu s p e names Hs) with (w := w1);
    [congruence|eauto using later_calm|now rewrite F1| |exact Hin|exact E2].
  destruct Hl1 as (K & _). now rewrite K.
Qed.

Lemma probe_error_skips_slot_witness :
  calm (sched Examples.sweeping) = true /\ wf (fs Examples.sweeping) /\
  Atoi "7" = (7%Z, None) /\
  kill0 Examples.sweeping 7 <> Some ESRCH /\
  Queue_RescueDeadJobs Examples.qx Examples.sweeping = (None, Examples.swept) /\
  walk (basedir Examples.qx ++ ["cur"; "7"]) (fs Examples.swept)
    = inr (Dir [("j1", Examples.build1)]) /\
  In (LogKillFailed 7 EPERM) (log Examples.swept).
Proof.
  assert (H1 : calm (sched Examples.sweeping) = true) by reflexivity.
  assert (H2 : wf (fs Examples.sweeping)) by exact wf_two_slots.
  assert (H3 : Atoi "7" = (7%Z, None)) by reflexivity.
  assert (H4 : kill0 Examples.sweeping 7 <> Some ESRCH) by discriminate.
  assert (H5 : Queue_RescueDeadJobs Examples.qx Examples.sweeping
               = (None, Examples.swept)) by (vm_compute; reflexivity).
  split; [exact H1|]. split; [exact H2|]. split; [exact H3|].
  split; [exact H4|]. split; [exact H5|].
  destruct (probe_error_skips_slot Examples.qx "7" 7 _ _ _ H1 H2 H3 H4 H5)
    as [Hf Hlog].
  split.
  - rewrite Hf. reflexivity.
  - apply (Hlog EPERM ["7"; "9"]); [reflexivity|reflexivity|reflexivity|].
    now left.
Defined.

(** C1 (as stated, refuted): the slot [007] holds the job [j1]; its name
    parses as the identifier 7, and process 7 is dead.  [RescueDeadJobs]
    looks for the jobs of process 7 in [cur/7], where [strconv.Itoa] puts
    them, finds nothing there, and returns: [j1] is still in the slot [007]
    and [new] is still empty. *)
Lemma Rescue_misses_padded_slot :
  Atoi "007" = (7%Z, None) /\
  kill0 Examples.padded 7 = Some ESRCH /\
  fst (Queue_RescueDeadJobs Examples.qx Examples.padded) = None /\
  walk ["q"; "cur"; "007"; "j1"] (fs Examples.padded_swept)
    = inr Examples.build1 /\
  readdir ["q"; "new"] (fs Examples.padded_swept) = inr [].
Proof. repeat split; vm_compute; reflexivity. Qed.

(** C1 (amended), why it asks what it asks of a dead slot.  A job of the
    dead process 9 stays in its slot, and the slot stays, when [new] holds a
    directory under the name of the job; when the job of another dead
    process, rescued before it, has taken the name in [new]; and when the
    rename fails. *)
Lemma Rescue_stops_at_taken_name_or_failure :
  (kill0 Examples.crowded 9 = Some ESRCH /\
   walk ["q"; "new"; "build1"] (fs Examples.crowded)
     = inr (Dir [("old", File [])]) /\
   walk ["q"; "cur"; "9"; "build1"] (fs Examples.crowded_swept)
     = inr Examples.build1) /\
  (kill0 Examples.namesakes 8 = Some ESRCH /\
   kill0 Examples.namesakes 9 = Some ESRCH /\
   readdir ["q"; "new"] (fs Examples.namesakes) = inr [] /\
   walk ["q"; "new"; "j"]
        (fs (snd (Queue_RescueDeadJobs Examples.qx Examples.namesakes)))
     = inr Examples.build1 /\
   walk ["q"; "cur"; "9"; "j"]
        (fs (snd (Queue_RescueDeadJobs Examples.qx Examples.namesakes)))
     = inr (Dir [])) /\
  (kill0 Examples.sweeping_fault 9 = Some ESRCH /\
   readdir ["q"; "new"] (fs Examples.sweeping_fault) = inr [] /\
   fst (Queue_RescueDeadJobs Examples.qx Examples.sweeping_fault) = None /\
   walk ["q"; "cur"; "9"; "j2"]
        (fs (snd (Queue_RescueDeadJobs Examples.qx Examples.sweeping_fault)))
     = inr (Dir []) /\
   readdir ["q"; "new"]
        (fs (snd (Queue_RescueDeadJobs Examples.qx Examples.sweeping_fault)))
     = inr []).
Proof. repeat split; vm_compute; reflexivity. Qed.

(** C1 (amended): on a well-formed tree, with no other process acting, take
    a slot of [cur] whose name parses as the identifier [p].  If [p] is
    alive, the slot holds after [RescueDeadJobs] exactly what it held
    before, whether system calls fail or not.  If [p] is dead, the name of
    the slot is the one [strconv.Itoa] prints for [p], no name of a job of
    the slot is taken in [new] or in the slot of another dead process, and
    every system call runs normally, then [RescueDeadJobs] returns no error,
    every job of the slot is in [new] under its name, with all it held, and
    the slot is gone.  What the slots of live processes and the other
    entries of [cur] hold does not matter. *)
Theorem rescue_correct (qu : Queue) (s : string) (p : Z) (w w' : World)
        (r : error) :
  calm (sched w) = true -> wf (fs w) -> Atoi s = (p, None) ->
  Queue_RescueDeadJobs qu w = (r, w') ->
  (kill0 w p = None ->
   walk (basedir qu ++ ["cur"; s]) (fs w')
     = walk (basedir qu ++ ["cur"; s]) (fs w)) /\
  (kill0 w p = Some ESRCH -> s = Itoa p -> quiet (sched w) = true ->
   forall jobs, slot_intact (kill0 w) (basedir qu) s jobs (fs w) ->
   r = None /\
   walk (basedir qu ++ ["cur"; s]) (fs w') = inl ENOENT /\
   forall x n, assoc x jobs = Some n ->
               walk (basedir qu ++ ["new"; x]) (fs w') = inr n).
Proof.
  intros Hc Hw Hs H. split.
  - intro Hk.
    destruct (RescueDeadJobs_frame _ _ _ _ _ _ Hs Hc Hw
                ltac:(congruence) H) as (_ & _ & _ & Hf).
    exact Hf.
  - intros Hk -> Hq jobs Hi. pose proof (Atoi_in_range _ _ Hs) as Hr.
    pose proof Hi as (_ & _ & Hslot & _).
    change (basedir qu ++ ["cur"; Itoa p])
      with (basedir qu ++ ["cur"] ++ [Itoa p]) in Hslot.
    rewrite app_assoc in Hslot.
    destruct (walk_snoc_inv _ _ _ _ Hslot) as (ces & Hcur & Hin).
    apply assoc_In in Hin.
    unfold Queue_RescueDeadJobs, readdirnames, bind in H.
    destruct (os_Readdirnames _ w) as [[l r0] w1] eqn:E1.
    destruct (os_Readdirnames_quiet _ _ _ _ _ Hq E1)
      as (Hq1 & _ & K1 & _ & _ & _ & F1 & Hres).
    rewrite getCurDir_eq, (readdir_dir _ _ _ Hcur) in Hres.
    destruct Hres as [-> ->].
    destruct (RescueDeadJobs_range qu (names ces) w1) as [[] w2] eqn:E2.
    injection H as <- <-.
    destruct (RescueDeadJobs_range_step qu p jobs (names ces) Hr w1 w2)
      as [_ A]; [congruence|exact Hq1|exact E2|].
    rewrite <- F1, <- K1 in Hi. destruct (A Hi) as (_ & _ & _ & Hres).
    destruct (Hres Hin) as (_ & _ & Hgone & Hall). auto.
Qed.

Lemma rescue_correct_witness :
  calm (sched Examples.sweeping_three) = true /\
  wf (fs Examples.sweeping_three) /\
  Queue_RescueDeadJobs Examples.qx Examples.sweeping_three
    = (None, Examples.swept_three) /\
  (Atoi "42" = (42%Z, None) /\ kill0 Examples.sweeping_three 42 = None /\
   walk (basedir Examples.qx ++ ["cur"; "42"]) (fs Examples.swept_three)
     = inr (Dir [("j2", Examples.build1)])) /\
  (Atoi "9" = (9%Z, None) /\ kill0 Examples.sweeping_three 9 = Some ESRCH /\
   "9" = Itoa 9 /\ quiet (sched Examples.sweeping_three) = true /\
   slot_intact (kill0 Examples.sweeping_three) (basedir Examples.qx) "9"
               [("j2", Dir [])] (fs Examples.sweeping_three) /\
   walk (basedir Examples.qx ++ ["cur"; "9"]) (fs Examples.swept_three)
     = inl ENOENT /\
   walk (basedir Examples.qx ++ ["new"; "j2"]) (fs Examples.swept_three)
     = inr (Dir [])).
Proof.
  assert (H1 : calm (sched Examples.sweeping_three) = true) by reflexivity.
  assert (H2 : wf (fs Examples.sweeping_three)) by exact wf_three_slots.
  assert (H3 : Atoi "9" = (9%Z, None)) by reflexivity.
  assert (H3' : Atoi "42" = (42%Z, None)) by reflexivity.
  assert (H4 : Queue_RescueDeadJobs Examples.qx Examples.sweeping_three
               = (None, Examples.swept_three)) by (vm_compute; reflexivity).
  assert (H5 : quiet (sched Examples.sweeping_three) = true) by reflexivity.
  split; [exact H1|]. split; [exact H2|]. split; [exact H4|].
  destruct (rescue_correct Examples.qx "42" 42 _ _ _ H1 H2 H3' H4)
    as [Halive _].
  destruct (rescue_correct Examples.qx "9" 9 _ _ _ H1 H2 H3 H4) as [_ Hdead].
  destruct (Hdead eq_refl eq_refl H5 [("j2", Dir [])] intact_three_slots)
    as (_ & Hgone & Hall).
  split.
  - split; [exact H3'|]. split; [reflexivity|]. rewrite (Halive eq_refl).
    reflexivity.
  - split; [exact H3|]. split; [reflexivity|]. split; [reflexivity|].
    split; [exact H5|]. split; [exact intact_three_slots|].
    split; [exact Hgone|]. now apply Hall.
Defined.

(** * Further properties of the package *)

(** ** CreateJob *)

(** X1: when [CreateJob] returns a job, with no other process acting, the
    job belongs to the queue; the pattern has no path separator, and the
    [Basename] of the job is the pattern with a number in decimal digits in
    the place of its last [*], or at its end when it has no [*]; the
    [Basename] is a name a directory entry can have, and the directory of
    the job is [tmp/<Basename>], where [Submit] expects a staged job; that
    directory did not exist before, is empty now, and is all that the call
    has added to the tree. *)
Theorem CreateJob_creates (qu : Queue) (pattern : string) (job : Job)
        (w w' : World) :
  calm (sched w) = true ->
  Queue_CreateJob qu pattern w = ((Some job, None), w') ->
  q job = qu /\
  (exists pre suf rnd,
     prefixAndSuffix pattern = Some (pre, suf) /\
     all_digits rnd = true /\ rnd <> "" /\
     Basename job = (pre ++ rnd ++ suf)%string) /\
  plain (Basename job) = true /\
  dir job = basedir qu ++ ["tmp"; Basename job] /\
  (exists e, walk (dir job) (fs w) = inl e) /\
  walk (dir job) (fs w') = inr (Dir []) /\
  grown [dir job] (fs w) (fs w').
Proof.
  intros Hc H. unfold Queue_CreateJob, bind in H.
  destruct (ioutil_TempDir _ pattern w) as [[p r] w1] eqn:E.
  destruct (ioutil_TempDir_inv _ _ _ _ _ _ Hc E) as (_ & _ & _ & Hr).
  destruct r as [e|]; unfold ret in H; [discriminate|].
  injection H as <- <-. cbn [q Basename dir].
  destruct Hr as (Hn & Hop).
  destruct (temp_name_inv _ _ _ Hn) as (c0 & Hp0 & Hpl & _).
  destruct Hn as (pre & suf & rnd & Hps & Hd & Hne & Hp).
  rewrite (Join_plain _ "tmp" eq_refl) in Hp, Hp0.
  assert (Hb : Base p = (pre ++ rnd ++ suf)%string).
  { rewrite Hp. unfold Base. now rewrite last_last. }
  assert (Hc0 : c0 = (pre ++ rnd ++ suf)%string).
  { rewrite Hp in Hp0. now apply app_inj_tail in Hp0 as [_ <-]. }
  destruct (mkdir_inv _ _ _ Hop) as (d & c & es & e & Hpc & Hdd & He & Hfs).
  split; [reflexivity|]. split; [exists pre, suf, rnd; auto|].
  split; [now rewrite Hb, <- Hc0|].
  split; [now rewrite Hb, Hp, <- app_assoc|]. split; [eauto|]. split.
  - rewrite Hfs, Hpc. rewrite <- (app_nil_r (d ++ [c])) at 1.
    now rewrite (walk_put_at _ _ _ _ _ _ Hdd).
  - rewrite Hfs, Hpc. rewrite Hpc in He. now apply (grown_put _ _ _ _ _ Hdd He).
Qed.

Lemma CreateJob_creates_witness :
  calm (sched (Examples.world Examples.fresh [])) = true /\
  Queue_CreateJob Examples.qx "foo" (Examples.world Examples.fresh [])
    = ((Some (mkJob "foo1" ["q"; "tmp"; "foo1"] Examples.qx), None),
       Examples.created) /\
  Queue_CreateJob Examples.qx "a*b*c" (Examples.world Examples.fresh [])
    = ((Some (mkJob "a*b1c" ["q"; "tmp"; "a*b1c"] Examples.qx), None),
       snd (Queue_CreateJob Examples.qx "a*b*c"
              (Examples.world Examples.fresh []))) /\
  walk ["q"; "tmp"; "foo1"] (fs (Examples.world Examples.fresh []))
    = inl ENOENT /\
  walk ["q"; "tmp"; "foo1"] (fs Examples.created) = inr (Dir []) /\
  plain "a*b1c" = true.
Proof.
  assert (H1 : calm (sched (Examples.world Examples.fresh [])) = true)
    by reflexivity.
  assert (H2 : Queue_CreateJob Examples.qx "foo" (Examples.world Examples.fresh [])
    = ((Some (mkJob "foo1" ["q"; "tmp"; "foo1"] Examples.qx), None),
       Examples.created)) by (vm_compute; reflexivity).
  assert (H3 : Queue_CreateJob Examples.qx "a*b*c"
                 (Examples.world Examples.fresh [])
    = ((Some (mkJob "a*b1c" ["q"; "tmp"; "a*b1c"] Examples.qx), None),
       snd (Queue_CreateJob Examples.qx "a*b*c"
              (Examples.world Examples.fresh []))))
    by (vm_compute; reflexivity).
  split; [exact H1|]. split; [exact H2|]. split; [exact H3|].
  split; [reflexivity|]. split.
  - exact (proj1 (proj2 (proj2 (proj2 (proj2 (proj2
      (CreateJob_creates Examples.qx "foo" _ _ _ H1 H2))))))).
  - exact (proj1 (proj2 (proj2
      (CreateJob_creates Examples.qx "a*b*c" _ _ _ H1 H3)))).
Defined.

(** X2: when [CreateJob] returns an error, with no other process acting, it
    returns no job and the tree is as it was: nothing is left in [tmp]. *)
Theorem CreateJob_failure_changes_nothing (qu : Queue) (prefix : string)
        (oj : option Job) (e : errno) (w w' : World) :
  calm (sched w) = true ->
  Queue_CreateJob qu prefix w = ((oj, Some e), w') ->
  oj = None /\ fs w' = fs w /\ log w' = log w.
Proof.
  intros Hc H. unfold Queue_CreateJob, bind in H.
  destruct (ioutil_TempDir _ prefix w) as [[p r] w1] eqn:E.
  destruct (ioutil_TempDir_inv _ _ _ _ _ _ Hc E) as (_ & Hl & _ & Hr).
  destruct r as [e'|]; unfold ret in H; [|discriminate].
  injection H as <- <- <-. destruct Hr as [F _]. auto.
Qed.

Lemma CreateJob_failure_changes_nothing_witness :
  calm (sched (Examples.world Examples.bare [])) = true /\
  Queue_CreateJob Examples.qx "foo" (Examples.world Examples.bare [])
    = ((None, Some ENOENT),
       snd (Queue_CreateJob Examples.qx "foo" (Examples.world Examples.bare []))) /\
  fs (snd (Queue_CreateJob Examples.qx "foo" (Examples.world Examples.bare [])))
    = fs (Examples.world Examples.bare []).
Proof.
  assert (H1 : calm (sched (Examples.world Examples.bare [])) = true)
    by reflexivity.
  assert (H2 : Queue_CreateJob Examples.qx "foo" (Examples.world Examples.bare [])
    = ((None, Some ENOENT),
       snd (Queue_CreateJob Examples.qx "foo" (Examples.world Examples.bare []))))
    by (vm_compute; reflexivity).
  split; [exact H1|]. split; [exact H2|].
  exact (proj1 (proj2
    (CreateJob_failure_changes_nothing Examples.qx "foo" _ _ _ _ H1 H2))).
Defined.

(** ** Take *)

(** X3: when [Take] returns a job, with no other process acting on a
    well-formed tree, the job belongs to the queue, its [Basename] is a name
    that was listed in [new], its directory is [cur/<pid>/<Basename>], the
    node that was at [new/<Basename>] is there now, with all it held, and
    nothing is left at [new/<Basename>]. *)
Theorem Take_claims_job (qu : Queue) (fuel : nat) (job : Job) (w w' : World) :
  calm (sched w) = true -> wf (fs w) ->
  Queue_Take fuel qu w = (Some (Some job, None), w') ->
  q job = qu /\
  dir job = basedir qu ++ ["cur"; Itoa (pid w); Basename job] /\
  (exists names, readdir (Queue_getNewDir qu) (fs w) = inr names /\
                 In (Basename job) names) /\
  (exists x, walk (basedir qu ++ ["new"; Basename job]) (fs w) = inr x /\
             forall r, walk (dir job ++ r) (fs w') = walk r x) /\
  walk (basedir qu ++ ["new"; Basename job]) (fs w') = inl ENOENT.
Proof.
  revert w. induction fuel as [|fuel IH]; intros w Hc Hw H; [discriminate|].
  cbn [Queue_Take] in H. unfold bind in H.
  destruct (Queue_Take_iter qu w) as [res w1] eqn:E.
  destruct (Take_iter_calm _ _ _ _ Hc Hw E) as (Hl & _ & Hres).
  destruct res as [[[j|] err]|]; unfold ret in H.
  - injection H as -> -> <-. destruct Hres as (_ & Hq & Hd & Hn & Hop).
    split; [exact Hq|]. split; [exact Hd|]. split; [exact Hn|].
    destruct (rename_inv _ _ _ _ Hop) as (x & _ & Hx & _). split.
    + exists x. split; [exact Hx|]. intro r.
      apply (rename_walk_dst _ _ _ _ _ _ Hop Hx).
    + apply (rename_walk_src _ _ _ _ Hop). rewrite Hd. intro K.
      apply app_inv_head in K. discriminate.
  - discriminate.
  - pose proof Hl as (_ & Hp & _). rewrite <- Hres, <- Hp.
    apply IH; [eauto using later_calm|now rewrite Hres|exact H].
Qed.

Lemma Take_claims_job_witness :
  calm (sched Examples.submitted) = true /\ wf (fs Examples.submitted) /\
  Queue_Take 1 Examples.qx Examples.submitted
    = (Some (Some (mkJob "build1" ["q"; "cur"; "42"; "build1"] Examples.qx),
             None), Examples.taken) /\
  walk ["q"; "cur"; "42"; "build1"; "input"] (fs Examples.taken)
    = inr (File [Byte.x41; Byte.x42]) /\
  walk ["q"; "new"; "build1"] (fs Examples.taken) = inl ENOENT.
Proof.
  assert (H1 : calm (sched Examples.submitted) = true) by reflexivity.
  assert (H2 : wf (fs Examples.submitted)) by exact wf_submitted.
  assert (H3 : Queue_Take 1 Examples.qx Examples.submitted
    = (Some (Some (mkJob "build1" ["q"; "cur"; "42"; "build1"] Examples.qx),
             None), Examples.taken)) by (vm_compute; reflexivity).
  split; [exact H1|]. split; [exact H2|]. split; [exact H3|].
  destruct (Take_claims_job Examples.qx 1 _ _ _ H1 H2 H3)
    as (_ & _ & _ & (x & Hx & Hmoved) & Hgone).
  split; [|exact Hgone].
  cbn in Hx. injection Hx as <-. exact (Hmoved ["input"]).
Defined.

(** X4: every system call runs normally, the tree is well formed, [new]
    lists at least one name, the owner slot of the process is a directory,
    and the slot has no entry under the name that is drawn.  Then [Take]
    returns at its first turn, with the job of that name, located in the
    slot, and the tree is the one the rename of the job leaves. *)
Theorem Take_takes (qu : Queue) (fuel : nat) (w : World) (names : list string)
        (ses : list (string * node)) :
  quiet (sched w) = true -> wf (fs w) ->
  readdir (Queue_getNewDir qu) (fs w) = inr names -> names <> [] ->
  walk (Queue_getWorkerDir qu (pid w)) (fs w) = inr (Dir ses) ->
  assoc (Take_choice names w) ses = None ->
  exists w',
    Queue_Take (S fuel) qu w
      = (Some (Some (mkJob (Take_choice names w)
                           (Queue_getWorkerDir qu (pid w)
                            ++ [Take_choice names w]) qu), None), w') /\
    rename (Queue_getNewDir qu ++ [Take_choice names w])
           (Queue_getWorkerDir qu (pid w) ++ [Take_choice names w]) (fs w)
      = inr (fs w') /\
    log w' = log w.
Proof.
  intros Hq Hw Hrd Hne Hslot Hfree. rewrite getNewDir_eq in *.
  rewrite getWorkerDir_eq in *.
  destruct (Take_iter_quiet qu w names Hq Hw Hrd Hne)
    as (c & w2 & x & Hc & Hin & Hpl & Hx & Hq2 & F2 & P2 & K2 & L2 & Hit).
  unfold Take_choice in *. rewrite <- Hc in *. clear Hc.
  destruct (os_Rename _ _ w2) as [r w3] eqn:E3.
  destruct (update_quiet _ _ _ _ Hq2 E3) as (_ & _ & _ & L3 & _ & _ & Hres).
  change (basedir qu ++ ["new"; c]) with (basedir qu ++ ["new"] ++ [c]) in *.
  change (basedir qu ++ ["cur"; Itoa (pid w); c])
    with (basedir qu ++ ["cur"; Itoa (pid w)] ++ [c]) in *.
  rewrite !app_assoc in *.
  rewrite F2, (os_rename_fresh _ _ _ _ _ ses Hx) in Hres;
    [|now destruct (basedir qu)|exact Hslot|exact Hfree|prefix_tac].
  destruct Hres as [-> F3]. exists w3.
  cbn [Queue_Take]. unfold bind. rewrite Hit. unfold ret.
  split; [reflexivity|]. split; [|congruence].
  rewrite F3. apply (rename_fresh _ _ _ _ _ ses Hx);
    [now destruct (basedir qu)|exact Hslot|exact Hfree|prefix_tac].
Qed.

Lemma Take_takes_witness :
  quiet (sched Examples.submitted) = true /\ wf (fs Examples.submitted) /\
  readdir (Queue_getNewDir Examples.qx) (fs Examples.submitted)
    = inr ["a"; "build1"] /\
  ["a"; "build1"] <> [] /\
  walk (Queue_getWorkerDir Examples.qx (pid Examples.submitted))
       (fs Examples.submitted) = inr (Dir []) /\
  assoc (Take_choice ["a"; "build1"] Examples.submitted) [] = None /\
  exists w',
    Queue_Take 1 Examples.qx Examples.submitted
      = (Some (Some (mkJob "build1" ["q"; "cur"; "42"; "build1"] Examples.qx),
               None), w') /\
    rename (Queue_getNewDir Examples.qx ++ ["build1"])
           (Queue_getWorkerDir Examples.qx (pid Examples.submitted)
            ++ ["build1"]) (fs Examples.submitted)
      = inr (fs w') /\
    log w' = log Examples.submitted.
Proof.
  assert (H1 : quiet (sched Examples.submitted) = true) by reflexivity.
  assert (H2 : wf (fs Examples.submitted)) by exact wf_submitted.
  assert (H3 : readdir (Queue_getNewDir Examples.qx) (fs Examples.submitted)
               = inr ["a"; "build1"]) by reflexivity.
  assert (H4 : ["a"; "build1"] <> @nil string) by discriminate.
  assert (H5 : walk (Queue_getWorkerDir Examples.qx (pid Examples.submitted))
                    (fs Examples.submitted) = inr (Dir [])) by reflexivity.
  assert (H6 : assoc (Take_choice ["a"; "build1"] Examples.submitted) [] = None)
    by reflexivity.
  split; [exact H1|]. split; [exact H2|]. split; [exact H3|]. split; [exact H4|].
  split; [exact H5|]. split; [exact H6|].
  exact (Take_takes Examples.qx 0 _ _ _ H1 H2 H3 H4 H5 H6).
Defined.

(** X5: every system call runs normally, the tree is well formed, [new]
    lists at least one name, and the process has no owner slot in [cur].
    Then no turn of the loop of [Take] returns: each draws a name, fails to
    rename it into the missing slot, takes the failure for a lost race, and
    goes on; the tree stays as it was. *)
Theorem Take_spins_without_owner_slot (qu : Queue) (names : list string)
        (fuel : nat) :
  forall w : World,
  quiet (sched w) = true -> wf (fs w) ->
  readdir (Queue_getNewDir qu) (fs w) = inr names -> names <> [] ->
  walk (Queue_getWorkerDir qu (pid w)) (fs w) = inl ENOENT ->
  exists w', Queue_Take fuel qu w = (None, w') /\ fs w' = fs w.
Proof.
  induction fuel as [|fuel IH]; intros w Hq Hw Hrd Hne Hslot.
  - exists w. auto.
  - pose proof Hrd as Hrd'. pose proof Hslot as Hslot'.
    rewrite getNewDir_eq in Hrd'. rewrite getWorkerDir_eq in Hslot'.
    destruct (Take_iter_quiet qu w names Hq Hw Hrd' Hne)
      as (c & w2 & x & _ & Hin & Hpl & Hx & Hq2 & F2 & P2 & K2 & L2 & Hit).
    destruct (os_Rename _ _ w2) as [r w3] eqn:E3.
    destruct (update_quiet _ _ _ _ Hq2 E3) as (Hq3 & P3 & _ & _ & _ & _ & Hres).
    change (basedir qu ++ ["cur"; Itoa (pid w); c])
      with (basedir qu ++ ["cur"; Itoa (pid w)] ++ [c]) in *.
    rewrite !app_assoc in *.
    rewrite F2, (os_rename_no_parent _ _ c _ _ ENOENT Hx) in Hres;
      [|now destruct (basedir qu)|exact Hslot'].
    destruct Hres as [-> F3]. cbn [os_IsNotExist errno_eqb] in Hit.
    destruct (IH w3) as (w' & E & F); [exact Hq3|congruence|congruence|exact Hne| |].
    + rewrite P3, P2, F3. exact Hslot.
    + exists w'. cbn [Queue_Take]. unfold bind. rewrite Hit.
      split; [exact E|congruence].
Qed.

Lemma Take_spins_without_owner_slot_witness :
  quiet (sched Examples.orphaned) = true /\ wf (fs Examples.orphaned) /\
  readdir (Queue_getNewDir Examples.qx) (fs Examples.orphaned)
    = inr ["a"; "build1"] /\
  ["a"; "build1"] <> [] /\
  walk (Queue_getWorkerDir Examples.qx (pid Examples.orphaned))
       (fs Examples.orphaned) = inl ENOENT /\
  exists w', Queue_Take 1000 Examples.qx Examples.orphaned = (None, w') /\
             fs w' = fs Examples.orphaned.
Proof.
  assert (H1 : quiet (sched Examples.orphaned) = true) by reflexivity.
  assert (H2 : wf (fs Examples.orphaned)) by exact wf_orphaned.
  assert (H3 : readdir (Queue_getNewDir Examples.qx) (fs Examples.orphaned)
               = inr ["a"; "build1"]) by reflexivity.
  assert (H4 : ["a"; "build1"] <> @nil string) by discriminate.
  assert (H5 : walk (Queue_getWorkerDir Examples.qx (pid Examples.orphaned))
                    (fs Examples.orphaned) = inl ENOENT) by reflexivity.
  split; [exact H1|]. split; [exact H2|]. split; [exact H3|]. split; [exact H4|].
  split; [exact H5|].
  exact (Take_spins_without_owner_slot Examples.qx _ 1000 _ H1 H2 H3 H4 H5).
Defined.

(** X6: when [new] cannot be listed, because it is missing or is not a
    directory, [Take] returns the error of the listing and no job, at its
    first turn, and changes nothing. *)
Theorem Take_listing_error (qu : Queue) (fuel : nat) (w : World) (e : errno) :
  faulty (hd Quiet (sched w)) = false ->
  readdir (Queue_getNewDir qu) (seen w) = inl e ->
  exists w', Queue_Take (S fuel) qu w = (Some (None, Some e), w') /\
             fs w' = seen w /\ log w' = log w.
Proof.
  intros Hf Hr. unfold Queue_getNewDir in Hr.
  destruct (os_Readdirnames (Join (basedir qu) ["new"]) w) as [[l r] w'] eqn:E.
  destruct (os_Readdirnames_inv _ _ _ _ _ E) as (_ & Hlog & _ & _ & Hfs & Hres).
  exists w'. cbn [Queue_Take]. unfold Queue_Take_iter, bind. rewrite E.
  destruct r as [e'|].
  - destruct Hres as [_ He]. rewrite (He Hf) in Hr. injection Hr as ->. auto.
  - rewrite Hr in Hres. discriminate.
Qed.

Lemma Take_listing_error_witness :
  faulty (hd Quiet (sched Examples.unopened)) = false /\
  readdir (Queue_getNewDir Examples.qx) (seen Examples.unopened) = inl ENOENT /\
  exists w', Queue_Take 1 Examples.qx Examples.unopened
             = (Some (None, Some ENOENT), w') /\
             fs w' = seen Examples.unopened /\ log w' = log Examples.unopened.
Proof.
  assert (H1 : faulty (hd Quiet (sched Examples.unopened)) = false)
    by reflexivity.
  assert (H2 : readdir (Queue_getNewDir Examples.qx) (seen Examples.unopened)
               = inl ENOENT) by reflexivity.
  split; [exact H1|]. split; [exact H2|].
  exact (Take_listing_error Examples.qx 0 _ _ H1 H2).
Defined.

(** ** Set and Get *)

(** X7: with no other process acting, [Set] changes no file but the one of
    its key, whether it succeeds or fails: every file that existed elsewhere
    holds afterwards what it held before. *)
Theorem Set_changes_no_other_file (j : Job) (name : string) (data : bytes)
        (w w' : World) (r : error) (p : path) (b : bytes) :
  calm (sched w) = true ->
  Job_Set j name data w = (r, w') ->
  walk p (fs w) = inr (File b) ->
  p <> Join (dir j) [name] ->
  walk p (fs w') = inr (File b).
Proof.
  intros Hc H Hp Hne. destruct (Job_Set_inv _ _ _ _ _ _ Hc H) as (_ & Hcase).
  destruct Hcase as [(e & _ & ->)|(fn & t1 & t2 & _ & Hcr & Ht2 & Hr)];
    [exact Hp|].
  destruct (create_excl_spec _ _ _ Hcr) as (Hfn & (e0 & Hnew) & Hkeep & _).
  assert (Hpfn : p <> fn) by (intros ->; congruence).
  assert (K2 : walk p t2 = inr (File b) /\ exists c, walk fn t2 = inr (File c)).
  { destruct Ht2 as [->|(data' & ->)]; [eauto|].
    destruct (append_spec _ data' _ _ Hfn) as (Hfn2 & Hkeep2). split; eauto. }
  destruct K2 as (Hp2 & c & Hfn2).
  destruct r as [e|]; [now rewrite Hr|]. destruct Hr as (_ & Hrn & _).
  destruct (rename_inv _ _ _ _ Hrn) as (x & es & Hx & _ & _ & _ & Hcase).
  rewrite Hfn2 in Hx. injection Hx as <-.
  destruct Hcase as [[_ ->]|(_ & _ & _ & Hdst)]; [exact Hp2|].
  pose proof (rename_kind _ _ p _ _ Hrn) as K. rewrite Hp2 in K.
  assert (P1 : prefix fn p = false).
  { destruct (prefix fn p) eqn:E; [|reflexivity].
    destruct (prefix_inv _ _ E) as [r' ->].
    destruct r' as [|a r']; [now rewrite app_nil_r in Hpfn|].
    rewrite (walk_below_file _ (a :: r') _ _ Hfn2) in Hp2; discriminate. }
  assert (P2 : prefix (Join (dir j) [name]) p = false).
  { destruct (prefix (Join (dir j) [name]) p) eqn:E; [|reflexivity].
    destruct (prefix_inv _ _ E) as [r' ->].
    destruct r' as [|a r']; [now rewrite app_nil_r in Hne|].
    destruct Hdst as [[e Hd]|[(b1 & b2 & Hd & _)|[_ Hd]]].
    - rewrite (walk_below_error _ (a :: r') _ _ Hd) in Hp2. discriminate.
    - rewrite (walk_below_file _ (a :: r') _ _ Hd) in Hp2; discriminate.
    - discriminate. }
  specialize (K P1 P2). destruct (walk p (fs w')) as [e|[b'|es']]; cbn in K;
    try contradiction. now subst.
Qed.

Lemma Set_changes_no_other_file_witness :
  calm (sched (Examples.world Examples.staged [])) = true /\
  Job_Set Examples.staged_job "output" [Byte.x43]
          (Examples.world Examples.staged [])
    = (None, snd (Job_Set Examples.staged_job "output" [Byte.x43]
                          (Examples.world Examples.staged []))) /\
  walk ["q"; "tmp"; "build1"; "input"] (fs (Examples.world Examples.staged []))
    = inr (File [Byte.x41; Byte.x42]) /\
  ["q"; "tmp"; "build1"; "input"] <> Join (dir Examples.staged_job) ["output"] /\
  walk ["q"; "tmp"; "build1"; "input"]
       (fs (snd (Job_Set Examples.staged_job "output" [Byte.x43]
                         (Examples.world Examples.staged []))))
    = inr (File [Byte.x41; Byte.x42]).
Proof.
  assert (H1 : calm (sched (Examples.world Examples.staged [])) = true)
    by reflexivity.
  assert (H2 : Job_Set Examples.staged_job "output" [Byte.x43]
          (Examples.world Examples.staged [])
    = (None, snd (Job_Set Examples.staged_job "output" [Byte.x43]
                          (Examples.world Examples.staged []))))
    by (vm_compute; reflexivity).
  assert (H3 : walk ["q"; "tmp"; "build1"; "input"]
                    (fs (Examples.world Examples.staged []))
               = inr (File [Byte.x41; Byte.x42])) by reflexivity.
  assert (H4 : ["q"; "tmp"; "build1"; "input"]
               <> Join (dir Examples.staged_job) ["output"])
    by (vm_compute; discriminate).
  split; [exact H1|]. split; [exact H2|]. split; [exact H3|]. split; [exact H4|].
  exact (Set_changes_no_other_file Examples.staged_job "output" _ _ _ _ _ _
           H1 H2 H3 H4).
Defined.

(** X8: [Set] never removes its temporary file: when it fails, with no
    other process acting, either nothing has changed (no temporary file
    could be created) or a file that did not exist before is left in [tmp];
    its name is the key with a number in decimal digits in the place of its
    last [*], or at its end when it has no [*]. *)
Theorem failed_Set_leaves_temporary_file (j : Job) (name : string)
        (data : bytes) (w w' : World) (e : errno) :
  calm (sched w) = true ->
  Job_Set j name data w = (Some e, w') ->
  fs w' = fs w \/
  exists pre suf rnd content,
    prefixAndSuffix name = Some (pre, suf) /\
    all_digits rnd = true /\ rnd <> "" /\
    (exists e0,
       walk (basedir (q j) ++ ["tmp"; (pre ++ rnd ++ suf)%string]) (fs w)
       = inl e0) /\
    walk (basedir (q j) ++ ["tmp"; (pre ++ rnd ++ suf)%string]) (fs w')
      = inr (File content).
Proof.
  intros Hc H. destruct (Job_Set_inv _ _ _ _ _ _ Hc H) as (_ & Hcase).
  destruct Hcase as [(e' & _ & ->)|(fn & t1 & t2 & Hn & Hcr & Ht2 & ->)];
    [now left|right].
  destruct Hn as (pre & suf & rnd & Hps & Hd & Hne & Hfn0).
  rewrite (Join_plain _ "tmp" eq_refl), <- app_assoc in Hfn0. cbn [app] in Hfn0.
  subst fn. exists pre, suf, rnd.
  destruct (create_excl_spec _ _ _ Hcr) as (Hfn & Hnew & _).
  destruct Ht2 as [->|(data' & ->)].
  - exists []. auto 6.
  - destruct (append_spec _ data' _ _ Hfn) as (Hfn2 & _).
    exists ([] ++ data')%list. auto 6.
Qed.

Lemma failed_Set_leaves_temporary_file_witness :
  calm (sched Examples.short_write) = true /\
  Job_Set Examples.staged_job "input" [Byte.x43; Byte.x44] Examples.short_write
    = (Some EIO, Examples.after_short_write) /\
  fs Examples.after_short_write <> fs Examples.short_write /\
  walk ["q"; "tmp"; "input1"] (fs Examples.after_short_write)
    = inr (File [Byte.x43]) /\
  (fs Examples.after_short_write = fs Examples.short_write \/
   exists pre suf rnd content,
    prefixAndSuffix "input" = Some (pre, suf) /\
    all_digits rnd = true /\ rnd <> "" /\
    (exists e0,
       walk (basedir (q Examples.staged_job)
             ++ ["tmp"; (pre ++ rnd ++ suf)%string]) (fs Examples.short_write)
       = inl e0) /\
    walk (basedir (q Examples.staged_job)
          ++ ["tmp"; (pre ++ rnd ++ suf)%string])
         (fs Examples.after_short_write)
      = inr (File content)).
Proof.
  assert (H1 : calm (sched Examples.short_write) = true) by reflexivity.
  assert (H2 : Job_Set Examples.staged_job "input" [Byte.x43; Byte.x44]
                 Examples.short_write
    = (Some EIO, Examples.after_short_write)) by (vm_compute; reflexivity).
  split; [exact H1|]. split; [exact H2|].
  split; [vm_compute; discriminate|]. split; [vm_compute; reflexivity|].
  exact (failed_Set_leaves_temporary_file Examples.staged_job "input" _ _ _ _
           H1 H2).
Defined.

(** X9: [Get] of a property that was never set: the job directory is there
    and has no entry of that name.  [Get] returns no data and [ENOENT], of
    which [os.IsNotExist] holds, and changes nothing. *)
Theorem Get_missing_property (j : Job) (name : string) (w : World)
        (es : list (string * node)) :
  faulty (hd Quiet (sched w)) = false ->
  plain name = true ->
  walk (dir j) (seen w) = inr (Dir es) ->
  assoc name es = None ->
  exists w', Job_Get j name w = (([], Some ENOENT), w') /\
             os_IsNotExist ENOENT = true /\ fs w' = seen w /\ log w' = log w.
Proof.
  intros Hf Hpl Hd Ha. unfold Job_Get. rewrite (Join_plain _ _ Hpl).
  destruct (ioutil_ReadFile _ w) as [[d r] w'] eqn:E.
  destruct (ioutil_ReadFile_inv _ _ _ _ _ E) as (_ & L & _ & _ & F & Hres).
  exists w'. unfold readfile in Hres. rewrite (walk_snoc _ _ _ _ Hd), Ha in Hres.
  destruct r as [e|]; [|discriminate]. destruct Hres as [-> He].
  specialize (He Hf). injection He as <-. auto.
Qed.

Lemma Get_missing_property_witness :
  faulty (hd Quiet (sched (Examples.world Examples.staged []))) = false /\
  plain "output" = true /\
  walk (dir Examples.staged_job) (seen (Examples.world Examples.staged []))
    = inr (Dir [("input", File [Byte.x41; Byte.x42])]) /\
  assoc "output" [("input", File [Byte.x41; Byte.x42])] = None /\
  exists w', Job_Get Examples.staged_job "output"
                     (Examples.world Examples.staged [])
             = (([], Some ENOENT), w') /\
             os_IsNotExist ENOENT = true /\
             fs w' = seen (Examples.world Examples.staged []) /\
             log w' = log (Examples.world Examples.staged []).
Proof.
  assert (H1 : faulty (hd Quiet (sched (Examples.world Examples.staged [])))
               = false) by reflexivity.
  assert (H2 : plain "output" = true) by reflexivity.
  assert (H3 : walk (dir Examples.staged_job)
                    (seen (Examples.world Examples.staged []))
               = inr (Dir [("input", File [Byte.x41; Byte.x42])]))
    by reflexivity.
  assert (H4 : assoc "output" [("input", File [Byte.x41; Byte.x42])] = None)
    by reflexivity.
  split; [exact H1|]. split; [exact H2|]. split; [exact H3|]. split; [exact H4|].
  exact (Get_missing_property Examples.staged_job "output" _ _ H1 H2 H3 H4).
Defined.

(** ** Submit *)

(** X10: [Submit] does not overwrite what [new] holds under the name of the
    job when that is a directory, empty or not: [os.Rename] refuses a
    destination that is a directory, with [EEXIST], of which [os.IsExist]
    holds; the job keeps its location, and the tree and the log are as they
    were. *)
Theorem Submit_refuses_taken_name (job : Job) (w : World) (x : node)
        (es : list (string * node)) :
  faulty (hd Quiet (sched w)) = false ->
  plain (Basename job) = true ->
  walk (dir job) (seen w) = inr x ->
  walk (basedir (q job) ++ ["new"; Basename job]) (seen w) = inr (Dir es) ->
  exists w', Job_Submit job w = ((job, Some EEXIST), w') /\
             os_IsExist (Some EEXIST) = true /\
             fs w' = seen w /\ log w' = log w.
Proof.
  intros Hf Hpl Hx Hdst.
  destruct (Submit_onto_dir _ _ _ _ Hf Hpl Hx Hdst) as (w' & E & F & L).
  exists w'. auto.
Qed.

Lemma Submit_refuses_taken_name_witness :
  faulty (hd Quiet (sched (Examples.world Examples.clash []))) = false /\
  plain (Basename Examples.staged_job) = true /\
  walk (dir Examples.staged_job) (seen (Examples.world Examples.clash []))
    = inr (Dir [("input", File [Byte.x41; Byte.x42])]) /\
  walk (basedir (q Examples.staged_job)
        ++ ["new"; Basename Examples.staged_job])
       (seen (Examples.world Examples.clash []))
    = inr (Dir [("old", File [])]) /\
  walk (basedir (q Examples.staged_job)
        ++ ["new"; Basename Examples.staged_job])
       (seen (Examples.world Examples.hollow []))
    = inr (Dir []) /\
  (exists w', Job_Submit Examples.staged_job (Examples.world Examples.clash [])
              = ((Examples.staged_job, Some EEXIST), w') /\
              os_IsExist (Some EEXIST) = true /\
              fs w' = seen (Examples.world Examples.clash []) /\
              log w' = log (Examples.world Examples.clash [])) /\
  (exists w', Job_Submit Examples.staged_job (Examples.world Examples.hollow [])
              = ((Examples.staged_job, Some EEXIST), w') /\
              os_IsExist (Some EEXIST) = true /\
              fs w' = seen (Examples.world Examples.hollow []) /\
              log w' = log (Examples.world Examples.hollow [])).
Proof.
  assert (H1 : faulty (hd Quiet (sched (Examples.world Examples.clash [])))
               = false) by reflexivity.
  assert (H2 : plain (Basename Examples.staged_job) = true) by reflexivity.
  assert (H4 : walk (dir Examples.staged_job)
                    (seen (Examples.world Examples.clash []))
               = inr (Dir [("input", File [Byte.x41; Byte.x42])]))
    by reflexivity.
  assert (H5 : walk (basedir (q Examples.staged_job)
                     ++ ["new"; Basename Examples.staged_job])
                    (seen (Examples.world Examples.clash []))
               = inr (Dir [("old", File [])])) by reflexivity.
  assert (H6 : walk (basedir (q Examples.staged_job)
                     ++ ["new"; Basename Examples.staged_job])
                    (seen (Examples.world Examples.hollow []))
               = inr (Dir [])) by reflexivity.
  split; [exact H1|]. split; [exact H2|]. split; [exact H4|].
  split; [exact H5|]. split; [exact H6|]. split.
  - exact (Submit_refuses_taken_name Examples.staged_job _ _ _ H1 H2 H4 H5).
  - exact (Submit_refuses_taken_name Examples.staged_job
             (Examples.world Examples.hollow []) _ _ H1 H2 H4 H6).
Defined.

(** X11: [Submit] cannot be repeated: after a [Submit] that has moved the
    directory of the job to [new], a second [Submit] of the job, run
    undisturbed, fails with [EEXIST], because the destination of its rename
    is the directory of the job itself; the job stays in [new] with all it
    held, and the tree is as the first [Submit] left it. *)
Theorem Submit_twice (job job' : Job) (w w' : World)
        (xs : list (string * node)) :
  plain (Basename job) = true ->
  walk (dir job) (seen w) = inr (Dir xs) ->
  Job_Submit job w = ((job', None), w') ->
  hd Quiet (sched w') = Quiet ->
  exists w'', Job_Submit job' w' = ((job', Some EEXIST), w'') /\
              fs w'' = fs w' /\
              dir job' = basedir (q job) ++ ["new"; Basename job] /\
              walk (dir job') (fs w'') = inr (Dir xs).
Proof.
  intros Hp Hx H Hq. unfold Job_Submit, bind in H.
  rewrite (Join_two (basedir (q job)) "new" _ eq_refl Hp) in H.
  destruct (os_Rename _ _ w) as [[e|] w1] eqn:E; unfold ret in H;
    [discriminate|]. injection H as <- <-.
  destruct (update_inv _ _ _ _ E) as (_ & _ & _ & _ & Hop).
  apply os_rename_ok in Hop.
  pose proof (rename_walk_dst _ _ [] _ _ _ Hop Hx) as K.
  rewrite app_nil_r in K. cbn [walk] in K.
  assert (Hs : seen w1 = fs w1).
  { apply seen_not_interfered. intros act. rewrite Hq. discriminate. }
  destruct (Submit_onto_dir
              (mkJob (Basename job) (basedir (q job) ++ ["new"; Basename job])
                     (q job)) w1 (Dir xs) xs) as (w2 & E2 & F2 & _).
  - now rewrite Hq.
  - exact Hp.
  - cbn [dir]. now rewrite Hs.
  - cbn [q Basename]. now rewrite Hs.
  - exists w2. cbn [dir]. rewrite F2, Hs. auto.
Qed.

Lemma Submit_twice_witness :
  plain (Basename Examples.staged_job) = true /\
  walk (dir Examples.staged_job) (seen (Examples.world Examples.staged []))
    = inr (Dir [("input", File [Byte.x41; Byte.x42])]) /\
  Job_Submit Examples.staged_job (Examples.world Examples.staged [])
    = ((mkJob "build1" ["q"; "new"; "build1"] Examples.qx, None),
       Examples.world (Examples.queue_tree [("build1", Examples.build1)]
                                           [("42", Dir [])]) []) /\
  hd Quiet (sched (Examples.world
                     (Examples.queue_tree [("build1", Examples.build1)]
                                          [("42", Dir [])]) [])) = Quiet /\
  exists w'',
    Job_Submit (mkJob "build1" ["q"; "new"; "build1"] Examples.qx)
               (Examples.world
                  (Examples.queue_tree [("build1", Examples.build1)]
                                       [("42", Dir [])]) [])
      = ((mkJob "build1" ["q"; "new"; "build1"] Examples.qx, Some EEXIST), w'') /\
    fs w'' = Examples.queue_tree [("build1", Examples.build1)] [("42", Dir [])].
Proof.
  assert (H1 : plain (Basename Examples.staged_job) = true) by reflexivity.
  assert (H2 : walk (dir Examples.staged_job)
                    (seen (Examples.world Examples.staged []))
               = inr (Dir [("input", File [Byte.x41; Byte.x42])]))
    by reflexivity.
  assert (H3 : Job_Submit Examples.staged_job (Examples.world Examples.staged [])
    = ((mkJob "build1" ["q"; "new"; "build1"] Examples.qx, None),
       Examples.world (Examples.queue_tree [("build1", Examples.build1)]
                                           [("42", Dir [])]) []))
    by (vm_compute; reflexivity).
  assert (H4 : hd Quiet (sched (Examples.world
                     (Examples.queue_tree [("build1", Examples.build1)]
                                          [("42", Dir [])]) [])) = Quiet)
    by reflexivity.
  split; [exact H1|]. split; [exact H2|]. split; [exact H3|]. split; [exact H4|].
  destruct (Submit_twice Examples.staged_job _ _ _ _ H1 H2 H3 H4)
    as (w'' & E & F & _).
  exists w''. split; [exact E|exact F].
Defined.

(** ** OpenQueue and the directories of the queue *)

(** X12: [OpenQueue] does not create the root: when the root is missing, or
    is below something that is not a directory, the first [ensuredir] fails
    with the error of the path resolution, [OpenQueue] returns it and no
    queue, and nothing is created. *)
Theorem Open_needs_root (d : path) (w : World) (e : errno) :
  faulty (hd Quiet (sched w)) = false ->
  walk d (seen w) = inl e ->
  exists w', OpenQueue d w = ((None, Some e), w') /\ fs w' = seen w.
Proof.
  intros Hf Hd. unfold OpenQueue, bind, os_Getpid.
  cbn [OpenQueue_range basedir]. unfold bind, ensuredir, bind, os_Mkdir.
  rewrite (Join_plain _ "tmp" eq_refl).
  destruct (update_run (mkdir (d ++ ["tmp"])) w Hf) as (w' & E & F & _).
  assert (Hop : mkdir (d ++ ["tmp"]) (seen w) = inl e).
  { unfold mkdir. now rewrite (walk_below_error _ ["tmp"] _ _ Hd),
      parent_dir_snoc, Hd. }
  rewrite Hop in E, F. rewrite E. exists w'.
  destruct (walk_error _ _ _ Hd) as [->| ->]; auto.
Qed.

Lemma Open_needs_root_witness :
  faulty (hd Quiet (sched (Examples.world Examples.bare []))) = false /\
  walk ["nowhere"] (seen (Examples.world Examples.bare [])) = inl ENOENT /\
  exists w', OpenQueue ["nowhere"] (Examples.world Examples.bare [])
             = ((None, Some ENOENT), w') /\
             fs w' = seen (Examples.world Examples.bare []).
Proof.
  assert (H1 : faulty (hd Quiet (sched (Examples.world Examples.bare [])))
               = false) by reflexivity.
  assert (H2 : walk ["nowhere"] (seen (Examples.world Examples.bare []))
               = inl ENOENT) by reflexivity.
  split; [exact H1|]. split; [exact H2|].
  exact (Open_needs_root ["nowhere"] _ _ H1 H2).
Defined.

(** X13: [ensuredir] reports success whenever something exists at the path,
    a directory or not, and then changes nothing. *)
Theorem ensuredir_accepts_any_entry (b : path) (parts : list string)
        (w : World) (x : node) :
  faulty (hd Quiet (sched w)) = false ->
  walk (Join b parts) (seen w) = inr x ->
  exists w', ensuredir b parts w = (None, w') /\ fs w' = seen w /\
             log w' = log w.
Proof.
  intros Hf Hx. unfold ensuredir, bind, os_Mkdir.
  destruct (update_run (mkdir (Join b parts)) w Hf) as (w' & E & F & L & _).
  rewrite (mkdir_exists _ _ _ Hx) in E, F. rewrite E. exists w'. auto.
Qed.

Lemma ensuredir_accepts_any_entry_witness :
  faulty (hd Quiet (sched (Examples.world Examples.squatted []))) = false /\
  walk (Join ["q"] ["new"]) (seen (Examples.world Examples.squatted []))
    = inr (File []) /\
  exists w', ensuredir ["q"] ["new"] (Examples.world Examples.squatted [])
             = (None, w') /\
             fs w' = seen (Examples.world Examples.squatted []) /\
             log w' = log (Examples.world Examples.squatted []).
Proof.
  assert (H1 : faulty (hd Quiet (sched (Examples.world Examples.squatted [])))
               = false) by reflexivity.
  assert (H2 : walk (Join ["q"] ["new"])
                    (seen (Examples.world Examples.squatted []))
               = inr (File [])) by reflexivity.
  split; [exact H1|]. split; [exact H2|].
  exact (ensuredir_accepts_any_entry ["q"] ["new"] _ _ H1 H2).
Defined.

(** X14: the three ways in which the package names the slot of a process
    agree.  The directory [Take] moves a job of name [x] to, written with
    [mycur], is the entry [x] of the directory [getWorkerDir] gives for the
    same process, which is [cur/<pid>] in decimal; and [strconv.Atoi] reads
    the name of that slot back as the identifier. *)
Theorem slot_names_agree (qu : Queue) (p : Z) (x : string) :
  Join (basedir qu) [mycur p; x] = Join (Queue_getWorkerDir qu p) [x] /\
  Queue_getWorkerDir qu p = Queue_getCurDir qu ++ [Itoa p] /\
  (in_range p = true -> Atoi (Base (Queue_getWorkerDir qu p)) = (p, None)).
Proof.
  rewrite Join_mycur, getWorkerDir_eq, getCurDir_eq, <- app_assoc.
  split; [reflexivity|]. split; [reflexivity|]. intro Hr.
  change (basedir qu ++ ["cur"; Itoa p])
    with (basedir qu ++ ["cur"] ++ [Itoa p]).
  rewrite app_assoc. unfold Base. rewrite last_last. now apply Atoi_Itoa.
Qed.

Lemma slot_names_agree_witness :
  Join (basedir Examples.qx) [mycur 42; "build1"]
    = Join (Queue_getWorkerDir Examples.qx 42) ["build1"] /\
  Queue_getWorkerDir Examples.qx 42 = Queue_getCurDir Examples.qx ++ [Itoa 42] /\
  Atoi (Base (Queue_getWorkerDir Examples.qx 42)) = (42%Z, None).
Proof.
  destruct (slot_names_agree Examples.qx 42 "build1") as (H1 & H2 & H3).
  split; [exact H1|]. split; [exact H2|]. apply H3. reflexivity.
Defined.

(** ** RescueDeadJobs *)

(** X15: [RescueDeadJobs] does not overwrite a job of [new] that is not
    empty.  When a job of some slot has its name taken in [new] by such a
    job, then after the sweep, with no other process acting on a well-formed
    tree, both are where they were, with all they held; the slot, not being
    empty, stays too, whether its process is dead or not. *)
Theorem rescue_never_overwrites (qu : Queue) (s x : string) (n : node)
        (e0 : string * node) (es : list (string * node)) (w w' : World)
        (r : error) :
  calm (sched w) = true -> wf (fs w) ->
  walk (basedir qu ++ ["cur"; s; x]) (fs w) = inr n ->
  walk (basedir qu ++ ["new"; x]) (fs w) = inr (Dir (e0 :: es)) ->
  Queue_RescueDeadJobs qu w = (r, w') ->
  walk (basedir qu ++ ["cur"; s; x]) (fs w') = inr n /\
  walk (basedir qu ++ ["new"; x]) (fs w') = inr (Dir (e0 :: es)).
Proof.
  intros Hc Hw Hj Hn H.
  destruct (RescueDeadJobs_keeps qu
    (fun t => wf t /\ walk (basedir qu ++ ["cur"; s; x]) t = inr n /\
              walk (basedir qu ++ ["new"; x]) t = inr (Dir (e0 :: es))))
    with (w := w) (w' := w') (r := r) as (_ & _ & K); auto.
  - tauto.
  - intros t t' p' y Hr (Ht & Hj' & Hn') Hy Hop.
    split; [now apply (wf_rename _ _ _ _ _ Ht Hy Hop)|].
    destruct (String.eqb y x) eqn:E.
    + apply String.eqb_eq in E. subst y. exfalso.
      destruct (rename_inv _ _ _ _ Hop) as (x0 & es0 & _ & _ & _ & _ & Hcase).
      rewrite <- !app_assoc in Hcase. cbn [app] in Hcase. rewrite Hn' in Hcase.
      destruct Hcase as [[E _]|(_ & _ & _ & [[e K]|[(b1 & b2 & K & _)|[K _]]])];
        try discriminate.
      apply app_inv_head in E. discriminate.
    + apply String.eqb_neq in E. assert (x <> y) by congruence.
      rewrite <- Hj', <- Hn'.
      split; apply (rename_frame _ _ _ _ _ Hop); prefix_tac.
  - intros t t' p' Hr (Ht & Hj' & Hn') Hop.
    split; [now apply (wf_remove _ _ _ Ht Hop)|].
    destruct (String.eqb (Itoa p') s) eqn:E.
    + apply String.eqb_eq in E. exfalso.
      change (basedir qu ++ ["cur"; s; x])
        with (basedir qu ++ ["cur"; s] ++ [x]) in Hj'.
      rewrite app_assoc in Hj'.
      destruct (walk_snoc_inv _ _ _ _ Hj') as (ses & Hs & Ha).
      rewrite <- E in Hs.
      destruct (remove_inv _ _ _ Hop) as [(_ & _ & b0 & K)|(_ & _ & K)];
        rewrite Hs in K; [discriminate|].
      injection K as ->. discriminate.
    + apply String.eqb_neq in E. assert (s <> Itoa p') by congruence.
      assert (Et : t' = del ((basedir qu ++ ["cur"]) ++ [Itoa p']) t).
      { rewrite <- app_assoc.
        destruct (remove_inv _ _ _ Hop) as [(_ & -> & _)|(_ & -> & _)];
          reflexivity. }
      subst t'. rewrite <- Hj', <- Hn'.
      split; apply walk_del_frame; prefix_tac.
Qed.

Lemma rescue_never_overwrites_witness :
  calm (sched Examples.crowded) = true /\ wf (fs Examples.crowded) /\
  walk (basedir Examples.qx ++ ["cur"; "9"; "build1"]) (fs Examples.crowded)
    = inr Examples.build1 /\
  walk (basedir Examples.qx ++ ["new"; "build1"]) (fs Examples.crowded)
    = inr (Dir [("old", File [])]) /\
  kill0 Examples.crowded 9 = Some ESRCH /\
  Queue_RescueDeadJobs Examples.qx Examples.crowded
    = (None, Examples.crowded_swept) /\
  walk (basedir Examples.qx ++ ["cur"; "9"; "build1"]) (fs Examples.crowded_swept)
    = inr Examples.build1 /\
  walk (basedir Examples.qx ++ ["new"; "build1"]) (fs Examples.crowded_swept)
    = inr (Dir [("old", File [])]).
Proof.
  assert (H1 : calm (sched Examples.crowded) = true) by reflexivity.
  assert (H2 : wf (fs Examples.crowded)) by exact wf_crowded.
  assert (H3 : walk (basedir Examples.qx ++ ["cur"; "9"; "build1"])
                    (fs Examples.crowded) = inr Examples.build1)
    by reflexivity.
  assert (H4 : walk (basedir Examples.qx ++ ["new"; "build1"])
                    (fs Examples.crowded) = inr (Dir [("old", File [])]))
    by reflexivity.
  assert (H5 : Queue_RescueDeadJobs Examples.qx Examples.crowded
               = (None, Examples.crowded_swept)) by (vm_compute; reflexivity).
  split; [exact H1|]. split; [exact H2|]. split; [exact H3|]. split; [exact H4|].
  split; [reflexivity|]. split; [exact H5|].
  exact (rescue_never_overwrites Examples.qx "9" "build1" _ _ _ _ _ _
           H1 H2 H3 H4 H5).
Defined.

(** X16: [RescueDeadJobs] works in [cur] and [new] only: with no other
    process acting on a well-formed tree, a path that is not in [cur] or in
    [new], and is not above them, resolves after the sweep to what it
    resolved to before.  The jobs in [tmp], [done] and [failed] are not
    touched. *)
Theorem rescue_touches_cur_and_new_only (qu : Queue) (p : path) (w w' : World)
        (r : error) :
  calm (sched w) = true -> wf (fs w) ->
  prefix (basedir qu ++ ["cur"]) p = false ->
  prefix p (basedir qu ++ ["cur"]) = false ->
  prefix (basedir qu ++ ["new"]) p = false ->
  prefix p (basedir qu ++ ["new"]) = false ->
  Queue_RescueDeadJobs qu w = (r, w') ->
  walk p (fs w') = walk p (fs w).
Proof.
  intros Hc Hw C1 C2 N1 N2 H.
  destruct (RescueDeadJobs_keeps qu
    (fun t => wf t /\ walk p t = walk p (fs w)))
    with (w := w) (w' := w') (r := r) as (_ & _ & K); auto.
  - tauto.
  - intros t t' p' y Hr (Ht & Hp) Hy Hop.
    split; [now apply (wf_rename _ _ _ _ _ Ht Hy Hop)|]. rewrite <- Hp.
    destruct (prefix_outside _ [Itoa p'; y] _ C1 C2) as [A1 A2].
    destruct (prefix_outside _ [y] _ N1 N2) as [B1 B2].
    rewrite <- app_assoc in A1, A2, B1, B2. cbn [app] in A1, A2, B1, B2.
    apply (rename_frame _ _ _ _ _ Hop); rewrite <- ?app_assoc; cbn [app];
      assumption.
  - intros t t' p' Hr (Ht & Hp) Hop.
    split; [now apply (wf_remove _ _ _ Ht Hop)|]. rewrite <- Hp.
    assert (Et : t' = del ((basedir qu ++ ["cur"]) ++ [Itoa p']) t).
    { rewrite <- app_assoc.
      destruct (remove_inv _ _ _ Hop) as [(_ & -> & _)|(_ & -> & _)];
        reflexivity. }
    subst t'. destruct (prefix_outside _ [Itoa p'] _ C1 C2) as [A1 A2].
    apply walk_del_frame; assumption.
Qed.

Lemma rescue_touches_cur_and_new_only_witness :
  calm (sched Examples.crowded) = true /\ wf (fs Examples.crowded) /\
  prefix (basedir Examples.qx ++ ["cur"]) ["q"; "done"; "j0"] = false /\
  prefix ["q"; "done"; "j0"] (basedir Examples.qx ++ ["cur"]) = false /\
  prefix (basedir Examples.qx ++ ["new"]) ["q"; "done"; "j0"] = false /\
  prefix ["q"; "done"; "j0"] (basedir Examples.qx ++ ["new"]) = false /\
  Queue_RescueDeadJobs Examples.qx Examples.crowded
    = (None, Examples.crowded_swept) /\
  walk ["q"; "done"; "j0"] (fs Examples.crowded_swept)
    = walk ["q"; "done"; "j0"] (fs Examples.crowded).
Proof.
  assert (H1 : calm (sched Examples.crowded) = true) by reflexivity.
  assert (H2 : wf (fs Examples.crowded)) by exact wf_crowded.
  assert (H3 : prefix (basedir Examples.qx ++ ["cur"]) ["q"; "done"; "j0"]
               = false) by reflexivity.
  assert (H4 : prefix ["q"; "done"; "j0"] (basedir Examples.qx ++ ["cur"])
               = false) by reflexivity.
  assert (H5 : prefix (basedir Examples.qx ++ ["new"]) ["q"; "done"; "j0"]
               = false) by reflexivity.
  assert (H6 : prefix ["q"; "done"; "j0"] (basedir Examples.qx ++ ["new"])
               = false) by reflexivity.
  assert (H7 : Queue_RescueDeadJobs Examples.qx Examples.crowded
               = (None, Examples.crowded_swept)) by (vm_compute; reflexivity).
  split; [exact H1|]. split; [exact H2|]. split; [exact H3|]. split; [exact H4|].
  split; [exact H5|]. split; [exact H6|]. split; [exact H7|].
  exact (rescue_touches_cur_and_new_only Examples.qx _ _ _ _
           H1 H2 H3 H4 H5 H6 H7).
Defined.

(** X17: an entry of [cur] whose name [strconv.Atoi] rejects is not the
    slot of any process for [RescueDeadJobs]: with no other process acting
    on a well-formed tree, it holds after the sweep what it held before. *)
Theorem rescue_skips_names_that_are_no_pids (qu : Queue) (s : string) (n0 : Z)
        (err : NumError) (w w' : World) (r : error) :
  calm (sched w) = true -> wf (fs w) ->
  Atoi s = (n0, Some err) ->
  Queue_RescueDeadJobs qu w = (r, w') ->
  walk (basedir qu ++ ["cur"; s]) (fs w')
    = walk (basedir qu ++ ["cur"; s]) (fs w).
Proof.
  intros Hc Hw Hs H.
  assert (Hne : forall p', in_range p' = true -> Itoa p' <> s).
  { intros p' Hr E. rewrite <- E, (Atoi_Itoa _ Hr) in Hs. discriminate. }
  destruct (RescueDeadJobs_keeps qu
    (fun t => wf t /\ walk (basedir qu ++ ["cur"; s]) t
                      = walk (basedir qu ++ ["cur"; s]) (fs w)))
    with (w := w) (w' := w') (r := r) as (_ & _ & K); auto.
  - tauto.
  - intros t t' p' y Hr (Ht & Hp) Hy Hop.
    split; [now apply (wf_rename _ _ _ _ _ Ht Hy Hop)|]. rewrite <- Hp.
    destruct (prefix_slot_other (basedir qu) (Itoa p') s [y] (Hne _ Hr))
      as [P1 P2].
    destruct (prefix_new_slot (basedir qu) s [y]) as [P3 P4].
    rewrite <- !app_assoc in Hop.
    now apply (rename_frame _ _ _ _ _ Hop).
  - intros t t' p' Hr (Ht & Hp) Hop.
    split; [now apply (wf_remove _ _ _ Ht Hop)|]. rewrite <- Hp.
    assert (Et : t' = del ((basedir qu ++ ["cur"]) ++ [Itoa p']) t).
    { rewrite <- app_assoc.
      destruct (remove_inv _ _ _ Hop) as [(_ & -> & _)|(_ & -> & _)];
        reflexivity. }
    subst t'.
    destruct (prefix_slot_other (basedir qu) (Itoa p') s [] (Hne _ Hr))
      as [P1 P2].
    apply walk_del_frame; rewrite <- app_assoc; assumption.
Qed.

Lemma rescue_skips_names_that_are_no_pids_witness :
  calm (sched Examples.crowded) = true /\ wf (fs Examples.crowded) /\
  Atoi "lock" = (0%Z, Some ErrSyntax) /\
  Queue_RescueDeadJobs Examples.qx Examples.crowded
    = (None, Examples.crowded_swept) /\
  walk (basedir Examples.qx ++ ["cur"; "lock"]) (fs Examples.crowded_swept)
    = walk (basedir Examples.qx ++ ["cur"; "lock"]) (fs Examples.crowded).
Proof.
  assert (H1 : calm (sched Examples.crowded) = true) by reflexivity.
  assert (H2 : wf (fs Examples.crowded)) by exact wf_crowded.
  assert (H3 : Atoi "lock" = (0%Z, Some ErrSyntax)) by reflexivity.
  assert (H4 : Queue_RescueDeadJobs Examples.qx Examples.crowded
               = (None, Examples.crowded_swept)) by (vm_compute; reflexivity).
  split; [exact H1|]. split; [exact H2|]. split; [exact H3|]. split; [exact H4|].
  exact (rescue_skips_names_that_are_no_pids Examples.qx "lock" _ _ _ _ _
           H1 H2 H3 H4).
Defined.

(** ** From Take to Finish *)

(** X18: a worker takes a job and then finishes it, or fails it, and no
    other process acts meanwhile.  The job [Take] returns is one that
    [Finish] and [Fail] can move: after the second call the listing of
    [done] (or [failed]) has the name of the job, and neither the listing
    of [new] nor that of the owner slot has it. *)
Theorem Take_then_Finish (qu : Queue) (fuel : nat) (tr : transition)
        (job job' : Job) (w w1 w2 : World) :
  calm (sched w) = true -> wf (fs w) ->
  Queue_Take fuel qu w = (Some (Some job, None), w1) ->
  tr <> TSubmit ->
  transition_run tr job w1 = ((job', None), w2) ->
  dir job' = basedir qu ++ [transition_dir tr; Basename job] /\
  (exists l, readdir (basedir qu ++ [transition_dir tr]) (fs w2) = inr l /\
             In (Basename job) l) /\
  (exists l, readdir (Queue_getNewDir qu) (fs w2) = inr l /\
             ~ In (Basename job) l) /\
  (exists l, readdir (Queue_getWorkerDir qu (pid w)) (fs w2) = inr l /\
             ~ In (Basename job) l).
Proof.
  intros Hc Hw Ht Htr Hf.
  destruct (Take_calm_inv _ _ _ _ _ Hc Hw Ht)
    as (Hl & Hq & Hd & (listed & Hrd & Hin) & Hop1).
  destruct (readdir_plain _ _ _ Hw Hrd) as [Hpl _].
  rewrite Forall_forall in Hpl. specialize (Hpl _ Hin).
  assert (Hplain : plain (transition_dir tr) = true) by now destruct tr.
  set (b := basedir qu) in *. set (id := Basename job) in *.
  assert (E : exists w',
    os_Rename (dir job) (b ++ [transition_dir tr; id]) w1 = (None, w') /\
    job' = mkJob id (b ++ [transition_dir tr; id]) (q job) /\ w2 = w').
  { destruct tr; [congruence| |]; cbn [transition_run transition_dir] in *;
      unfold Job_Finish, Job_Fail, bind in Hf; rewrite Hq in Hf; fold b id in Hf;
      rewrite (Join_two b _ _ Hplain Hpl) in Hf;
      destruct (os_Rename _ _ w1) as [[e|] w'] eqn:E; unfold ret in Hf;
      try discriminate; injection Hf as <- <-; exists w'; rewrite Hq; auto. }
  destruct E as (w' & E & -> & ->). cbn [dir]. split; [reflexivity|].
  destruct (update_inv _ _ _ _ E) as (_ & _ & _ & _ & Hop2).
  apply os_rename_ok in Hop2.
  rewrite (seen_calm _ (later_calm _ _ Hl Hc)) in Hop2. rewrite Hd in *.
  split; [|split].
  - change (b ++ [transition_dir tr; id])
      with (b ++ [transition_dir tr] ++ [id]) in Hop2.
    rewrite app_assoc in Hop2.
    destruct (rename_lists_dst _ _ _ _ _ Hop2) as (es & Hes & Hi).
    exists (names es). split; [now apply readdir_dir|exact Hi].
  - change (b ++ ["new"; id]) with (b ++ ["new"] ++ [id]) in Hop1.
    rewrite app_assoc in Hop1.
    destruct (rename_lists_src _ _ _ _ _ Hop1) as (es & _ & Hes);
      [prefix_tac|prefix_tac|].
    exists (names (del_entry id es)). split.
    + rewrite getNewDir_eq. fold b. apply readdir_dir. rewrite <- Hes.
      apply (rename_frame _ _ _ _ _ Hop2); destruct tr; try congruence;
        prefix_tac.
    + rewrite In_names_del_entry. tauto.
  - change (b ++ ["cur"; Itoa (pid w); id])
      with (b ++ ["cur"; Itoa (pid w)] ++ [id]) in Hop2.
    rewrite app_assoc in Hop2.
    destruct (rename_lists_src _ _ _ _ _ Hop2) as (es & _ & Hes);
      [destruct tr; try congruence; prefix_tac
      |destruct tr; try congruence; prefix_tac|].
    exists (names (del_entry id es)). split.
    + rewrite getWorkerDir_eq. fold b. now apply readdir_dir.
    + rewrite In_names_del_entry. tauto.
Qed.

Lemma Take_then_Finish_witness :
  calm (sched Examples.submitted) = true /\ wf (fs Examples.submitted) /\
  Queue_Take 1 Examples.qx Examples.submitted
    = (Some (Some (mkJob "build1" ["q"; "cur"; "42"; "build1"] Examples.qx),
             None), Examples.taken) /\
  TFinish <> TSubmit /\
  transition_run TFinish (mkJob "build1" ["q"; "cur"; "42"; "build1"] Examples.qx)
                 Examples.taken
    = ((mkJob "build1" ["q"; "done"; "build1"] Examples.qx, None),
       Examples.finished) /\
  readdir ["q"; "done"] (fs Examples.finished) = inr ["build1"] /\
  exists l, readdir (Queue_getNewDir Examples.qx) (fs Examples.finished) = inr l /\
            ~ In "build1" l.
Proof.
  assert (H1 : calm (sched Examples.submitted) = true) by reflexivity.
  assert (H2 : wf (fs Examples.submitted)) by exact wf_submitted.
  assert (H3 : Queue_Take 1 Examples.qx Examples.submitted
    = (Some (Some (mkJob "build1" ["q"; "cur"; "42"; "build1"] Examples.qx),
             None), Examples.taken)) by (vm_compute; reflexivity).
  assert (H4 : TFinish <> TSubmit) by discriminate.
  assert (H5 : transition_run TFinish
                 (mkJob "build1" ["q"; "cur"; "42"; "build1"] Examples.qx)
                 Examples.taken
    = ((mkJob "build1" ["q"; "done"; "build1"] Examples.qx, None),
       Examples.finished)) by (vm_compute; reflexivity).
  split; [exact H1|]. split; [exact H2|]. split; [exact H3|]. split; [exact H4|].
  split; [exact H5|]. split; [vm_compute; reflexivity|].
  exact (proj1 (proj2 (proj2
    (Take_then_Finish Examples.qx 1 TFinish _ _ _ _ _ H1 H2 H3 H4 H5)))).
Defined.

(** X19: [RescueDeadJobs] returns an error only when [cur] cannot be
    listed; it then returns the error of the listing, writes one line to
    the log, and changes nothing.  When [cur] can be listed it returns no
    error, whatever becomes of the renames. *)
Theorem RescueDeadJobs_result (qu : Queue) (w w' : World) (r : error) :
  faulty (hd Quiet (sched w)) = false ->
  Queue_RescueDeadJobs qu w = (r, w') ->
  match readdir (Queue_getCurDir qu) (seen w) with
  | inl e =>
      r = Some e /\ fs w' = seen w /\
      log w' = log w ++ [LogReadCurFailed (Queue_getCurDir qu)]
  | inr _ => r = None
  end.
Proof.
  intros Hf H. unfold Queue_RescueDeadJobs, readdirnames, bind in H.
  destruct (os_Readdirnames _ w) as [[l r0] w1] eqn:E1.
  destruct (os_Readdirnames_inv _ _ _ _ _ E1) as (_ & L1 & _ & _ & F1 & Hres).
  destruct r0 as [e|].
  - destruct Hres as [_ He]. rewrite (He Hf).
    unfold log_Println, ret in H. injection H as <- <-. cbn. rewrite L1. auto.
  - rewrite Hres. destruct (RescueDeadJobs_range qu l w1) as [[] w2].
    now injection H as <- _.
Qed.

Lemma RescueDeadJobs_result_witness :
  faulty (hd Quiet (sched Examples.broken)) = false /\
  Queue_RescueDeadJobs Examples.qx Examples.broken
    = (Some ENOTDIR, snd (Queue_RescueDeadJobs Examples.qx Examples.broken)) /\
  readdir (Queue_getCurDir Examples.qx) (seen Examples.broken) = inl ENOTDIR /\
  match readdir (Queue_getCurDir Examples.qx) (seen Examples.broken) with
  | inl e =>
      Some ENOTDIR = Some e /\
      fs (snd (Queue_RescueDeadJobs Examples.qx Examples.broken))
        = seen Examples.broken /\
      log (snd (Queue_RescueDeadJobs Examples.qx Examples.broken))
        = log Examples.broken ++ [LogReadCurFailed (Queue_getCurDir Examples.qx)]
  | inr _ => Some ENOTDIR = None
  end.
Proof.
  assert (H1 : faulty (hd Quiet (sched Examples.broken)) = false) by reflexivity.
  assert (H2 : Queue_RescueDeadJobs Examples.qx Examples.broken
    = (Some ENOTDIR, snd (Queue_RescueDeadJobs Examples.qx Examples.broken)))
    by (vm_compute; reflexivity).
  split; [exact H1|]. split; [exact H2|]. split; [reflexivity|].
  exact (RescueDeadJobs_result Examples.qx _ _ _ H1 H2).
Defined.

(** ** What the operations leave alone *)

(** X20: whether it succeeds or fails, [OpenQueue] only adds directories,
    and only at the five fixed subdirectories and the owner slot: with no
    other process acting, whatever resolved before resolves afterwards to a
    node of the same kind (a file with the same contents, a directory), and
    whatever resolves afterwards resolved before or is a directory at one
    of these six paths.  Nothing is written to the log. *)
Theorem Open_only_adds_directories (d : path) (w w' : World)
        (res : option Queue * error) :
  calm (sched w) = true ->
  OpenQueue d w = (res, w') ->
  grown (queue_dirs d (pid w)) (fs w) (fs w') /\ log w' = log w.
Proof.
  intros Hc H. unfold OpenQueue, bind, os_Getpid in H.
  destruct (OpenQueue_range _ _ w) as [err w1] eqn:E.
  assert (Hin : forall n,
            In n ["tmp"; "new"; "cur"; "done"; "failed"; mycur (pid w)] ->
            In (Join (basedir (mkQueue d "")) [n]) (queue_dirs d (pid w))).
  { cbn [basedir]. intros n Hn. unfold queue_dirs. apply in_or_app.
    cbn [In] in Hn.
    destruct Hn as [<-|[<-|[<-|[<-|[<-|[<-|[]]]]]]];
      try (left; cbn; tauto).
    right. left. now rewrite Join_mycur, Join_nil, <- app_assoc. }
  destruct (OpenQueue_range_grown _ _ _ Hin _ _ _ Hc E) as (_ & L & G).
  assert (K : w' = w1) by (destruct err; unfold ret in H; now injection H as _ <-).
  subst w1. auto.
Qed.

Lemma Open_only_adds_directories_witness :
  calm (sched Examples.blocked) = true /\
  OpenQueue ["q"] Examples.blocked
    = ((None, Some ENOTDIR), snd (OpenQueue ["q"] Examples.blocked)) /\
  walk ["q"; "tmp"] (fs (snd (OpenQueue ["q"] Examples.blocked)))
    = inr (Dir []) /\
  grown (queue_dirs ["q"] (pid Examples.blocked)) (fs Examples.blocked)
        (fs (snd (OpenQueue ["q"] Examples.blocked))) /\
  log (snd (OpenQueue ["q"] Examples.blocked)) = log Examples.blocked.
Proof.
  assert (H1 : calm (sched Examples.blocked) = true) by reflexivity.
  assert (H2 : OpenQueue ["q"] Examples.blocked
    = ((None, Some ENOTDIR), snd (OpenQueue ["q"] Examples.blocked)))
    by (vm_compute; reflexivity).
  split; [exact H1|]. split; [exact H2|]. split; [vm_compute; reflexivity|].
  exact (Open_only_adds_directories ["q"] _ _ _ H1 H2).
Defined.

(** X21: [Submit], [Finish] and [Fail] move the job and nothing else:
    whether the rename succeeds or fails, a path that is not in the old or
    the new location of the job, and is not above them, resolves afterwards
    to what it resolved to when the operation started. *)
Theorem transition_moves_only_the_job (tr : transition) (job job' : Job)
        (w w' : World) (r : error) (p : path) :
  plain (Basename job) = true ->
  transition_run tr job w = ((job', r), w') ->
  prefix (dir job) p = false -> prefix p (dir job) = false ->
  prefix (basedir (q job) ++ [transition_dir tr; Basename job]) p = false ->
  prefix p (basedir (q job) ++ [transition_dir tr; Basename job]) = false ->
  walk p (fs w') = walk p (seen w).
Proof.
  intros Hp H S1 S2 D1 D2.
  assert (Hplain : plain (transition_dir tr) = true) by now destruct tr.
  assert (E : exists err,
    os_Rename (dir job)
              (basedir (q job) ++ [transition_dir tr; Basename job]) w
      = (err, w')).
  { destruct tr; cbn [transition_run transition_dir] in *;
      unfold Job_Submit, Job_Finish, Job_Fail, bind in H;
      rewrite (Join_two (basedir (q job)) _ _ Hplain Hp) in H;
      destruct (os_Rename _ _ w) as [[e|] w1] eqn:E; unfold ret in H;
      injection H as _ _ <-; eauto. }
  destruct E as [err E].
  destruct (update_inv _ _ _ _ E) as (_ & _ & _ & _ & Hres).
  destruct err as [e|]; [destruct Hres as [-> _]; reflexivity|].
  apply os_rename_ok in Hres. now apply (rename_frame _ _ _ _ _ Hres).
Qed.

Lemma transition_moves_only_the_job_witness :
  plain (Basename (mkJob "build1" ["q"; "cur"; "42"; "build1"] Examples.qx))
    = true /\
  transition_run TFinish
                 (mkJob "build1" ["q"; "cur"; "42"; "build1"] Examples.qx)
                 Examples.taken
    = ((mkJob "build1" ["q"; "done"; "build1"] Examples.qx, None),
       Examples.finished) /\
  walk ["q"; "new"; "a"] (fs Examples.finished)
    = walk ["q"; "new"; "a"] (seen Examples.taken).
Proof.
  assert (H1 : plain (Basename (mkJob "build1" ["q"; "cur"; "42"; "build1"]
                                      Examples.qx)) = true) by reflexivity.
  assert (H2 : transition_run TFinish
                 (mkJob "build1" ["q"; "cur"; "42"; "build1"] Examples.qx)
                 Examples.taken
    = ((mkJob "build1" ["q"; "done"; "build1"] Examples.qx, None),
       Examples.finished)) by (vm_compute; reflexivity).
  split; [exact H1|]. split; [exact H2|].
  apply (transition_moves_only_the_job TFinish _ _ _ _ _ ["q"; "new"; "a"]
           H1 H2); reflexivity.
Defined.

(** ** Names with a path separator *)

(** X22: a name with a path separator is refused before anything is tried:
    [CreateJob] with such a prefix returns no job, [Set] with such a key
    sets nothing, both return the error of the pattern, and the world is as
    it was: no system call is made and nothing is logged.  So [Set] cannot
    set a property in a subdirectory of the job. *)
Theorem separator_refused (qu : Queue) (j : Job) (s : string) (data : bytes)
        (w : World) :
  no_slash s = false ->
  Queue_CreateJob qu s w = ((None, Some ErrPattern), w) /\
  Job_Set j s data w = (Some ErrPattern, w).
Proof.
  intro H. unfold Queue_CreateJob, Job_Set, ioutil_TempDir, ioutil_TempFile, bind.
  rewrite (prefixAndSuffix_separator _ H). split; reflexivity.
Qed.

Lemma separator_refused_witness :
  no_slash "logs/out" = false /\
  Queue_CreateJob Examples.qx "logs/out" (Examples.world Examples.staged [])
    = ((None, Some ErrPattern), Examples.world Examples.staged []) /\
  Job_Set Examples.staged_job "logs/out" [Byte.x43]
          (Examples.world Examples.staged [])
    = (Some ErrPattern, Examples.world Examples.staged []).
Proof.
  assert (H : no_slash "logs/out" = false) by reflexivity.
  split; [exact H|].
  exact (separator_refused Examples.qx Examples.staged_job "logs/out"
           [Byte.x43] (Examples.world Examples.staged []) H).
Defined.
